(** * DataManager: feature corpus and brute-force KNN queries

    A shallow embedding of [data_manager.py] (class [DataManager]).

    Numbers.  The floats of a vector are modelled as exact rationals
    ([Q]); a score of a query is a rational or [np.inf] ([xfloat]): the
    value the code writes down as the initial distance, and the value a
    norm takes when it overflows.  Three library functions are taken as
    given, through the class [Externals]: the L2 norm of a vector as numpy
    computes it in floats ([np.linalg.norm], and the row norms of
    [sklearn.preprocessing.normalize]), [np.argsort] (numpy does not fix
    the order it gives to equal keys) and the string to float conversion
    [float(...)].  The rounding of sums, products and quotients is outside
    the model.

    Effects.  Python exceptions are values of [exn]; a method of the class
    is a function from the object state to a result and the state it
    leaves behind, also when it raises. *)

From Stdlib Require Import QArith Lqa Ascii.
From stdpp Require Import gmap strings list fin_maps sorting.

(** ** Exceptions and results *)

(** The key a failed dictionary lookup reports: a segment name, or a
    (name, number) tuple. *)
Inductive pykey :=
  | KStr (s : string)
  | KPair (s : string) (n : Z).

Inductive exn :=
  | AssertionError
  | ValueError
  | IndexError
  | AttributeError
  | IOError
  | KeyError (k : pykey).

Inductive result (A : Type) :=
  | OK (a : A)
  | Raise (e : exn).
Arguments OK {A} a.
Arguments Raise {A} e.

Global Instance result_ret : MRet result := @OK.
Global Instance result_bind : MBind result := fun A B f m =>
  match m with
  | OK a => f a
  | Raise e => Raise e
  end.

Definition is_OK {A} (r : result A) : Prop :=
  match r with OK _ => True | Raise _ => False end.

Definition py_assert (b : bool) : result unit :=
  if b then OK tt else Raise AssertionError.

Definition lookup_or {A} (e : exn) (o : option A) : result A :=
  match o with Some a => OK a | None => Raise e end.

(** [[f(x) for x in l]] with a body that may raise. *)
Fixpoint comprehension {A B} (f : A -> result B) (l : list A) : result (list B) :=
  match l with
  | [] => OK []
  | x :: t => y ← f x; ys ← comprehension f t; OK (y :: ys)
  end.

(** ** Floats *)

Inductive xfloat :=
  | Fin (q : Q)
  | PInf.

Definition Qltb (x y : Q) : bool := negb (Qle_bool y x).

Definition xltb (a b : xfloat) : bool :=
  match a, b with
  | Fin x, Fin y => Qltb x y
  | Fin _, PInf => true
  | PInf, _ => false
  end.

Definition xle (a b : xfloat) : Prop :=
  match a, b with
  | Fin x, Fin y => (x <= y)%Q
  | _, PInf => True
  | PInf, Fin _ => False
  end.

Definition xleb (a b : xfloat) : bool := negb (xltb b a).

(** The functions of numpy, sklearn and Python that the model takes as
    given. *)
Class Externals := {
  np_norm : list Q -> xfloat;
  np_argsort : list xfloat -> list nat;
  py_float : string -> option Q;
}.

(** What is assumed of them: a norm is a number that is not negative, or
    [np.inf], and [np.argsort a] lists every position of [a] once, in an
    order in which the values do not decrease. *)
Class ExternalsSpec `{Externals} : Prop := {
  np_norm_nonneg : forall v, xle (Fin 0) (np_norm v);
  np_argsort_perm : forall a, np_argsort a ≡ₚ seq 0 (length a);
  np_argsort_sorted : forall a i j p q x y,
    i <= j ->
    np_argsort a !! i = Some p -> np_argsort a !! j = Some q ->
    a !! p = Some x -> a !! q = Some y ->
    xle x y;
}.

(** ** Python built-ins on strings and lists *)

Definition chars (s : string) : list ascii := String.list_ascii_of_string s.
Definition str (cs : list ascii) : string := String.string_of_list_ascii cs.

Fixpoint starts_with (p l : list ascii) : bool :=
  match p, l with
  | [], _ => true
  | a :: p', b :: l' => Ascii.eqb a b && starts_with p' l'
  | _ :: _, [] => false
  end.

(** [s.endswith(suffix)] *)
Definition endswith (s suffix : string) : bool :=
  starts_with (rev (chars suffix)) (rev (chars s)).

(** [s[:-n]], [s[:n]] and [s[n:]] *)
Definition drop_last (n : nat) (s : string) : string :=
  str (take (length (chars s) - n) (chars s)).
Definition str_take (n : nat) (s : string) : string := str (take n (chars s)).
Definition str_drop (n : nat) (s : string) : string := str (drop n (chars s)).

(** [len(s)] *)
Definition len (s : string) : nat := length (chars s).

Definition is_space (c : ascii) : bool :=
  match nat_of_ascii c with
  | 9 | 10 | 11 | 12 | 13 | 32 => true
  | _ => false
  end.

Fixpoint lstrip (cs : list ascii) : list ascii :=
  match cs with
  | c :: t => if is_space c then lstrip t else cs
  | [] => []
  end.

(** [s.strip()] *)
Definition strip (cs : list ascii) : list ascii := rev (lstrip (rev (lstrip cs))).

(** [s.split(sep)] for a one-character separator *)
Fixpoint split (sep : ascii) (cs : list ascii) : list (list ascii) :=
  match cs with
  | [] => [[]]
  | c :: t =>
      if Ascii.eqb c sep then [] :: split sep t
      else match split sep t with
           | h :: r => (c :: h) :: r
           | [] => [[c]]
           end
  end.

Definition digit (c : ascii) : option Z :=
  let n := nat_of_ascii c in
  if (48 <=? n) && (n <=? 57) then Some (Z.of_nat (n - 48)) else None.

Fixpoint digits (acc : Z) (cs : list ascii) : option Z :=
  match cs with
  | [] => Some acc
  | c :: t => d ← digit c; digits (10 * acc + d) t
  end.

(** [int(s)]: blanks around, an optional sign, at least one decimal digit. *)
Definition py_int (s : string) : result Z :=
  let unsigned cs :=
    match cs with
    | [] => None
    | _ => digits 0 cs
    end in
  lookup_or ValueError
    match strip (chars s) with
    | "-"%char :: cs => Z.opp <$> unsigned cs
    | "+"%char :: cs => unsigned cs
    | cs => unsigned cs
    end.

(** [os.path.join(root, file)] for a file name without a slash *)
Definition path_join (root file : string) : string :=
  if bool_decide (root = "") || endswith root "/" then root +:+ file
  else root +:+ "/" +:+ file.

(** [sorted(files)]: byte-wise lexicographic order *)
Fixpoint insert_sorted (s : string) (l : list string) : list string :=
  match l with
  | [] => [s]
  | h :: t => if String.leb s h then s :: l else h :: insert_sorted s t
  end.

Definition sorted (l : list string) : list string := foldr insert_sorted [] l.

(** [l[i]] on a Python list: a negative index counts from the end. *)
Definition py_getitem {A} (l : list A) (i : Z) : result A :=
  let j := if (i <? 0)%Z then (i + Z.of_nat (length l))%Z else i in
  if (j <? 0)%Z then Raise IndexError
  else lookup_or IndexError (l !! Z.to_nat j).

(** ** numpy and sklearn *)

Section Numpy.
Context `{Externals}.

(** [np.dot(a, b)] of two one-dimensional arrays: lengths must agree. *)
Fixpoint np_dot (a b : list Q) : result Q :=
  match a, b with
  | [], [] => OK 0%Q
  | x :: a', y :: b' => s ← np_dot a' b'; OK (x * y + s)%Q
  | _, _ => Raise ValueError
  end.

(** [a - b] of two one-dimensional arrays, with broadcasting: equal
    lengths, or one of the two of length one. *)
Fixpoint sub_same (a b : list Q) : option (list Q) :=
  match a, b with
  | [], [] => Some []
  | x :: a', y :: b' => cons (x - y)%Q <$> sub_same a' b'
  | _, _ => None
  end.

Definition np_sub (a b : list Q) : result (list Q) :=
  match sub_same a b with
  | Some d => OK d
  | None =>
      match a, b with
      | _, [y] => OK (map (fun x => x - y)%Q a)
      | [x], _ => OK (map (fun y => x - y)%Q b)
      | _, _ => Raise ValueError
      end
  end.

Definition sum_squares (v : list Q) : Q := foldr (fun x s => x * x + s)%Q 0%Q v.

(** [sklearn.preprocessing.normalize(X, axis=1)]: every row divided by
    its L2 norm, a row of norm zero left as it is; a number divided by a
    norm that is [np.inf] is zero. *)
Definition normalize_row (v : list Q) : list Q :=
  match np_norm v with
  | Fin n =>
      let n := if Qeq_bool n 0 then 1%Q else n in
      map (fun x => x / n)%Q v
  | PInf => map (fun _ => 0%Q) v
  end.

(** The input check of sklearn: a matrix with at least one row and one
    column, all rows of one length. *)
Definition check_array (X : list (list Q)) : result unit :=
  match X with
  | [] => Raise ValueError
  | r :: rest =>
      if bool_decide (r <> [] /\ Forall (fun r' => length r' = length r) rest)
      then OK tt
      else Raise ValueError
  end.

Definition normalize (X : list (list Q)) : result (list (list Q)) :=
  check_array X;; OK (map normalize_row X).

(** [np.argmin(a)] and [np.argmax(a)]: the first position of the least
    (greatest) value; an empty array is refused. *)
Fixpoint argmin_from (best_i : nat) (best : xfloat) (i : nat) (a : list xfloat) : nat :=
  match a with
  | [] => best_i
  | x :: t =>
      if xltb x best then argmin_from i x (S i) t
      else argmin_from best_i best (S i) t
  end.

Definition np_argmin (a : list xfloat) : result nat :=
  match a with
  | [] => Raise ValueError
  | x :: t => OK (argmin_from 0 x 1 t)
  end.

Fixpoint argmax_from (best_i : nat) (best : xfloat) (i : nat) (a : list xfloat) : nat :=
  match a with
  | [] => best_i
  | x :: t =>
      if xltb best x then argmax_from i x (S i) t
      else argmax_from best_i best (S i) t
  end.

Definition np_argmax (a : list xfloat) : result nat :=
  match a with
  | [] => Raise ValueError
  | x :: t => OK (argmax_from 0 x 1 t)
  end.

(** [a[i]] for a position [i], and [a[idx]] for an array of positions *)
Definition np_getitem {A} (a : list A) (i : nat) : result A :=
  lookup_or IndexError (a !! i).

Definition np_take {A} (a : list A) (idx : list nat) : result (list A) :=
  comprehension (np_getitem a) idx.

(** [for i, x in enumerate(l): state = body(state, i, x)] *)
Fixpoint for_enumerate {St A} (body : St -> nat -> A -> result St)
    (i : nat) (l : list A) (st : St) : result St :=
  match l with
  | [] => OK st
  | x :: t => st' ← body st i x; for_enumerate body (S i) t st'
  end.
End Numpy.

(** ** The object state *)

(** [self.features] is a Python list until [load_features] turns it into
    an array; an array has no [append]. *)
Inductive feature_store :=
  | PyList (rows : list (list Q))
  | NdArray (rows : list (list Q)).

Definition rows_of (f : feature_store) : list (list Q) :=
  match f with PyList r | NdArray r => r end.

Record DataManager := {
  video_seg_id_to_caption : gmap (string * Z) string;
  video_seg_frame_path : gmap (string * Z) string;
  features : feature_store;
  captions : list string;
  raw_captions : list string;
  frame_paths : list string;
  video_seg_feature_path : gmap string string;
  key_frames : gmap string (gset Z);
}.

(** [DataManager()] *)
Definition init : DataManager := {|
  video_seg_id_to_caption := ∅;
  video_seg_frame_path := ∅;
  features := PyList [];
  captions := [];
  raw_captions := [];
  frame_paths := [];
  video_seg_feature_path := ∅;
  key_frames := ∅;
|}.

(** The corpus is aligned when its three sequences have one length. *)
Definition aligned (self : DataManager) : Prop :=
  length (rows_of (features self)) = length (captions self) /\
  length (captions self) = length (frame_paths self).

(** A method: from the state to a result and the state left behind. *)
Definition method (A : Type) : Type := DataManager -> result A * DataManager.

Definition set_features (f : feature_store) (self : DataManager) : DataManager :=
  {| video_seg_id_to_caption := video_seg_id_to_caption self;
     video_seg_frame_path := video_seg_frame_path self;
     features := f;
     captions := captions self;
     raw_captions := raw_captions self;
     frame_paths := frame_paths self;
     video_seg_feature_path := video_seg_feature_path self;
     key_frames := key_frames self |}.

Definition set_captions (c : list string) (self : DataManager) : DataManager :=
  {| video_seg_id_to_caption := video_seg_id_to_caption self;
     video_seg_frame_path := video_seg_frame_path self;
     features := features self;
     captions := c;
     raw_captions := raw_captions self;
     frame_paths := frame_paths self;
     video_seg_feature_path := video_seg_feature_path self;
     key_frames := key_frames self |}.

Definition set_frame_paths (p : list string) (self : DataManager) : DataManager :=
  {| video_seg_id_to_caption := video_seg_id_to_caption self;
     video_seg_frame_path := video_seg_frame_path self;
     features := features self;
     captions := captions self;
     raw_captions := raw_captions self;
     frame_paths := p;
     video_seg_feature_path := video_seg_feature_path self;
     key_frames := key_frames self |}.

Definition set_video_seg_feature_path (m : gmap string string) (self : DataManager)
    : DataManager :=
  {| video_seg_id_to_caption := video_seg_id_to_caption self;
     video_seg_frame_path := video_seg_frame_path self;
     features := features self;
     captions := captions self;
     raw_captions := raw_captions self;
     frame_paths := frame_paths self;
     video_seg_feature_path := m;
     key_frames := key_frames self |}.

Global Instance method_ret : MRet method := fun A a self => (OK a, self).
Global Instance method_bind : MBind method := fun A B f m self =>
  match m self with
  | (OK a, self') => f a self'
  | (Raise e, self') => (Raise e, self')
  end.

(** A computation that only raises or returns, run inside a method. *)
Definition lift {A} (r : result A) : method A := fun self => (r, self).
Definition get : method DataManager := fun self => (OK self, self).
Definition modify (f : DataManager -> DataManager) : method unit :=
  fun self => (OK tt, f self).

(** [for x in l: body(x)] *)
Fixpoint for_each {A} (l : list A) (body : A -> method unit) : method unit :=
  match l with
  | [] => mret tt
  | x :: t => body x;; for_each t body
  end.

(** ** The file system as the loaders see it *)

Record FileSystem := {
  (** [os.walk(folder)]: the (root, folders, files) triples *)
  os_walk : string -> list (string * list string * list string);
  (** the lines of the file at a path *)
  file_lines : gmap string (list string);
}.

(** [open(path, 'r')], read as its lines *)
Definition open (fs : FileSystem) (path : string) : result (list string) :=
  lookup_or IOError (file_lines fs !! path).

(** ** The methods *)

Section Methods.
Context `{Externals}.

(** [self.features.append(feature)] *)
Definition features_append (feature : list Q) : method unit := fun self =>
  match features self with
  | PyList rows => (OK tt, set_features (PyList (rows ++ [feature])) self)
  | NdArray _ => (Raise AttributeError, self)
  end.

Definition captions_append (caption : string) : method unit :=
  modify (fun self => set_captions (captions self ++ [caption]) self).

Definition frame_paths_append (path : string) : method unit :=
  modify (fun self => set_frame_paths (frame_paths self ++ [path]) self).

(** [np.array([float(item) for item in line.strip().split(',')])] *)
Definition parse_feature (line : string) : result (list Q) :=
  comprehension (fun item => lookup_or ValueError (py_float (str item)))
    (split ","%char (strip (chars line))).

(** The loop over the lines of one feature file, lines 96 to 103; [count]
    is the number of the line. *)
Fixpoint read_rows (video_segment_name caption : string) (kf : gset Z)
    (count : Z) (f : list string) : method unit :=
  match f with
  | [] => mret tt
  | line :: rest =>
      (if bool_decide (count ∈ kf) then
         feature ← lift (parse_feature line);
         features_append feature;;
         captions_append caption;;
         self ← get;
         path ← lift (lookup_or (KeyError (KPair video_segment_name count))
                        (video_seg_frame_path self !! (video_segment_name, count)));
         frame_paths_append path
       else mret tt);;
      read_rows video_segment_name caption kf (count + 1) rest
  end.

(** The body of the loop over the files of a folder, lines 82 to 103. *)
Definition load_feature_file (fs : FileSystem) (root file : string) : method unit :=
  if negb (endswith file ".txt") then mret tt
  else
    let file_path := path_join root file in
    let video_segment_name := drop_last 4 file in
    lift (py_assert (14 <=? len video_segment_name));;
    let video_name := str_take 13 video_segment_name in
    segment_id ← lift (py_int (str_drop 13 video_segment_name));
    modify (fun self =>
      set_video_seg_feature_path
        (<[video_segment_name := file_path]> (video_seg_feature_path self)) self);;
    self ← get;
    caption ← lift (lookup_or (KeyError (KPair video_name segment_id))
                      (video_seg_id_to_caption self !! (video_name, segment_id)));
    f ← lift (open fs file_path);
    self ← get;
    kf ← lift (lookup_or (KeyError (KStr video_segment_name))
                 (key_frames self !! video_segment_name));
    read_rows video_segment_name caption kf 0 f.

Definition load_features (fs : FileSystem) (feature_folder : string) : method unit :=
  for_each (os_walk fs feature_folder) (fun '(root, folder, files) =>
    for_each (sorted files) (load_feature_file fs root));;
  modify (fun self => set_features (NdArray (rows_of (features self))) self).

Definition normalize_features : method unit :=
  self ← get;
  normalized ← lift (normalize (rows_of (features self)));
  modify (set_features (NdArray normalized)).

(** One round of the scan of the cosine query, lines 116 to 122. *)
Definition cosine_round (query_feature : list Q) (st : list xfloat * list Z)
    (i : nat) (feature : list Q) : result (list xfloat * list Z) :=
  let '(k_max_similarities, k_best_indices) := st in
  similarity ← np_dot feature query_feature;
  py_assert (Qle_bool (- (101 # 100)) similarity);;
  py_assert (Qle_bool similarity (101 # 100));;
  idx_min ← np_argmin k_max_similarities;
  least ← np_getitem k_max_similarities idx_min;
  if xltb least (Fin similarity)
  then OK (<[idx_min := Fin similarity]> k_max_similarities,
           <[idx_min := Z.of_nat i]> k_best_indices)
  else OK st.

Definition cosine_query (self : DataManager) (query_feature : list (list Q)) (k : Z)
    : result (list string * list string * list xfloat) :=
  let k_max_similarities := replicate (Z.to_nat k) (Fin (-1)) in
  let k_best_indices := replicate (Z.to_nat k) (-1)%Z in
  normalized ← normalize query_feature;
  query_feature ← np_getitem normalized 0;
  '(k_max_similarities, k_best_indices) ←
    for_enumerate (cosine_round query_feature) 0 (rows_of (features self))
      (k_max_similarities, k_best_indices);
  let args_sort := reverse (np_argsort k_max_similarities) in
  k_max_similarities ← np_take k_max_similarities args_sort;
  k_best_indices ← np_take k_best_indices args_sort;
  captions ← comprehension (py_getitem (captions self)) k_best_indices;
  frame_paths ← comprehension (py_getitem (frame_paths self)) k_best_indices;
  OK (captions, frame_paths, k_max_similarities).

Definition query_knn_caption_brutal_force_cosine_similarity
    (query_feature : list (list Q)) (k : Z)
    : method (list string * list string * list xfloat) :=
  fun self => (cosine_query self query_feature k, self).

(** One round of the scan of the Euclidean query, lines 134 to 138. *)
Definition euclidean_round (query_feature : list Q) (st : list xfloat * list Z)
    (i : nat) (feature : list Q) : result (list xfloat * list Z) :=
  let '(k_min_distances, k_best_indices) := st in
  difference ← np_sub feature query_feature;
  let distance := np_norm difference in
  idx_max ← np_argmax k_min_distances;
  greatest ← np_getitem k_min_distances idx_max;
  if xltb distance greatest
  then OK (<[idx_max := distance]> k_min_distances,
           <[idx_max := Z.of_nat i]> k_best_indices)
  else OK st.

Definition euclidean_query (self : DataManager) (query_feature : list Q) (k : Z)
    : result (list string * list string * list xfloat) :=
  let k_min_distances := replicate (Z.to_nat k) PInf in
  let k_best_indices := replicate (Z.to_nat k) (-1)%Z in
  '(k_min_distances, k_best_indices) ←
    for_enumerate (euclidean_round query_feature) 0 (rows_of (features self))
      (k_min_distances, k_best_indices);
  let args_sort := np_argsort k_min_distances in
  k_min_distances ← np_take k_min_distances args_sort;
  k_best_indices ← np_take k_best_indices args_sort;
  captions ← comprehension (py_getitem (captions self)) k_best_indices;
  frame_paths ← comprehension (py_getitem (frame_paths self)) k_best_indices;
  OK (captions, frame_paths, k_min_distances).

Definition query_knn_caption_brutal_force_euclidean_distance
    (query_feature : list Q) (k : Z)
    : method (list string * list string * list xfloat) :=
  fun self => (euclidean_query self query_feature k, self).
End Methods.

(** ** An executable instance of the external functions

    Used to evaluate the methods on concrete inputs: the norm is the
    square root of the sum of the squares, or [np.inf] when that sum is
    2^1024 or more (beyond the largest float); the square root is the
    integer square root of numerator times denominator over the denominator
    (exact on the squares of rationals); [argsort] is an insertion sort
    that keeps equal keys in their order, and [float] reads integer
    literals. *)

Module Exact.
Definition sqrt (x : Q) : Q := Z.sqrt (Qnum x * Zpos (Qden x)) # Qden x.

Definition overflows (x : Q) : bool := Qle_bool (inject_Z (2 ^ 1024)) x.

Definition norm (v : list Q) : xfloat :=
  if overflows (sum_squares v) then PInf else Fin (sqrt (sum_squares v)).

Fixpoint insert_key (p : xfloat * nat) (l : list (xfloat * nat)) : list (xfloat * nat) :=
  match l with
  | [] => [p]
  | h :: t => if xleb p.1 h.1 then p :: l else h :: insert_key p t
  end.

Definition sort_keys (l : list (xfloat * nat)) : list (xfloat * nat) :=
  foldr insert_key [] l.

Definition argsort (a : list xfloat) : list nat :=
  (sort_keys (zip a (seq 0 (length a)))).*2.

Definition float (s : string) : option Q :=
  match py_int s with
  | OK n => Some (inject_Z n)
  | Raise _ => None
  end.

#[export] Instance externals : Externals := {|
  np_norm := norm;
  np_argsort := argsort;
  py_float := float;
|}.
End Exact.

(** ** Predicates of the statements *)

(** A slot of [k_best_indices] holds -1 or the position of a record. *)
Definition slot_index (n : nat) (z : Z) : Prop :=
  (z = -1 \/ 0 <= z < Z.of_nat n)%Z.

(** The working set of a scan over [n] records with [k] slots, every
    score of which satisfies [P]. *)
Definition working_set (P : xfloat -> Prop) (k n : nat)
    (st : list xfloat * list Z) : Prop :=
  length st.1 = k /\ length st.2 = k /\
  Forall P st.1 /\ Forall (slot_index n) st.2.


Definition non_decreasing (l : list xfloat) : Prop := Sorted xle l.

(** ** What corpus assembly is expected to add *)

(** The frame numbers from [count] on, [n] of them. *)
Fixpoint frame_numbers (count : Z) (n : nat) : gset Z :=
  match n with
  | O => ∅
  | S n' => {[count]} ∪ frame_numbers (count + 1) n'
  end.

(** The frames of a feature file that have an extracted vector: one per
    line, numbered from 0. *)
Definition frames_with_vector (f : list string) : gset Z :=
  frame_numbers 0 (length f).

(** The records one file of the walk stands for: the key frames of its
    segment that have a vector. *)
Definition segment_records (fs : FileSystem) (self : DataManager)
    (root file : string) : nat :=
  if endswith file ".txt" then
    size (default ∅ (key_frames self !! drop_last 4 file) ∩
          frames_with_vector (default [] (file_lines fs !! path_join root file)))
  else 0.

(** The files the two loops of [load_features] visit, in their order. *)
Definition visited (fs : FileSystem) (feature_folder : string) : list (string * string) :=
  '(root, _, files) ← os_walk fs feature_folder;
  file ← sorted files;
  [(root, file)].

Definition expected_records (fs : FileSystem) (feature_folder : string)
    (self : DataManager) : nat :=
  sum_list ((fun '(root, file) => segment_records fs self root file)
              <$> visited fs feature_folder).

(** The stores that [load_features] only reads. *)
Definition same_stores (self self' : DataManager) : Prop :=
  video_seg_id_to_caption self' = video_seg_id_to_caption self /\
  video_seg_frame_path self' = video_seg_frame_path self /\
  key_frames self' = key_frames self.

(** [self'] is [self] with [m] more records in each corpus sequence. *)
Definition grows_by (m : nat) (self self' : DataManager) : Prop :=
  length (rows_of (features self')) = length (rows_of (features self)) + m /\
  length (captions self') = length (captions self) + m /\
  length (frame_paths self') = length (frame_paths self) + m /\
  same_stores self self'.

(** The lines of a feature file, numbered from [count], that are key
    frames: the rounds of the loop of [read_rows] that append a record. *)
Fixpoint key_rows (kf : gset Z) (count : Z) (f : list string) : nat :=
  match f with
  | [] => 0
  | _ :: rest => (if bool_decide (count ∈ kf) then 1 else 0) + key_rows kf (count + 1) rest
  end.

(** ** Concrete states *)

(** A state whose corpus is the given three sequences, the stores empty. *)
Definition corpus (rows : list (list Q)) (caps paths : list string) : DataManager :=
  set_frame_paths paths (set_captions caps (set_features (NdArray rows) init)).

(** Three unit vectors, the third one approximately. *)
Definition three_vectors : DataManager :=
  corpus [[1; 0]; [0; 1]; [707 # 1000; 707 # 1000]]%Q
         ["a"; "b"; "c"] ["a/1.jpg"; "b/1.jpg"; "c/1.jpg"].


(** Two records opposite to the query [[1, 0]]. *)
Definition opposite_vectors : DataManager :=
  corpus [[-1; 0]; [-1; 0]]%Q ["a"; "b"] ["a/1.jpg"; "b/1.jpg"].

(** Two records, the first beyond the range in which the square of a
    float is a float. *)
Definition distant_vector : DataManager :=
  corpus [[inject_Z (10 ^ 200); 0]; [1; 0]]%Q ["a"; "b"] ["a/1.jpg"; "b/1.jpg"].

(** Two records. *)
Definition two_vectors : DataManager :=
  corpus [[1; 0]; [0; 1]]%Q ["a"; "b"] ["a/1.jpg"; "b/1.jpg"].

(** [three_vectors] with another feature-path store: the same corpus. *)
Definition three_vectors_indexed : DataManager :=
  set_video_seg_feature_path
    {[ "v_QOlSCBRmfWY0" := "features/v_QOlSCBRmfWY0.txt" ]} three_vectors.

(** ** A feature folder with one segment of three frames *)

Definition one_segment : FileSystem := {|
  os_walk := fun folder => [(folder, [], ["notes.md"; "v_QOlSCBRmfWY0.txt"])];
  file_lines := {[ "features/v_QOlSCBRmfWY0.txt" := ["1,0"; "0,1"; "1,1"] ]};
|}.

(** The stores before assembly: the caption of the segment, its key frames
    0, 2 and 7, and the path of every frame image. *)
Definition stores_loaded : DataManager := {|
  video_seg_id_to_caption := {[ ("v_QOlSCBRmfWY", 0%Z) := "a man plays" ]};
  video_seg_frame_path :=
    {[ ("v_QOlSCBRmfWY0", 0%Z) := "frames/v_QOlSCBRmfWY0/1.jpg";
       ("v_QOlSCBRmfWY0", 1%Z) := "frames/v_QOlSCBRmfWY0/2.jpg";
       ("v_QOlSCBRmfWY0", 2%Z) := "frames/v_QOlSCBRmfWY0/3.jpg" ]};
  features := PyList [];
  captions := [];
  raw_captions := ["a man plays"];
  frame_paths := [];
  video_seg_feature_path := ∅;
  key_frames := {[ "v_QOlSCBRmfWY0" := {[ 0%Z; 2%Z; 7%Z ]} ]};
|}.

(** The same, the frame images not crawled. *)
Definition frame_paths_missing : DataManager := {|
  video_seg_id_to_caption := video_seg_id_to_caption stores_loaded;
  video_seg_frame_path := ∅;
  features := PyList [];
  captions := [];
  raw_captions := raw_captions stores_loaded;
  frame_paths := [];
  video_seg_feature_path := ∅;
  key_frames := key_frames stores_loaded;
|}.

(** The same, the caption database empty. *)
Definition captions_missing : DataManager := {|
  video_seg_id_to_caption := ∅;
  video_seg_frame_path := video_seg_frame_path stores_loaded;
  features := PyList [];
  captions := [];
  raw_captions := [];
  frame_paths := [];
  video_seg_feature_path := ∅;
  key_frames := key_frames stores_loaded;
|}.

(** ** The loaders of the stores and the accessors *)

Definition set_video_seg_id_to_caption (m : gmap (string * Z) string)
    (self : DataManager) : DataManager :=
  {| video_seg_id_to_caption := m;
     video_seg_frame_path := video_seg_frame_path self;
     features := features self;
     captions := captions self;
     raw_captions := raw_captions self;
     frame_paths := frame_paths self;
     video_seg_feature_path := video_seg_feature_path self;
     key_frames := key_frames self |}.

Definition set_video_seg_frame_path (m : gmap (string * Z) string)
    (self : DataManager) : DataManager :=
  {| video_seg_id_to_caption := video_seg_id_to_caption self;
     video_seg_frame_path := m;
     features := features self;
     captions := captions self;
     raw_captions := raw_captions self;
     frame_paths := frame_paths self;
     video_seg_feature_path := video_seg_feature_path self;
     key_frames := key_frames self |}.

Definition set_raw_captions (c : list string) (self : DataManager) : DataManager :=
  {| video_seg_id_to_caption := video_seg_id_to_caption self;
     video_seg_frame_path := video_seg_frame_path self;
     features := features self;
     captions := captions self;
     raw_captions := c;
     frame_paths := frame_paths self;
     video_seg_feature_path := video_seg_feature_path self;
     key_frames := key_frames self |}.

Definition set_key_frames (m : gmap string (gset Z)) (self : DataManager) : DataManager :=
  {| video_seg_id_to_caption := video_seg_id_to_caption self;
     video_seg_frame_path := video_seg_frame_path self;
     features := features self;
     captions := captions self;
     raw_captions := raw_captions self;
     frame_paths := frame_paths self;
     video_seg_feature_path := video_seg_feature_path self;
     key_frames := m |}.

(** The body of the loop of [load_frame_path_info], lines 42 to 48. *)
Definition load_frame_file (root file : string) : method unit :=
  if negb (endswith file ".jpg") then mret tt
  else
    let file_path := path_join root file in
    video_segment_name ← lift (py_getitem (split "/"%char (chars file_path)) (-2));
    stem ← lift (py_getitem (split "."%char (chars file)) 0);
    number ← lift (py_int (str stem));
    let frame_number := (number - 1)%Z in
    modify (fun self =>
      set_video_seg_frame_path
        (<[(str video_segment_name, frame_number) := file_path]>
           (video_seg_frame_path self)) self).

Definition load_frame_path_info (fs : FileSystem) (frame_folder : string) : method unit :=
  for_each (os_walk fs frame_folder) (fun '(root, _, files) =>
    for_each (sorted files) (load_frame_file root)).

(** The caption database as [json.load] returns it: the video names in the
    order [database.keys()] gives them, each with the value of its entry
    ['sentences'], if it has one. *)
Definition database : Type := list (string * option (list string)).

(** The body of the loop of [load_captions], lines 55 to 59. *)
Definition load_video_captions (video_name : string) (data : option (list string))
    : method unit :=
  sentences ← lift (lookup_or (KeyError (KStr "sentences")) data);
  modify (fun self => set_raw_captions (raw_captions self ++ sentences) self);;
  for_each (seq 0 (length sentences)) (fun seg_id =>
    sentence ← lift (lookup_or IndexError (sentences !! seg_id));
    modify (fun self =>
      set_video_seg_id_to_caption
        (<[(video_name, Z.of_nat seg_id) := sentence]> (video_seg_id_to_caption self))
        self)).

(** [json_files] holds, for the path of a JSON file, what [json.load]
    makes of it. *)
Definition load_captions (json_files : gmap string database) (caption_file : string)
    : method unit :=
  db ← lift (lookup_or IOError (json_files !! caption_file));
  for_each db (fun '(video_name, data) => load_video_captions video_name data).

(** The body of the loop of [load_key_frame_information], lines 66 to 76.
    [tables] holds, for the path of a key-frame file, the integers that
    lines 72 to 75 make of it ([np.int32(np.loadtxt(path))], a single
    number wrapped into an array), or the error they raise. *)
Definition load_key_frame_file (tables : gmap string (result (list Z)))
    (root file : string) : method unit :=
  if negb (endswith file ".txt") then mret tt
  else
    let file_path := path_join root file in
    let video_segment_name := drop_last 4 file in
    lift (py_assert (14 <=? len video_segment_name));;
    table ← lift (lookup_or IOError (tables !! file_path));
    data ← lift table;
    let key_frames_of_file : gset Z := list_to_set data in
    modify (fun self =>
      set_key_frames (<[video_segment_name := key_frames_of_file]> (key_frames self)) self).

Definition load_key_frame_information (fs : FileSystem)
    (tables : gmap string (result (list Z))) (keyframe_info_folder : string)
    : method unit :=
  for_each (os_walk fs keyframe_info_folder) (fun '(root, _, files) =>
    for_each (sorted files) (load_key_frame_file tables root)).

(** [get_frames_path]: the frame paths of the key frames of a segment.
    Python does not fix the order in which [list(a_set)] lists a set; the
    model lists it as [elements] does. *)
Definition get_frames_path (video_segment_name : string) : method (list string) :=
  fun self =>
    (kf ← lookup_or (KeyError (KStr video_segment_name))
           (key_frames self !! video_segment_name);
     comprehension
       (fun key_frame =>
          lookup_or (KeyError (KPair video_segment_name key_frame))
            (video_seg_frame_path self !! (video_segment_name, key_frame)))
       (elements kf),
     self).

Section Accessors.
Context `{Externals}.

(** The loop of [get_frames_features], lines 156 to 161. *)
Fixpoint frame_features_loop (kf : gset Z) (count : Z) (f : list string)
    (frame_features : list (list Q)) : result (list (list Q)) :=
  match f with
  | [] => OK frame_features
  | line :: rest =>
      if bool_decide (count ∈ kf) then
        fields ← parse_feature line;
        frame_features_loop kf (count + 1) rest (frame_features ++ [fields])
      else frame_features_loop kf (count + 1) rest frame_features
  end.

Definition get_frames_features (fs : FileSystem) (video_segment_name : string)
    : method (list (list Q)) :=
  fun self =>
    (kf ← lookup_or (KeyError (KStr video_segment_name))
           (key_frames self !! video_segment_name);
     feature_file ← lookup_or (KeyError (KStr video_segment_name))
                      (video_seg_feature_path self !! video_segment_name);
     f ← open fs feature_file;
     frame_features_loop kf 0 f [],
     self).
End Accessors.

Definition get_video_segment_caption (video_segment_name : string) : method string :=
  fun self =>
    (segment_id ← py_int (str_drop 13 video_segment_name);
     let key := (str_take 13 video_segment_name, segment_id) in
     lookup_or (KeyError (KPair key.1 key.2)) (video_seg_id_to_caption self !! key),
     self).

(** ** Predicates of the further statements *)

(** The distance of record [i] to a query vector, where numpy can take
    the difference and the norm of the difference is a number. *)
Definition record_distance `{Externals} (self : DataManager) (query_feature : list Q)
    (i : nat) : option Q :=
  feature ← rows_of (features self) !! i;
  match np_sub feature query_feature with
  | OK difference =>
      match np_norm difference with
      | Fin distance => Some distance
      | PInf => None
      end
  | Raise _ => None
  end.

(** The norm of the difference of a record and the query is a number: it
    has not overflowed to [np.inf]. *)
Definition finite_distance `{Externals} (query_feature feature : list Q) : Prop :=
  exists difference distance,
    np_sub feature query_feature = OK difference /\
    np_norm difference = Fin distance.


(** The working set [st] holds the best [k] of the records before [j]:
    a slot is at its initial value or holds a record and its score, no
    record is held twice, and a record that is not held is no better than
    any slot ([R x y]: [x] is at least as good as [y]). *)
Definition best_so_far (R : relation xfloat) (sentinel : xfloat)
    (score : nat -> option Q) (k j : nat) (st : list xfloat * list Z) : Prop :=
  length st.1 = k /\ length st.2 = k /\
  (forall s z x, st.2 !! s = Some z -> st.1 !! s = Some x ->
     (z = (-1)%Z /\ x = sentinel) \/
     (exists i v, z = Z.of_nat i /\ i < j /\ score i = Some v /\ x = Fin v)) /\
  (forall s s' z, (0 <= z)%Z -> st.2 !! s = Some z -> st.2 !! s' = Some z -> s = s') /\
  (forall i v x, i < j -> score i = Some v -> Z.of_nat i ∉ st.2 -> x ∈ st.1 ->
     R x (Fin v)).

(** Entry [p] of a query result is record [i] with score [v]. *)
Definition answers (self : DataManager)
    (result : list string * list string * list xfloat) (p i : nat) (v : Q) : Prop :=
  result.2 !! p = Some (Fin v) /\
  is_Some (captions self !! i) /\
  result.1.1 !! p = captions self !! i /\
  result.1.2 !! p = frame_paths self !! i.

(** A record of the corpus that stands for a key frame of a feature file:
    the vector parsed from the line of that number, the caption of the
    segment and the path of the frame image. *)
Definition key_frame_record `{Externals} (fs : FileSystem) (self : DataManager)
    (root file : string) (rec : list Q * string * string) : Prop :=
  let video_segment_name := drop_last 4 file in
  endswith file ".txt" = true /\
  exists segment_id kf f count line,
    py_int (str_drop 13 video_segment_name) = OK segment_id /\
    video_seg_id_to_caption self !! (str_take 13 video_segment_name, segment_id)
      = Some rec.1.2 /\
    key_frames self !! video_segment_name = Some kf /\
    count ∈ kf /\ (0 <= count)%Z /\
    file_lines fs !! path_join root file = Some f /\
    f !! Z.to_nat count = Some line /\
    parse_feature line = OK rec.1.1 /\
    video_seg_frame_path self !! (video_segment_name, count) = Some rec.2.

(** [self'] is [self] with the records [recs] appended, the stores that
    [load_features] reads as they were. *)
Definition appends (recs : list (list Q * string * string))
    (self self' : DataManager) : Prop :=
  rows_of (features self') = rows_of (features self) ++ recs.*1.*1 /\
  captions self' = captions self ++ recs.*1.*2 /\
  frame_paths self' = frame_paths self ++ recs.*2 /\
  same_stores self self'.

(** The vectors [rows] are those of the records that a feature file of
    the segment [seg] has contributed to the corpus: the file is one of
    [l], [self'] is [self] with records appended, and [rows] are the
    vectors of a run of these records, which are as many as the key frames
    of the segment that number a line of the file, each of them standing
    for such a key frame. *)
Definition reads_back `{Externals} (fs : FileSystem) (l : list (string * string))
    (self self' : DataManager) (seg : string) (rows : list (list Q)) : Prop :=
  exists root file before recs after,
    (root, file) ∈ l /\
    endswith file ".txt" = true /\ drop_last 4 file = seg /\
    appends (before ++ recs ++ after) self self' /\
    rows = recs.*1.*1 /\
    length recs = segment_records fs self root file /\
    Forall (key_frame_record fs self root file) recs.

(** What any run of [load_features], returning or raising, keeps: the
    records that were there, in place; features and captions of one
    length; the stores it reads. *)
Definition keeps_corpus (self self' : DataManager) : Prop :=
  rows_of (features self) `prefix_of` rows_of (features self') /\
  captions self `prefix_of` captions self' /\
  frame_paths self `prefix_of` frame_paths self' /\
  same_stores self self' /\
  raw_captions self' = raw_captions self.

(** The three corpus sequences are the same in two states. *)
Definition same_corpus (self self' : DataManager) : Prop :=
  features self' = features self /\
  captions self' = captions self /\
  frame_paths self' = frame_paths self.

(** ** Further concrete inputs *)

(** A frame folder with two segments. *)
Definition two_segments_frames : FileSystem := {|
  os_walk := fun folder =>
    [(folder, ["v_QOlSCBRmfWY0"; "v_QOlSCBRmfWY1"], ["readme.txt"]);
     (folder +:+ "/v_QOlSCBRmfWY0", [], ["2.jpg"; "1.jpg"; "3.jpg"; "thumbs.db"]);
     (folder +:+ "/v_QOlSCBRmfWY1", [], ["1.jpg"])];
  file_lines := ∅;
|}.

(** A caption database with two videos. *)
Definition two_videos : gmap string database :=
  {[ "captions.json" :=
       [("v_QOlSCBRmfWY", Some ["a man plays"; "he stops"]);
        ("v_ehGHCYKzyZ8", Some ["a dog runs"])] ]}.


Definition one_segment_tables : gmap string (result (list Z)) :=
  {[ "keyframes/v_QOlSCBRmfWY0.txt" := OK [0; 2; 7; 2]%Z ]}.


(** The outcome [r] of corpus assembly is the [KeyError] of the lookup of
    a frame path, line 102: the key is a pair that the store of the frame
    paths does not hold, and its first component has the 14 characters or
    more of a segment name.  (The other lookup of a pair, that of the
    caption on line 92, has a video name of at most 13 characters as the
    first component of its key.) *)
Definition frame_path_missing (self : DataManager) (r : result unit) : Prop :=
  exists seg count,
    r = Raise (KeyError (KPair seg count)) /\
    14 <= len seg /\
    video_seg_frame_path self !! (seg, count) = None.

(** What a run of corpus assembly leaves behind, whatever its outcome
    [r]: the records held before stay where they are, the stores that
    assembly reads stay as they are, and the same number [m] of vectors and
    captions has been added; the frame paths have grown by [m] too, unless
    the run stopped at the lookup of a frame path that is not stored: then
    they are one short. *)
Definition assembly_outcome (r : result unit) (self self' : DataManager) : Prop :=
  keeps_corpus self self' /\
  exists m,
    length (rows_of (features self')) = length (rows_of (features self)) + m /\
    length (captions self') = length (captions self) + m /\
    ((~ frame_path_missing self r /\
      length (frame_paths self') = length (frame_paths self) + m) \/
     (frame_path_missing self r /\
      S (length (frame_paths self')) = length (frame_paths self) + m)).

(** The corpus a first [load_features] leaves on [one_segment]. *)
Definition corpus_assembled : DataManager :=
  (@load_features Exact.externals one_segment "features" stores_loaded).2.

(** The attributes that [load_captions] leaves alone. *)
Definition keeps_but_captions (self self' : DataManager) : Prop :=
  video_seg_frame_path self' = video_seg_frame_path self /\
  features self' = features self /\
  captions self' = captions self /\
  frame_paths self' = frame_paths self /\
  video_seg_feature_path self' = video_seg_feature_path self /\
  key_frames self' = key_frames self.

(** A database every video of which has its sentences. *)
Definition complete_database (db : list (string * list string)) : database :=
  prod_map id Some <$> db.

(** The videos of [two_videos] with their sentences. *)
Definition two_videos_sentences : list (string * list string) :=
  [("v_QOlSCBRmfWY", ["a man plays"; "he stops"]);
   ("v_ehGHCYKzyZ8", ["a dog runs"])].

(** A caption database whose second video has no sentences. *)
Definition sentences_missing : gmap string database :=
  {[ "captions.json" :=
       [("v_QOlSCBRmfWY", Some ["a man plays"; "he stops"]);
        ("v_ehGHCYKzyZ8", None);
        ("v_3l7quTy4c2s", Some ["a girl sings"])] ]}.

(** The attributes that [load_frame_path_info] leaves alone. *)
Definition keeps_but_frame_path_store (self self' : DataManager) : Prop :=
  video_seg_id_to_caption self' = video_seg_id_to_caption self /\
  features self' = features self /\
  captions self' = captions self /\
  raw_captions self' = raw_captions self /\
  frame_paths self' = frame_paths self /\
  video_seg_feature_path self' = video_seg_feature_path self /\
  key_frames self' = key_frames self.

(** The attributes that [load_key_frame_information] leaves alone. *)
Definition keeps_but_key_frames (self self' : DataManager) : Prop :=
  video_seg_id_to_caption self' = video_seg_id_to_caption self /\
  video_seg_frame_path self' = video_seg_frame_path self /\
  features self' = features self /\
  captions self' = captions self /\
  raw_captions self' = raw_captions self /\
  frame_paths self' = frame_paths self /\
  video_seg_feature_path self' = video_seg_feature_path self.

(** A .jpg file as [load_frame_path_info] reads its path: the file [file]
    of the folder [root] belongs to the segment [seg], the last component
    of [root], and [stem] is its name up to the first dot. *)
Definition frame_file (root file : string) (seg stem : list ascii) : Prop :=
  root <> "" /\ endswith root "/" = false /\
  last (split "/"%char (chars root)) = Some seg /\
  ("/"%char ∉ chars file) /\
  endswith file ".jpg" = true /\
  exists ext, chars file = stem ++ "."%char :: ext /\ ("."%char ∉ stem).

(** The image of the frame [number], counted from one, of the segment
    [seg]. *)
Definition frame_image (root file : string) (seg : list ascii) (number : Z) : Prop :=
  exists stem, frame_file root file seg stem /\ py_int (str stem) = OK number.

(** The file [file] of the folder [root] is one that
    [load_frame_path_info] stores under [key]: whatever the state, the
    body of its loop returns and writes the path of the file at [key]. *)
Definition registers (root file : string) (key : string * Z) : Prop :=
  forall self,
    load_frame_file root file self =
    (OK tt,
     set_video_seg_frame_path
       (<[key := path_join root file]> (video_seg_frame_path self)) self).

(** The stores hold all that [load_features] asks for on the file [file]
    of the folder [root]: a file that is not a .txt file asks for nothing;
    for a .txt file the name of the segment has 14 characters or more and
    a number after the 13th, the segment has a caption and key frames, the
    file can be read, and every line whose number is a key frame is a
    vector and has a stored frame path. *)
Definition loadable `{Externals} (fs : FileSystem) (self : DataManager)
    (root file : string) : Prop :=
  endswith file ".txt" = true ->
  let video_segment_name := drop_last 4 file in
  14 <= len video_segment_name /\
  exists segment_id f kf,
    py_int (str_drop 13 video_segment_name) = OK segment_id /\
    is_Some (video_seg_id_to_caption self
               !! (str_take 13 video_segment_name, segment_id)) /\
    file_lines fs !! path_join root file = Some f /\
    key_frames self !! video_segment_name = Some kf /\
    forall i line, f !! i = Some line -> Z.of_nat i ∈ kf ->
      is_OK (parse_feature line) /\
      is_Some (video_seg_frame_path self !! (video_segment_name, Z.of_nat i)).


(** A folder of frames with a file that is not numbered. *)
Definition unnumbered_frame : FileSystem := {|
  os_walk := fun folder =>
    [(folder +:+ "/v_QOlSCBRmfWY0", [], ["1.jpg"; "cover.jpg"; "2.jpg"])];
  file_lines := ∅;
|}.

(** A folder with a .txt file whose name is too short for a segment. *)
Definition short_name : FileSystem := {|
  os_walk := fun folder => [(folder, [], ["README.txt"; "v_QOlSCBRmfWY0.txt"])];
  file_lines := {[ "features/README.txt" := ["see the wiki"];
                   "features/v_QOlSCBRmfWY0.txt" := ["1,0"; "0,1"; "1,1"] ]};
|}.

(** ** Predicates of the statement on normalization *)

(** [s] is the square root of [x] within the relative error [eps]; with
    [eps] zero it is the square root of [x]. *)
Definition accurate (eps x s : Q) : Prop :=
  (0 <= s /\ (1 - eps) * (1 - eps) * x <= s * s /\
   s * s <= (1 + eps) * (1 + eps) * x)%Q.

(** The norm of [v] is a number, and it is the root of the sum of the
    squares of [v] within [eps]. *)
Definition norm_accurate `{Externals} (eps : Q) (v : list Q) : Prop :=
  exists s, np_norm v = Fin s /\ accurate eps (sum_squares v) s.

(** [n] is one within [eps]: between (1 - eps) / (1 + eps) and
    (1 + eps) / (1 - eps). *)
Definition near_one (eps n : Q) : Prop :=
  (1 - eps <= (1 + eps) * n /\ (1 - eps) * n <= 1 + eps)%Q.

(** A vector of norm one within [eps], or of norm zero. *)
Definition unit_norm `{Externals} (eps : Q) (v : list Q) : Prop :=
  exists s, np_norm v = Fin s /\ (s == 0 \/ near_one eps s)%Q.

(** [x'] is [x] divided by a number that is one within [eps]. *)
Definition close (eps x x' : Q) : Prop :=
  exists n, near_one eps n /\ x' = (x / n)%Q.

(** The attributes that [normalize_features] leaves alone. *)
Definition keeps_but_features (self self' : DataManager) : Prop :=
  captions self' = captions self /\ frame_paths self' = frame_paths self /\
  raw_captions self' = raw_captions self /\
  video_seg_feature_path self' = video_seg_feature_path self /\
  same_stores self self'.

(** A corpus of three vectors of norm one or zero. *)
Definition unit_vectors : DataManager :=
  corpus [[3 # 5; 4 # 5]; [1; 0]; [0; 0]]%Q
         ["a"; "b"; "c"] ["a/1.jpg"; "b/1.jpg"; "c/1.jpg"].

(** * Properties *)

(** ** Results and comprehensions *)

Lemma bind_OK {A B} (m : result A) (f : A -> result B) (b : B) :
  m ≫= f = OK b <-> exists a, m = OK a /\ f a = OK b.
Proof.
  destruct m as [a|e]; simpl; split.
  - intros Hf. by exists a.
  - by intros (a' & [= <-] & Hf).
  - done.
  - by intros (a' & [=] & _).
Qed.

Lemma comprehension_OK {A B} (f : A -> result B) (l : list A) (l' : list B) :
  comprehension f l = OK l' <-> Forall2 (fun x y => f x = OK y) l l'.
Proof.
  revert l'. induction l as [|x l IH]; intros l'; simpl.
  - split; [intros [= <-]; constructor | by inversion 1].
  - split.
    + intros (y & Hy & (ys & Hys & [= <-])%bind_OK)%bind_OK.
      constructor; [done | by apply IH].
    + inversion 1 as [|? y ? ys Hy Hys]; subst.
      apply bind_OK. exists y. split; [done|].
      apply bind_OK. exists ys. split; [by apply IH | done].
Qed.

Lemma comprehension_total {A B} (f : A -> result B) (l : list A) :
  Forall (fun x => is_OK (f x)) l -> exists l', comprehension f l = OK l'.
Proof.
  induction 1 as [|x l Hx _ [l' IH]]; simpl; [by eexists|].
  destruct (f x) as [y|]; [|done]. simpl. rewrite IH. by eexists.
Qed.

Lemma comprehension_Raise {A B} (f : A -> result B) (l : list A) (e : exn) :
  comprehension f l = Raise e -> exists x, x ∈ l /\ f x = Raise e.
Proof.
  induction l as [|x l IH]; simpl; [done|].
  destruct (f x) as [y|e'] eqn:Hx; simpl.
  - destruct (comprehension f l) as [ys|e'']; simpl; [done|].
    intros [= ->]. destruct IH as (x' & Hin & Hx'); [done|].
    exists x'. split; [by right | done].
  - intros [= ->]. exists x. split; [left | done].
Qed.

(** ** The order on floats *)

Global Instance xle_refl : Reflexive xle.
Proof. intros [q|]; simpl; [apply Qle_refl | done]. Qed.

Global Instance xle_trans : Transitive xle.
Proof.
  intros [x|] [y|] [z|]; simpl; try done. apply Qle_trans.
Qed.

Lemma Qltb_lt (x y : Q) : Qltb x y = true <-> (x < y)%Q.
Proof.
  unfold Qltb. rewrite negb_true_iff, <- not_true_iff_false, Qle_bool_iff.
  split; [apply Qnot_le_lt | apply Qlt_not_le].
Qed.

Lemma xleb_le (a b : xfloat) : xleb a b = true <-> xle a b.
Proof.
  unfold xleb. destruct a as [x|], b as [y|]; simpl; try done.
  unfold Qltb. rewrite negb_involutive. apply Qle_bool_iff.
Qed.

Lemma xleb_total (a b : xfloat) : xleb a b = false -> xle b a.
Proof.
  destruct a as [x|], b as [y|]; simpl; try done.
  unfold xleb; simpl. rewrite negb_false_iff, Qltb_lt. apply Qlt_le_weak.
Qed.

(** ** Positions *)

Lemma StronglySorted_lookup {A} (R : relation A) (l : list A) :
  (forall i j x y, i < j -> l !! i = Some x -> l !! j = Some y -> R x y) ->
  StronglySorted R l.
Proof.
  induction l as [|a l IH]; intros Hl; constructor.
  - apply IH. intros i j x y Hij Hi Hj. by apply (Hl (S i) (S j)); [lia|..].
  - apply Forall_lookup. intros j y Hj. by apply (Hl 0 (S j)); [lia|..].
Qed.

Section Numpy_facts.
Context `{Externals}.


Lemma argmax_from_lt (a : list xfloat) (best_i : nat) (best : xfloat) (i : nat) :
  best_i < i -> argmax_from best_i best i a < i + length a.
Proof.
  revert best_i best i. induction a as [|x a IH]; intros best_i best i Hi; simpl.
  - lia.
  - destruct (xltb best x).
    + specialize (IH i x (S i)). lia.
    + specialize (IH best_i best (S i)). lia.
Qed.


Lemma np_argmax_OK (a : list xfloat) :
  0 < length a -> exists j, np_argmax a = OK j /\ j < length a.
Proof.
  destruct a as [|x a]; simpl; [lia|]. intros _. eexists. split; [done|].
  pose proof (argmax_from_lt a 0 x 1). lia.
Qed.

Lemma np_getitem_OK {A} (a : list A) (i : nat) :
  i < length a -> exists x, np_getitem a i = OK x /\ a !! i = Some x.
Proof.
  intros [x Hx]%lookup_lt_is_Some. exists x. unfold np_getitem. by rewrite Hx.
Qed.

Lemma np_take_OK {A} (a : list A) (idx : list nat) (l : list A) :
  np_take a idx = OK l <-> Forall2 (fun j x => a !! j = Some x) idx l.
Proof.
  unfold np_take. rewrite comprehension_OK.
  split; intros HF; (eapply Forall2_impl; [exact HF|]); intros j x;
    unfold np_getitem; destruct (a !! j); simpl; congruence.
Qed.
End Numpy_facts.

Section Scan_facts.
Context `{Externals}.

Lemma for_enumerate_OK {St A} (P : nat -> St -> Prop)
    (body : St -> nat -> A -> result St) (l : list A) (i0 : nat) (st : St) :
  P i0 st ->
  (forall st j x, P (i0 + j) st -> l !! j = Some x ->
     exists st', body st (i0 + j) x = OK st' /\ P (S (i0 + j)) st') ->
  exists st', for_enumerate body i0 l st = OK st' /\ P (i0 + length l) st'.
Proof.
  revert i0 st. induction l as [|x l IH]; intros i0 st HP Hbody; simpl.
  - rewrite Nat.add_0_r. eauto.
  - destruct (Hbody st 0 x) as (st1 & Hst1 & HP1); [by rewrite Nat.add_0_r | done |].
    rewrite Nat.add_0_r in Hst1, HP1. rewrite Hst1. simpl.
    rewrite Nat.add_succ_r. apply (IH (S i0)); [done|].
    intros st2 j y HP2 Hj. simpl in *.
    specialize (Hbody st2 (S j) y). rewrite Nat.add_succ_r in Hbody.
    by apply Hbody.
Qed.

Lemma working_set_replicate (P : xfloat -> Prop) (k n : nat) (x : xfloat) :
  P x -> working_set P k n (replicate k x, replicate k (-1)%Z).
Proof.
  intros HP. unfold working_set; simpl. rewrite !length_replicate.
  repeat split; apply Forall_replicate; [done | by left].
Qed.

Lemma working_set_insert (P : xfloat -> Prop) (k n j i : nat) (x : xfloat)
    (st : list xfloat * list Z) :
  working_set P k n st -> P x -> i < n ->
  working_set P k n (<[j := x]> st.1, <[j := Z.of_nat i]> st.2).
Proof.
  intros (Hl1 & Hl2 & HP & Hidx) Hx Hi. unfold working_set; simpl.
  rewrite !length_insert. repeat split; [done | done | |].
  - by apply Forall_insert.
  - apply Forall_insert; [done|]. right. lia.
Qed.


Lemma sub_same_length (a b : list Q) :
  length a = length b -> is_Some (sub_same a b).
Proof.
  revert b. induction a as [|x a IH]; intros [|y b] [=]; simpl; [done|].
  destruct (IH b) as [d ->]; [done|]. by eexists.
Qed.

Lemma np_sub_same_length (a b : list Q) :
  length a = length b -> exists d, np_sub a b = OK d.
Proof.
  intros [d Hd]%sub_same_length. unfold np_sub. rewrite Hd. by eexists.
Qed.

(** A round of the Euclidean scan keeps the working set in shape. *)
Lemma euclidean_round_OK `{!ExternalsSpec} (q : list Q) (st : list xfloat * list Z)
    (i : nat) (feature : list Q) (k n : nat) :
  0 < k -> i < n -> working_set (xle (Fin 0)) k n st ->
  length feature = length q ->
  exists st', euclidean_round q st i feature = OK st' /\
              working_set (xle (Fin 0)) k n st'.
Proof.
  intros Hk Hi Hws Hlen.
  pose proof Hws as (Hl1 & _).
  destruct st as [dists idxs]; simpl in Hl1 |- *.
  destruct (np_sub_same_length feature q Hlen) as [d ->]. simpl.
  destruct (np_argmax_OK dists) as (j & -> & Hj); [lia|]. simpl.
  destruct (np_getitem_OK dists j Hj) as (greatest & -> & Hg). simpl.
  match goal with |- context [if ?b then _ else _] => destruct b end;
    [|by eexists].
  eexists. split; [done|].
  apply (working_set_insert _ _ _ _ _ _ (dists, idxs)); [done | | done].
  apply np_norm_nonneg.
Qed.

Lemma py_getitem_slot {A} (l : list A) (n : nat) (z : Z) :
  length l = n -> 0 < n -> slot_index n z -> is_OK (py_getitem l z).
Proof.
  intros Hl Hn [-> | Hz]; unfold py_getitem; simpl.
  - destruct (Z.ltb_spec (-1 + Z.of_nat (length l)) 0) as [|_]; [lia|].
    destruct (lookup_lt_is_Some_2 l (Z.to_nat (-1 + Z.of_nat (length l)))) as [x ->];
      [lia | done].
  - destruct (Z.ltb_spec z 0) as [|_]; [lia|].
    destruct (Z.ltb_spec z 0) as [|_]; [lia|].
    destruct (lookup_lt_is_Some_2 l (Z.to_nat z)) as [x ->]; [lia | done].
Qed.

(** The part of both queries after the scan: the two arrays are read in
    the order [order], and the captions and frame paths looked up. *)
Lemma ranking_OK (P : xfloat -> Prop) (k n : nat) (scores : list xfloat)
    (idxs : list Z) (order : list nat) (caps paths : list string) :
  order ≡ₚ seq 0 k -> working_set P k n (scores, idxs) ->
  0 < n -> length caps = n -> length paths = n ->
  exists scores' idxs' c p,
    np_take scores order = OK scores' /\
    np_take idxs order = OK idxs' /\
    comprehension (py_getitem caps) idxs' = OK c /\
    comprehension (py_getitem paths) idxs' = OK p /\
    length c = k /\ length p = k /\ length scores' = k /\
    Forall P scores'.
Proof.
  intros Hperm (Hl1 & Hl2 & HP & Hidx) Hn Hcaps Hpaths; simpl in *.
  assert (Hin : Forall (fun j => j < k) order).
  { rewrite Hperm. apply Forall_forall. intros j ?%elem_of_seq. lia. }
  assert (Hlen : length order = k).
  { rewrite Hperm. apply length_seq. }
  destruct (comprehension_total (np_getitem scores) order) as [scores' Hs].
  { eapply Forall_impl; [exact Hin|]. intros j Hj. simpl in Hj.
    destruct (np_getitem_OK scores j) as (x & -> & _); [lia | done]. }
  destruct (comprehension_total (np_getitem idxs) order) as [idxs' Hi].
  { eapply Forall_impl; [exact Hin|]. intros j Hj. simpl in Hj.
    destruct (np_getitem_OK idxs j) as (x & -> & _); [lia | done]. }
  pose proof Hs as Hs2%np_take_OK. pose proof Hi as Hi2%np_take_OK.
  assert (Hidx' : Forall (slot_index n) idxs').
  { apply Forall_lookup. intros i z Hz.
    destruct (Forall2_lookup_r _ _ _ _ _ Hi2 Hz) as (j & _ & Hj).
    by eapply Forall_lookup_1 in Hj. }
  destruct (comprehension_total (py_getitem caps) idxs') as [c Hc].
  { eapply Forall_impl; [exact Hidx'|]. intros z. by apply py_getitem_slot. }
  destruct (comprehension_total (py_getitem paths) idxs') as [p Hp].
  { eapply Forall_impl; [exact Hidx'|]. intros z. by apply py_getitem_slot. }
  exists scores', idxs', c, p. repeat split; try done.
  - apply comprehension_OK, Forall2_length in Hc.
    apply Forall2_length in Hi2. lia.
  - apply comprehension_OK, Forall2_length in Hp.
    apply Forall2_length in Hi2. lia.
  - apply Forall2_length in Hs2. lia.
  - apply Forall_lookup. intros i x Hx.
    destruct (Forall2_lookup_r _ _ _ _ _ Hs2 Hx) as (j & _ & Hj).
    by eapply Forall_lookup_1 in Hj.
Qed.

Lemma np_take_sorted (R : relation xfloat) (a : list xfloat) (order : list nat)
    (vals : list xfloat) :
  np_take a order = OK vals ->
  (forall i j p q x y, i <= j ->
     order !! i = Some p -> order !! j = Some q ->
     a !! p = Some x -> a !! q = Some y -> R x y) ->
  Sorted R vals.
Proof.
  intros Htake%np_take_OK Hord.
  apply StronglySorted_Sorted, StronglySorted_lookup.
  intros i j x y Hij Hx Hy.
  destruct (Forall2_lookup_r _ _ _ _ _ Htake Hx) as (p & Hp & Hpx).
  destruct (Forall2_lookup_r _ _ _ _ _ Htake Hy) as (q & Hq & Hqy).
  apply (Hord i j p q); [lia | done..].
Qed.

Lemma argsort_non_decreasing `{!ExternalsSpec} (a vals : list xfloat) :
  np_take a (np_argsort a) = OK vals -> non_decreasing vals.
Proof.
  intros Htake. eapply np_take_sorted; [exact Htake|]. apply np_argsort_sorted.
Qed.

End Scan_facts.

(** ** The executable instance meets the assumptions *)

Lemma StronglySorted_lookup_lt {A} (R : relation A) (l : list A) i j x y :
  StronglySorted R l -> i < j -> l !! i = Some x -> l !! j = Some y -> R x y.
Proof.
  intros Hl. revert i j. induction Hl as [|a l _ IH Ha]; intros i j Hij Hi Hj.
  - done.
  - destruct j as [|j]; [lia|]. destruct i as [|i]; simpl in *.
    + injection Hi as <-. by eapply Forall_lookup_1 in Ha.
    + apply (IH i j); [lia | done..].
Qed.

Lemma exact_sqrt_nonneg (x : Q) : (0 <= Exact.sqrt x)%Q.
Proof.
  unfold Exact.sqrt, Qle; simpl. pose proof (Z.sqrt_nonneg (Qnum x * Z.pos (Qden x))). lia.
Qed.

Lemma insert_key_perm p l : Exact.insert_key p l ≡ₚ p :: l.
Proof.
  induction l as [|h t IH]; simpl; [done|].
  destruct (xleb p.1 h.1); [done|]. rewrite IH. apply Permutation_swap.
Qed.

Lemma sort_keys_perm l : Exact.sort_keys l ≡ₚ l.
Proof.
  induction l as [|p l IH]; simpl; [done|].
  rewrite insert_key_perm. by constructor.
Qed.

Lemma insert_key_sorted p l :
  StronglySorted (fun a b => xle a.1 b.1) l ->
  StronglySorted (fun a b => xle a.1 b.1) (Exact.insert_key p l).
Proof.
  induction 1 as [|h t Ht IH Hh]; simpl.
  - repeat constructor.
  - destruct (xleb p.1 h.1) eqn:Hle.
    + apply xleb_le in Hle. constructor; [by constructor|].
      constructor; [done|]. eapply Forall_impl; [exact Hh|].
      intros b Hb; simpl in *. by etrans.
    + apply xleb_total in Hle. constructor; [done|].
      rewrite insert_key_perm. by constructor.
Qed.

Lemma sort_keys_sorted l :
  StronglySorted (fun a b => xle a.1 b.1) (Exact.sort_keys l).
Proof.
  induction l as [|p l IH]; simpl; [constructor | by apply insert_key_sorted].
Qed.

Lemma exact_argsort_perm (a : list xfloat) :
  Exact.argsort a ≡ₚ seq 0 (length a).
Proof.
  unfold Exact.argsort. rewrite sort_keys_perm.
  rewrite snd_zip; [done|]. by rewrite length_seq.
Qed.

Lemma exact_argsort_sorted (a : list xfloat) i j p q x y :
  i <= j ->
  Exact.argsort a !! i = Some p -> Exact.argsort a !! j = Some q ->
  a !! p = Some x -> a !! q = Some y ->
  xle x y.
Proof.
  unfold Exact.argsort. intros Hij Hp Hq Hx Hy.
  destruct (decide (i = j)) as [->|Hne]; [by simplify_eq|].
  apply list_lookup_fmap_Some in Hp as ([x' p'] & -> & Hp).
  apply list_lookup_fmap_Some in Hq as ([y' q'] & -> & Hq).
  simpl in *.
  assert (Hkey : forall z r, (z, r) ∈ Exact.sort_keys (zip a (seq 0 (length a))) ->
                             a !! r = Some z).
  { intros z r. rewrite sort_keys_perm.
    intros (n & Hn)%list_elem_of_lookup_1.
    apply lookup_zip_Some in Hn as [Hz Hr].
    apply lookup_seq in Hr as [-> _]. done. }
  pose proof (Hkey _ _ (list_elem_of_lookup_2 _ _ _ Hp)).
  pose proof (Hkey _ _ (list_elem_of_lookup_2 _ _ _ Hq)).
  simplify_eq.
  apply (StronglySorted_lookup_lt (fun a b => xle a.1 b.1) _ i j (x, p') (y, q')
           (sort_keys_sorted (zip a (seq 0 (length a))))); [lia | done..].
Qed.

Lemma exact_spec : @ExternalsSpec Exact.externals.
Proof.
  split.
  - intros v. simpl. unfold Exact.norm.
    destruct (Exact.overflows _); simpl; [done | apply exact_sqrt_nonneg].
  - apply exact_argsort_perm.
  - apply exact_argsort_sorted.
Qed.

(** ** The two queries on a corpus that meets their preconditions *)

Section Queries.
Context `{Externals} `{!ExternalsSpec}.



Lemma euclidean_scan_OK (self : DataManager) (q : list Q) (k : nat) :
  0 < k ->
  Forall (fun feature => length feature = length q) (rows_of (features self)) ->
  exists st,
    for_enumerate (euclidean_round q) 0 (rows_of (features self))
      (replicate k PInf, replicate k (-1)%Z) = OK st /\
    working_set (xle (Fin 0)) k (length (rows_of (features self))) st.
Proof.
  intros Hk Hrows.
  destruct (for_enumerate_OK
              (fun _ => working_set (xle (Fin 0)) k (length (rows_of (features self))))
              (euclidean_round q) (rows_of (features self)) 0
              (replicate k PInf, replicate k (-1)%Z)) as (st & ? & ?); [| |eauto].
  - by apply working_set_replicate.
  - intros st j feature Hst Hj. simpl.
    pose proof (Forall_lookup_1 _ _ _ _ Hrows Hj) as Hlen. simpl in Hlen.
    eapply euclidean_round_OK; eauto. by eapply lookup_lt_Some.
Qed.
End Queries.

(** The two query scenarios of the specification, on [three_vectors]. *)
Example cosine_scenario :
  exists sims,
    (@query_knn_caption_brutal_force_cosine_similarity Exact.externals
       [[1; 0]]%Q 2 three_vectors).1
      = OK (["a"; "c"], ["a/1.jpg"; "c/1.jpg"], sims).
Proof. eexists. vm_compute. reflexivity. Qed.

Example euclidean_scenario :
  (@query_knn_caption_brutal_force_euclidean_distance Exact.externals
     [1; 0]%Q 1 three_vectors).1
    = OK (["a"], ["a/1.jpg"], [Fin 0]).
Proof. vm_compute. reflexivity. Qed.


(** ** Methods: running binds and loops *)

Lemma method_bind_OK {A B} (m : method A) (f : A -> method B)
    (self self' : DataManager) (b : B) :
  (m ≫= f) self = (OK b, self') <->
  exists a self1, m self = (OK a, self1) /\ f a self1 = (OK b, self').
Proof.
  unfold mbind, method_bind. destruct (m self) as [[a|e] self1]; split.
  - intros Hf. by exists a, self1.
  - by intros (a' & s & [= <- <-] & Hf).
  - done.
  - by intros (a' & s & [=] & _).
Qed.

Lemma method_bind_unfold {A B} (m : method A) (f : A -> method B)
    (self : DataManager) :
  (m ≫= f) self =
  match m self with
  | (OK a, self') => f a self'
  | (Raise e, self') => (Raise e, self')
  end.
Proof. reflexivity. Qed.

Lemma method_bind_Raise {A B} (m : method A) (f : A -> method B)
    (self self1 : DataManager) (e : exn) :
  m self = (Raise e, self1) -> (m ≫= f) self = (Raise e, self1).
Proof. unfold mbind, method_bind. by intros ->. Qed.

Lemma method_bind_run {A B} (m : method A) (f : A -> method B)
    (self self1 : DataManager) (a : A) :
  m self = (OK a, self1) -> (m ≫= f) self = f a self1.
Proof. unfold mbind, method_bind. by intros ->. Qed.

Lemma lift_OK {A} (r : result A) (self self' : DataManager) (a : A) :
  lift r self = (OK a, self') <-> r = OK a /\ self' = self.
Proof. unfold lift. split; [by intros [= -> ->] | by intros [-> ->]]. Qed.

Lemma for_each_app {A} (l1 l2 : list A) (body : A -> method unit)
    (self : DataManager) :
  for_each (l1 ++ l2) body self =
  match for_each l1 body self with
  | (OK _, self1) => for_each l2 body self1
  | (Raise e, self1) => (Raise e, self1)
  end.
Proof.
  revert self. induction l1 as [|x l1 IH]; intros self; simpl; [done|].
  unfold mbind, method_bind. destruct (body x self) as [[[]|e] self1]; [apply IH | done].
Qed.

Lemma for_each_ext {A} (l : list A) (body1 body2 : A -> method unit)
    (self : DataManager) :
  (forall x s, body1 x s = body2 x s) ->
  for_each l body1 self = for_each l body2 self.
Proof.
  intros Hb. revert self. induction l as [|x l IH]; intros self; simpl; [done|].
  unfold mbind, method_bind. rewrite Hb.
  destruct (body2 x self) as [[[]|e] self1]; [apply IH | done].
Qed.

Lemma for_each_bind {A B} (l : list A) (g : A -> list B) (body : B -> method unit)
    (self : DataManager) :
  for_each (l ≫= g) body self = for_each l (fun x => for_each (g x) body) self.
Proof.
  revert self. induction l as [|x l IH]; intros self; simpl; [done|].
  rewrite for_each_app, method_bind_unfold.
  destruct (for_each (g x) body self) as [[[]|e] self1]; [apply IH | done].
Qed.

Lemma for_each_singleton {A} (x : A) (body : A -> method unit) (self : DataManager) :
  for_each [x] body self = body x self.
Proof.
  simpl. unfold mbind, method_bind. by destruct (body x self) as [[[]|e] self1].
Qed.

(** The two loops of [load_features] visit the files of [visited]. *)
Lemma load_features_visited `{Externals} (fs : FileSystem) (folder : string)
    (self : DataManager) :
  load_features fs folder self =
  (for_each (visited fs folder) (fun '(root, file) => load_feature_file fs root file);;
   modify (fun self => set_features (NdArray (rows_of (features self))) self)) self.
Proof.
  unfold load_features, visited. rewrite !method_bind_unfold.
  rewrite for_each_bind.
  erewrite for_each_ext; [done|].
  intros [[root dirs] files] s. rewrite for_each_bind.
  apply for_each_ext. intros file s'. by rewrite for_each_singleton.
Qed.

(** ** Corpus assembly *)

Lemma same_stores_refl (self : DataManager) : same_stores self self.
Proof. by repeat split. Qed.

Lemma same_stores_trans (a b c : DataManager) :
  same_stores a b -> same_stores b c -> same_stores a c.
Proof. intros (?&?&?) (?&?&?). repeat split; congruence. Qed.

Lemma grows_by_refl (self : DataManager) : grows_by 0 self self.
Proof. unfold grows_by. repeat split; lia. Qed.

Lemma grows_by_trans (m n : nat) (a b c : DataManager) :
  grows_by m a b -> grows_by n b c -> grows_by (m + n) a c.
Proof.
  intros (?&?&?&?) (?&?&?&?).
  split; [lia|]. split; [lia|]. split; [lia|].
  by eapply same_stores_trans.
Qed.

Lemma elem_of_frame_numbers (count : Z) (n : nat) (z : Z) :
  z ∈ frame_numbers count n <-> (count <= z < count + Z.of_nat n)%Z.
Proof.
  revert count. induction n as [|n IH]; intros count; simpl.
  - rewrite elem_of_empty. lia.
  - rewrite elem_of_union, elem_of_singleton, IH. lia.
Qed.

Lemma key_rows_size (kf : gset Z) (count : Z) (f : list string) :
  key_rows kf count f = size (kf ∩ frame_numbers count (length f)).
Proof.
  revert count. induction f as [|line rest IH]; intros count; simpl.
  - by rewrite intersection_empty_r_L, size_empty.
  - rewrite intersection_union_l_L, size_union, <- IH.
    + f_equal. case_bool_decide as Hc.
      * replace (kf ∩ {[count]}) with ({[count]} : gset Z);
          [by rewrite size_singleton|].
        apply set_eq. intros z. rewrite elem_of_intersection, elem_of_singleton.
        split; [by intros -> | by intros [_ ->]].
      * replace (kf ∩ {[count]}) with (∅ : gset Z);
          [by rewrite size_empty|].
        apply set_eq. intros z.
        rewrite elem_of_intersection, elem_of_singleton, elem_of_empty.
        split; [done | by intros [? ->]].
    + intros z [_ ->%elem_of_singleton]%elem_of_intersection
               [_ Hz%elem_of_frame_numbers]%elem_of_intersection. lia.
Qed.

Section Assembly.
Context `{Externals}.

Lemma read_rows_grows (seg caption : string) (kf : gset Z) (count : Z)
    (f : list string) (self self' : DataManager) :
  read_rows seg caption kf count f self = (OK tt, self') ->
  grows_by (key_rows kf count f) self self'.
Proof.
  revert count self. induction f as [|line rest IH]; intros count self; simpl.
  - intros [= <-]. apply grows_by_refl.
  - intros (u & self1 & Hstep & Hrest)%method_bind_OK.
    apply IH in Hrest. eapply grows_by_trans; [|exact Hrest].
    case_bool_decide;
      [|unfold mret, method_ret in Hstep; simplify_eq; apply grows_by_refl].
    apply method_bind_OK in Hstep as (feature & s1 & [Hf ->]%lift_OK & Hstep).
    apply method_bind_OK in Hstep as ([] & s2 & Happ & Hstep).
    unfold features_append in Happ.
    destruct (features self) as [rows|] eqn:Hfeat; [|done].
    injection Happ as <-.
    apply method_bind_OK in Hstep as ([] & s3 & [= <-] & Hstep).
    apply method_bind_OK in Hstep as (s & s4 & [= <- <-] & Hstep).
    apply method_bind_OK in Hstep as (path & s5 & [Hp ->]%lift_OK & Hstep).
    injection Hstep as Hs. subst self1.
    unfold grows_by, same_stores; simpl. rewrite Hfeat; simpl.
    rewrite !length_app; simpl. by repeat split.
Qed.

Lemma load_feature_file_grows (fs : FileSystem) (root file : string)
    (self self' : DataManager) :
  load_feature_file fs root file self = (OK tt, self') ->
  grows_by (segment_records fs self root file) self self'.
Proof.
  unfold load_feature_file, segment_records.
  destruct (endswith file ".txt"); simpl;
    [|intros [= <-]; apply grows_by_refl].
  intros ([] & s1 & [_ ->]%lift_OK & Hrun)%method_bind_OK.
  apply method_bind_OK in Hrun as (segment_id & s2 & [_ ->]%lift_OK & Hrun).
  apply method_bind_OK in Hrun as ([] & s3 & [= <-] & Hrun).
  apply method_bind_OK in Hrun as (s & s4 & [= <- <-] & Hrun).
  apply method_bind_OK in Hrun as (caption & s5 & [_ ->]%lift_OK & Hrun).
  apply method_bind_OK in Hrun as (f & s6 & [Hf ->]%lift_OK & Hrun).
  apply method_bind_OK in Hrun as (s & s7 & [= <- <-] & Hrun).
  apply method_bind_OK in Hrun as (kf & s8 & [Hkf ->]%lift_OK & Hrun).
  apply read_rows_grows in Hrun. simpl in Hkf.
  unfold open in Hf.
  destruct (file_lines fs !! path_join root file) as [f'|]; [|done].
  destruct (key_frames self !! drop_last 4 file) as [kf'|]; [|done].
  simpl in *. simplify_eq.
  unfold frames_with_vector. rewrite <- key_rows_size.
  destruct Hrun as (?&?&?&?&?&?). by repeat split.
Qed.

Lemma segment_records_same_stores (fs : FileSystem) (self self' : DataManager)
    (root file : string) :
  same_stores self self' ->
  segment_records fs self' root file = segment_records fs self root file.
Proof. intros (_ & _ & Hkf). unfold segment_records. by rewrite Hkf. Qed.

Lemma for_each_file_grows (fs : FileSystem) (l : list (string * string))
    (self self' : DataManager) :
  for_each l (fun '(root, file) => load_feature_file fs root file) self = (OK tt, self') ->
  grows_by (sum_list ((fun '(root, file) => segment_records fs self root file) <$> l))
           self self'.
Proof.
  revert self. induction l as [|[root file] l IH]; intros self; simpl.
  - intros [= <-]. apply grows_by_refl.
  - intros ([] & self1 & Hfile & Hrest)%method_bind_OK.
    apply load_feature_file_grows in Hfile. apply IH in Hrest.
    pose proof Hfile as (_ & _ & _ & Hsame).
    eapply grows_by_trans; [exact Hfile|].
    erewrite list_fmap_ext; [exact Hrest|].
    intros _ [root' file'] _. symmetry. by apply segment_records_same_stores.
Qed.

Lemma load_features_grows (fs : FileSystem) (folder : string)
    (self self' : DataManager) :
  load_features fs folder self = (OK tt, self') ->
  grows_by (expected_records fs folder self) self self'.
Proof.
  rewrite load_features_visited.
  intros ([] & self1 & Hloop & [= <-])%method_bind_OK.
  apply for_each_file_grows in Hloop.
  destruct Hloop as (?&?&?&?&?&?). by repeat split.
Qed.

(** Where it returns, [load_features] keeps the corpus aligned. *)
Lemma load_features_aligned (fs : FileSystem) (folder : string)
    (self self' : DataManager) :
  aligned self -> load_features fs folder self = (OK tt, self') -> aligned self'.
Proof.
  intros [??] (?&?&?&_)%load_features_grows. split; lia.
Qed.

(** [normalize_features] keeps the number of vectors. *)
Lemma normalize_features_aligned (self self' : DataManager) :
  aligned self -> normalize_features self = (OK tt, self') -> aligned self'.
Proof.
  intros Hal. unfold normalize_features.
  intros (s & s1 & [= <- <-] & Hrun)%method_bind_OK.
  apply method_bind_OK in Hrun as (normalized & s2 & [Hn ->]%lift_OK & [= <-]).
  unfold normalize in Hn.
  destruct (check_array (rows_of (features self))); [|done].
  injection Hn as <-. unfold aligned in *. simpl. by rewrite length_map.
Qed.

(** Key frames past the last line of the file are never looked at. *)
Lemma read_rows_key_frames (seg caption : string) (kf kf' : gset Z) (count : Z)
    (f : list string) (self : DataManager) :
  (forall z, z ∈ frame_numbers count (length f) -> z ∈ kf <-> z ∈ kf') ->
  read_rows seg caption kf count f self = read_rows seg caption kf' count f self.
Proof.
  revert count self. induction f as [|line rest IH]; intros count self Hkf; [done|].
  simpl in *. rewrite !method_bind_unfold.
  rewrite (bool_decide_ext (count ∈ kf) (count ∈ kf')).
  - destruct (_ self) as [[[]|e] self1]; [|done].
    apply IH. intros z Hz. apply Hkf, elem_of_union. by right.
  - apply Hkf, elem_of_union. left. by apply elem_of_singleton.
Qed.
End Assembly.

Lemma load_feature_file_missing_caption `{Externals} (fs : FileSystem)
    (root file : string) (segment_id : Z) (self : DataManager) :
  let video_segment_name := drop_last 4 file in
  let video_name := str_take 13 video_segment_name in
  endswith file ".txt" = true ->
  14 <= len video_segment_name ->
  py_int (str_drop 13 video_segment_name) = OK segment_id ->
  video_seg_id_to_caption self !! (video_name, segment_id) = None ->
  (load_feature_file fs root file self).1 = Raise (KeyError (KPair video_name segment_id)).
Proof.
  intros name video_name Hends Hlen Hint Hcap.
  unfold load_feature_file. rewrite Hends. cbn [negb].
  apply Nat.leb_le in Hlen. fold name. rewrite method_bind_unfold.
  rewrite Hlen. cbn [py_assert lift]. rewrite method_bind_unfold.
  rewrite Hint. cbn [lift]. rewrite method_bind_unfold. cbn [modify].
  rewrite method_bind_unfold. cbn [get]. rewrite method_bind_unfold.
  cbn [set_video_seg_feature_path video_seg_id_to_caption].
  fold video_name. by rewrite Hcap.
Qed.

(** C3 fails on the code.  The frame image of a key frame is missing from
    the frame path store: [load_features] raises [KeyError] at line 102,
    after lines 100 and 101 have appended the feature and the caption, and
    leaves one feature and one caption but no frame path behind. *)
Theorem load_features_breaks_alignment :
  aligned frame_paths_missing /\
  let (r, self') :=
    @load_features Exact.externals one_segment "features" frame_paths_missing in
  r = Raise (KeyError (KPair "v_QOlSCBRmfWY0" 0)) /\
  length (rows_of (features self')) = 1 /\
  length (captions self') = 1 /\
  length (frame_paths self') = 0 /\
  ~ aligned self'.
Proof.
  split; [by split|]. vm_compute. repeat split. intros [_ [=]].
Qed.

(** C7.  A feature file of the walk whose name decomposes, by the
    13-character prefix rule, to a (video, segment index) pair that the
    caption store does not hold makes [load_features] fail; when the
    files visited before it load, the failure is the [KeyError] of the
    caption lookup for that very pair.  The file is not skipped. *)
Theorem load_features_missing_caption `{Externals} (fs : FileSystem)
    (folder : string) (self : DataManager)
    (pre post : list (string * string)) (root file : string) (segment_id : Z) :
  let video_segment_name := drop_last 4 file in
  let video_name := str_take 13 video_segment_name in
  visited fs folder = pre ++ (root, file) :: post ->
  endswith file ".txt" = true ->
  14 <= len video_segment_name ->
  py_int (str_drop 13 video_segment_name) = OK segment_id ->
  video_seg_id_to_caption self !! (video_name, segment_id) = None ->
  (exists e, (load_features fs folder self).1 = Raise e) /\
  ((for_each pre (fun '(root, file) => load_feature_file fs root file) self).1 = OK tt ->
   (load_features fs folder self).1 = Raise (KeyError (KPair video_name segment_id))).
Proof.
  intros name video_name Hvis Hends Hlen Hint Hcap.
  rewrite load_features_visited, method_bind_unfold, Hvis, for_each_app.
  destruct (for_each pre _ self) as [[[]|e] self1] eqn:Hpre; simpl.
  - apply for_each_file_grows in Hpre as (_ & _ & _ & Hcaps & _).
    rewrite method_bind_unfold.
    pose proof (load_feature_file_missing_caption fs root file segment_id self1
                  Hends Hlen Hint) as Hfile.
    fold name video_name in Hfile. rewrite Hcaps in Hfile. specialize (Hfile Hcap).
    destruct (load_feature_file fs root file self1) as [r self2].
    simpl in Hfile. subst r. simpl. eauto.
  - split; [eauto | done].
Qed.

Lemma load_features_missing_caption_witness :
  (exists e, (@load_features Exact.externals one_segment "features" captions_missing).1
             = Raise e) /\
  ((for_each [("features", "notes.md")]
      (fun '(root, file) => @load_feature_file Exact.externals one_segment root file)
      captions_missing).1 = OK tt ->
   (@load_features Exact.externals one_segment "features" captions_missing).1
     = Raise (KeyError (KPair "v_QOlSCBRmfWY" 0))).
Proof.
  apply (@load_features_missing_caption Exact.externals one_segment "features"
           captions_missing [("features", "notes.md")] []
           "features" "v_QOlSCBRmfWY0.txt" 0).
  - reflexivity.
  - reflexivity.
  - vm_compute. lia.
  - reflexivity.
  - reflexivity.
Defined.

(** C8.  When [load_features] returns on an empty corpus, each of the
    three corpus sequences has as many entries as the sum, over the
    feature files visited, of the number of key frames of the segment
    that are the number of a line of the file.  A key frame that is not
    the number of a line plays no part: with it or without it the loop
    over the lines does the same. *)
Theorem load_features_corpus_length `{Externals} (fs : FileSystem)
    (folder : string) (self self' : DataManager) :
  rows_of (features self) = [] -> captions self = [] -> frame_paths self = [] ->
  load_features fs folder self = (OK tt, self') ->
  (length (rows_of (features self')) = expected_records fs folder self /\
   length (captions self') = expected_records fs folder self /\
   length (frame_paths self') = expected_records fs folder self) /\
  (forall seg caption kf kf' f s,
     kf ∩ frames_with_vector f = kf' ∩ frames_with_vector f ->
     read_rows seg caption kf 0 f s = read_rows seg caption kf' 0 f s).
Proof.
  intros Hrows Hcaps Hpaths (Hf & Hc & Hp & _)%load_features_grows.
  rewrite Hrows in Hf. rewrite Hcaps in Hc. rewrite Hpaths in Hp. simpl in *.
  split; [done|].
  intros seg caption kf kf' f s Hkf. apply read_rows_key_frames.
  intros z Hz. fold (frames_with_vector f) in Hz.
  assert (z ∈ kf ∩ frames_with_vector f <-> z ∈ kf' ∩ frames_with_vector f)
    as Hiff by (by rewrite Hkf).
  rewrite !elem_of_intersection in Hiff. tauto.
Qed.

Lemma load_features_corpus_length_witness :
  let self' := (@load_features Exact.externals one_segment "features" stores_loaded).2 in
  (length (rows_of (features self')) = 2 /\
   length (captions self') = 2 /\
   length (frame_paths self') = 2) /\
  (forall seg caption kf kf' f s,
     kf ∩ frames_with_vector f = kf' ∩ frames_with_vector f ->
     @read_rows Exact.externals seg caption kf 0 f s =
     @read_rows Exact.externals seg caption kf' 0 f s).
Proof.
  apply (@load_features_corpus_length Exact.externals one_segment "features"
           stores_loaded).
  - reflexivity.
  - reflexivity.
  - reflexivity.
  - vm_compute. reflexivity.
Defined.

(** ** The sentinels of the two queries *)

(** C4 fails on the code.  The working set of the cosine query starts at
    score -1, a value both assertions accept, not below it: a record of
    similarity -1 leaves the working set as it is, and two such records
    queried with [k = 2] come back as the last record twice. *)
Theorem cosine_sentinel_is_a_valid_similarity :
  np_dot [-1; 0]%Q [1; 0]%Q = OK (-1)%Q /\
  cosine_round [1; 0]%Q ([Fin (-1)], [(-1)%Z]) 0 [-1; 0]%Q
    = OK ([Fin (-1)], [(-1)%Z]) /\
  (@query_knn_caption_brutal_force_cosine_similarity Exact.externals
     [[1; 0]]%Q 2 opposite_vectors).1
    = OK (["b"; "b"], ["b/1.jpg"; "b/1.jpg"], [Fin (-1); Fin (-1)]).
Proof. repeat split; vm_compute; reflexivity. Qed.

(** C5 fails on the code.  With [k] above the corpus size the slots that
    no record filled keep the index -1, which a Python list reads as its
    last element: they come back with the sentinel score and the caption
    and frame path of the last record. *)
Theorem unfilled_slots_return_last_record :
  (@query_knn_caption_brutal_force_cosine_similarity Exact.externals
     [[1; 0]]%Q 4 two_vectors).1
    = OK (["a"; "b"; "b"; "b"], ["a/1.jpg"; "b/1.jpg"; "b/1.jpg"; "b/1.jpg"],
          [Fin 1; Fin 0; Fin (-1); Fin (-1)]) /\
  exists d,
    (@query_knn_caption_brutal_force_euclidean_distance Exact.externals
       [1; 0]%Q 4 two_vectors).1
      = OK (["a"; "b"; "b"; "b"], ["a/1.jpg"; "b/1.jpg"; "b/1.jpg"; "b/1.jpg"],
            [Fin 0; Fin d; PInf; PInf]).
Proof. split; [|eexists]; vm_compute; reflexivity. Qed.

(** ** Calls outside the preconditions *)

Lemma np_dot_lengths (a b : list Q) :
  length a <> length b -> np_dot a b = Raise ValueError.
Proof.
  revert b. induction a as [|x a IH]; intros [|y b] Hlen; simpl in *; try done.
  rewrite IH; [done | congruence].
Qed.

Lemma np_dot_Raise (a b : list Q) (e : exn) :
  np_dot a b = Raise e -> e = ValueError.
Proof.
  revert b. induction a as [|x a IH]; intros [|y b]; simpl; try congruence.
  destruct (np_dot a b) eqn:Hab; simpl; [done|]. intros [= <-]. by eapply IH.
Qed.

Lemma np_sub_Raise (a b : list Q) (e : exn) :
  np_sub a b = Raise e -> e = ValueError.
Proof.
  unfold np_sub. destruct (sub_same a b); [done|].
  destruct a as [|x [|??]], b as [|y [|??]]; simpl; congruence.
Qed.

Lemma sub_same_lengths (a b : list Q) :
  length a <> length b -> sub_same a b = None.
Proof.
  revert b. induction a as [|x a IH]; intros [|y b] Hlen; simpl in *; try done.
  rewrite IH; [done | congruence].
Qed.

Lemma np_sub_lengths (a b : list Q) :
  length a <> length b -> length a <> 1 -> length b <> 1 ->
  np_sub a b = Raise ValueError.
Proof.
  intros Hlen Ha Hb. unfold np_sub. rewrite sub_same_lengths by done.
  destruct a as [|x [|??]], b as [|y [|??]]; simpl in *; done.
Qed.

Lemma py_getitem_nil {A} (z : Z) : py_getitem (@nil A) z = Raise IndexError.
Proof.
  unfold py_getitem. rewrite lookup_nil. simpl.
  by repeat destruct (Z.ltb _ _).
Qed.

Lemma comprehension_getitem_empty {A} (idx : list Z) :
  idx <> [] -> comprehension (py_getitem (@nil A)) idx = Raise IndexError.
Proof.
  destruct idx as [|z idx]; [done|]. intros _. simpl. by rewrite py_getitem_nil.
Qed.

Lemma np_take_replicate {A} (n : nat) (x : A) (order : list nat) :
  order ≡ₚ seq 0 n ->
  np_take (replicate n x) order = OK (replicate n x).
Proof.
  intros Hperm. apply np_take_OK.
  apply Forall2_replicate_r; [rewrite Hperm; apply length_seq|].
  rewrite Hperm. apply Forall_forall. intros j Hj%elem_of_seq.
  unfold flip. apply lookup_replicate. split; [done | lia].
Qed.

(** C6, as amended.  Neither query checks its arguments before the scan,
    and none of the errors below is raised before it.  On an empty corpus
    a call with [k < 1] returns three empty sequences, and a call with
    [k >= 1] raises [IndexError] once the scan is over.  On a non-empty
    corpus a call with [k < 1] raises in the first round of the scan.  A
    query of another length than the first record raises [ValueError] in
    the first round: always in the cosine query, and in the Euclidean
    query unless one of the two lengths is 1.  The query matrix of the
    cosine query is one that sklearn accepts, [v] its first row once
    normalized. *)
Theorem queries_do_not_validate `{Externals} `{!ExternalsSpec}
    (self : DataManager) (query_feature : list (list Q))
    (v : list Q) (others : list (list Q)) (q : list Q) (k : Z) :
  let cosine :=
    (query_knn_caption_brutal_force_cosine_similarity query_feature k self).1 in
  let euclidean :=
    (query_knn_caption_brutal_force_euclidean_distance q k self).1 in
  normalize query_feature = OK (v :: others) ->
  (rows_of (features self) = [] -> (k < 1)%Z ->
     cosine = OK ([], [], []) /\ euclidean = OK ([], [], [])) /\
  (rows_of (features self) = [] -> captions self = [] -> (1 <= k)%Z ->
     cosine = Raise IndexError /\ euclidean = Raise IndexError) /\
  (rows_of (features self) <> [] -> (k < 1)%Z ->
     (cosine = Raise ValueError \/ cosine = Raise AssertionError) /\
     euclidean = Raise ValueError) /\
  (forall feature rest, rows_of (features self) = feature :: rest ->
     length feature <> length v -> cosine = Raise ValueError) /\
  (forall feature rest, rows_of (features self) = feature :: rest ->
     length feature <> length q -> length feature <> 1 -> length q <> 1 ->
     euclidean = Raise ValueError).
Proof.
  intros cosine euclidean Hv. subst cosine euclidean.
  unfold query_knn_caption_brutal_force_cosine_similarity,
    query_knn_caption_brutal_force_euclidean_distance,
    cosine_query, euclidean_query.
  cbn [fst]. rewrite !Hv. simpl.
  split; [|split; [|split; [|split]]].
  - intros -> Hk. simpl. replace (Z.to_nat k) with 0 by lia. simpl.
    pose proof (np_argsort_perm []) as ->%Permutation_nil_r.
    rewrite reverse_nil. split; reflexivity.
  - intros -> Hcaps Hk. simpl.
    rewrite !np_take_replicate
      by (rewrite ?reverse_Permutation, np_argsort_perm; by rewrite length_replicate).
    simpl. rewrite Hcaps, comprehension_getitem_empty; [split; reflexivity|].
    destruct (Z.to_nat k) eqn:?; [lia | done].
  - intros Hne Hk. replace (Z.to_nat k) with 0 by lia.
    destruct (rows_of (features self)) as [|feature rest]; [done|]. simpl.
    split.
    + destruct (np_dot feature v) as [s|e] eqn:Hdot; simpl.
      * destruct (Qle_bool (- (101 # 100)) s); simpl; [|by right].
        destruct (Qle_bool s (101 # 100)); simpl; [by left | by right].
      * left. by apply np_dot_Raise in Hdot as ->.
    + destruct (np_sub feature q) as [d|e] eqn:Hsub; simpl; [done|].
      by apply np_sub_Raise in Hsub as ->.
  - intros feature rest -> Hlen. simpl.
    by rewrite np_dot_lengths.
  - intros feature rest -> Hlen Hf Hq'. simpl.
    by rewrite np_sub_lengths.
Qed.

Lemma queries_do_not_validate_witness :
  (@query_knn_caption_brutal_force_cosine_similarity Exact.externals
     [[1; 0]]%Q 0 init).1 = OK ([], [], []) /\
  (@query_knn_caption_brutal_force_euclidean_distance Exact.externals
     [1; 0]%Q 0 init).1 = OK ([], [], []).
Proof.
  apply (proj1 (@queries_do_not_validate Exact.externals exact_spec init
                  [[1; 0]]%Q [1; 0]%Q [] [1; 0]%Q 0 eq_refl)).
  - reflexivity.
  - lia.
Defined.

(** C6, as stated, fails: with [k = 0] on an empty corpus both queries
    return, and a Euclidean query of length 1 against a corpus of
    dimensionality 2 returns too. *)
Lemma invalid_queries_are_not_rejected :
  rows_of (features init) = [] /\
  (@query_knn_caption_brutal_force_cosine_similarity Exact.externals
     [[1; 0]]%Q 0 init).1 = OK ([], [], []) /\
  (@query_knn_caption_brutal_force_euclidean_distance Exact.externals
     [1; 0]%Q 0 init).1 = OK ([], [], []) /\
  Forall (fun feature => length feature = 2 /\ length [5]%Q <> 2)
         (rows_of (features three_vectors)) /\
  is_OK (@query_knn_caption_brutal_force_euclidean_distance Exact.externals
           [5]%Q 1 three_vectors).1.
Proof.
  split; [reflexivity|]. split; [reflexivity|]. split; [reflexivity|].
  split; [by repeat constructor|]. by vm_compute.
Qed.

(** ** The queries as functions of the corpus *)

(** C10.  The result of either query is a function of the three corpus
    sequences, the query vector and [k] alone: two states that agree on
    the corpus give equal captions, frame paths and scores, whatever the
    other stores hold; and the state after the call is the state before
    it. *)
Theorem queries_are_pure `{Externals} (self1 self2 : DataManager)
    (query_matrix : list (list Q)) (query_vector : list Q) (k : Z) :
  rows_of (features self1) = rows_of (features self2) ->
  captions self1 = captions self2 ->
  frame_paths self1 = frame_paths self2 ->
  (query_knn_caption_brutal_force_cosine_similarity query_matrix k self1).1
    = (query_knn_caption_brutal_force_cosine_similarity query_matrix k self2).1 /\
  (query_knn_caption_brutal_force_euclidean_distance query_vector k self1).1
    = (query_knn_caption_brutal_force_euclidean_distance query_vector k self2).1 /\
  (query_knn_caption_brutal_force_cosine_similarity query_matrix k self1).2 = self1 /\
  (query_knn_caption_brutal_force_euclidean_distance query_vector k self1).2 = self1.
Proof.
  intros Hrows Hcaps Hpaths.
  unfold query_knn_caption_brutal_force_cosine_similarity,
    query_knn_caption_brutal_force_euclidean_distance,
    cosine_query, euclidean_query; simpl.
  by rewrite Hrows, Hcaps, Hpaths.
Qed.

Lemma queries_are_pure_witness :
  (@query_knn_caption_brutal_force_cosine_similarity Exact.externals
     [[1; 0]]%Q 2 three_vectors).1
    = (@query_knn_caption_brutal_force_cosine_similarity Exact.externals
         [[1; 0]]%Q 2 three_vectors_indexed).1 /\
  (@query_knn_caption_brutal_force_euclidean_distance Exact.externals
     [1; 0]%Q 2 three_vectors).1
    = (@query_knn_caption_brutal_force_euclidean_distance Exact.externals
         [1; 0]%Q 2 three_vectors_indexed).1 /\
  (@query_knn_caption_brutal_force_cosine_similarity Exact.externals
     [[1; 0]]%Q 2 three_vectors).2 = three_vectors /\
  (@query_knn_caption_brutal_force_euclidean_distance Exact.externals
     [1; 0]%Q 2 three_vectors).2 = three_vectors.
Proof.
  apply (@queries_are_pure Exact.externals three_vectors three_vectors_indexed
           [[1; 0]]%Q [1; 0]%Q 2); reflexivity.
Defined.

(** * Further properties *)

(** ** The arrays of the scans *)

Lemma xltb_true_le (a b : xfloat) : xltb a b = true -> xle a b.
Proof.
  destruct a as [x|], b as [y|]; simpl; try done.
  intros Hlt%Qltb_lt. by apply Qlt_le_weak.
Qed.

Lemma xltb_false_le (a b : xfloat) : xltb a b = false -> xle b a.
Proof.
  destruct a as [x|], b as [y|]; simpl; try done.
  unfold Qltb. rewrite negb_false_iff. apply Qle_bool_iff.
Qed.

Lemma argmax_from_greatest (pre a : list xfloat) (best_i : nat) (best : xfloat) :
  (pre ++ a) !! best_i = Some best ->
  Forall (fun x => xle x best) pre ->
  exists w, (pre ++ a) !! argmax_from best_i best (length pre) a = Some w /\
            Forall (fun x => xle x w) (pre ++ a).
Proof.
  revert pre best_i best. induction a as [|x a IH]; intros pre best_i best Hb Hpre; simpl.
  - exists best. by rewrite app_nil_r in *.
  - replace (pre ++ x :: a) with ((pre ++ [x]) ++ a) in * by by rewrite <- app_assoc.
    replace (S (length pre)) with (length (pre ++ [x]))
      by (rewrite length_app; simpl; lia).
    destruct (xltb best x) eqn:Hlt.
    + apply IH.
      * rewrite lookup_app_l by (rewrite length_app; simpl; lia).
        by rewrite lookup_app_r, Nat.sub_diag.
      * apply Forall_app. split; [|by repeat constructor].
        eapply Forall_impl; [exact Hpre|]. intros y Hy. simpl in Hy.
        etrans; [exact Hy|]. by apply xltb_true_le.
    + apply IH; [done|].
      apply Forall_app. split; [done|]. repeat constructor. by apply xltb_false_le.
Qed.


(** [np.argmax] gives the position of a greatest value, [np.argmin] of a
    least one. *)
Lemma np_argmax_greatest (a : list xfloat) (m : nat) :
  np_argmax a = OK m ->
  exists w, a !! m = Some w /\ Forall (fun x => xle x w) a.
Proof.
  destruct a as [|x a]; simpl; [done|]. intros [= <-].
  apply (argmax_from_greatest [x] a 0 x); [done | by repeat constructor].
Qed.


Lemma for_enumerate_inv {St A} (P : nat -> St -> Prop)
    (body : St -> nat -> A -> result St) (l : list A) (i0 : nat) (st st' : St) :
  for_enumerate body i0 l st = OK st' ->
  P i0 st ->
  (forall st j x st1, l !! j = Some x -> body st (i0 + j) x = OK st1 ->
     P (i0 + j) st -> P (S (i0 + j)) st1) ->
  P (i0 + length l) st'.
Proof.
  revert i0 st. induction l as [|x l IH]; intros i0 st Hrun HP Hbody; simpl in *.
  - injection Hrun as <-. by rewrite Nat.add_0_r.
  - apply bind_OK in Hrun as (st1 & Hst1 & Hrun).
    rewrite Nat.add_succ_r. apply (IH (S i0) st1); [done | |].
    + specialize (Hbody st 0 x st1). rewrite Nat.add_0_r in Hbody. by apply Hbody.
    + intros st2 j y st3 Hj Hy HP2. simpl in *.
      specialize (Hbody st2 (S j) y st3). rewrite Nat.add_succ_r in Hbody.
      by apply Hbody.
Qed.

Lemma py_getitem_nat {A} (l : list A) (i : nat) (y : A) :
  py_getitem l (Z.of_nat i) = OK y <-> l !! i = Some y.
Proof.
  unfold py_getitem. destruct (Z.ltb_spec (Z.of_nat i) 0) as [|_]; [lia|].
  destruct (Z.ltb_spec (Z.of_nat i) 0) as [|_]; [lia|].
  rewrite Nat2Z.id. destruct (l !! i); simpl; split; congruence.
Qed.

(** ** The working set holds the best records *)

Section Best.
Context (R : relation xfloat) `{!Reflexive R} `{!Transitive R}.
Context (sentinel : xfloat) (score : nat -> option Q) (k : nat).

Lemma best_so_far_start :
  best_so_far R sentinel score k 0 (replicate k sentinel, replicate k (-1)%Z).
Proof.
  unfold best_so_far; simpl. rewrite !length_replicate.
  split; [done|]. split; [done|]. split; [|split].
  - intros s z x [-> _]%lookup_replicate [-> _]%lookup_replicate. by left.
  - intros s s' z Hz [-> _]%lookup_replicate. lia.
  - intros i v x Hi. lia.
Qed.

Lemma best_so_far_skip (j : nat) (st : list xfloat * list Z) (w : xfloat) (v : Q) :
  best_so_far R sentinel score k j st ->
  score j = Some v ->
  Forall (fun x => R x w) st.1 -> R w (Fin v) ->
  best_so_far R sentinel score k (S j) st.
Proof.
  intros (Hl1 & Hl2 & HA & HB & HC) Hj Hw Hv.
  split; [done|]. split; [done|]. split; [|split; [done|]].
  - intros s z x Hz Hx. destruct (HA s z x Hz Hx) as [?|(i & v' & ? & ? & ? & ?)];
      [by left | right]. exists i, v'. repeat split; try done. lia.
  - intros i v' x Hi Hs Hnot Hx.
    destruct (decide (i = j)) as [->|Hne].
    + assert (v' = v) as -> by congruence.
      etrans; [|exact Hv]. by eapply Forall_forall in Hw.
    + apply (HC i v' x); [lia | done..].
Qed.

Lemma best_so_far_pass (j : nat) (st : list xfloat * list Z) :
  best_so_far R sentinel score k j st ->
  score j = None ->
  best_so_far R sentinel score k (S j) st.
Proof.
  intros (Hl1 & Hl2 & HA & HB & HC) Hj.
  split; [done|]. split; [done|]. split; [|split; [done|]].
  - intros s z x Hz Hx. destruct (HA s z x Hz Hx) as [?|(i & v' & ? & ? & ? & ?)];
      [by left | right]. exists i, v'. repeat split; try done. lia.
  - intros i v' x Hi Hs Hnot Hx.
    destruct (decide (i = j)) as [->|Hne]; [congruence|].
    apply (HC i v' x); [lia | done..].
Qed.

Lemma best_so_far_replace (j : nat) (st : list xfloat * list Z) (m : nat)
    (w : xfloat) (v : Q) :
  best_so_far R sentinel score k j st ->
  score j = Some v ->
  st.1 !! m = Some w ->
  Forall (fun x => R x w) st.1 -> R (Fin v) w ->
  best_so_far R sentinel score k (S j)
    (<[m := Fin v]> st.1, <[m := Z.of_nat j]> st.2).
Proof.
  intros (Hl1 & Hl2 & HA & HB & HC) Hj Hm Hw Hv. simpl.
  assert (Hmk : m < k) by (rewrite <- Hl1; by eapply lookup_lt_Some).
  unfold best_so_far; simpl. rewrite !length_insert.
  split; [done|]. split; [done|]. split; [|split].
  - intros s z x Hz Hx. destruct (decide (s = m)) as [->|Hne].
    + rewrite list_lookup_insert_eq in Hz by lia.
      rewrite list_lookup_insert_eq in Hx by lia. simplify_eq.
      right. exists j, v. repeat split; try done. lia.
    + rewrite list_lookup_insert_ne in Hz by done.
      rewrite list_lookup_insert_ne in Hx by done.
      destruct (HA s z x Hz Hx) as [?|(i & v' & ? & ? & ? & ?)]; [by left | right].
      exists i, v'. repeat split; try done. lia.
  - assert (Hfresh : forall s, s <> m -> st.2 !! s <> Some (Z.of_nat j)).
    { intros s Hne Hs.
      destruct (lookup_lt_is_Some_2 st.1 s) as [x Hx];
        [rewrite Hl1, <- Hl2; by eapply lookup_lt_Some|].
      destruct (HA s _ x Hs Hx) as [[? _]|(i & v' & ? & ? & _)]; lia. }
    intros s s' z Hz Hs Hs'.
    destruct (decide (s = m)) as [->|Hne], (decide (s' = m)) as [->|Hne']; [done | | |].
    + rewrite list_lookup_insert_eq in Hs by lia.
      rewrite list_lookup_insert_ne in Hs' by done. simplify_eq. by destruct (Hfresh s').
    + rewrite list_lookup_insert_eq in Hs' by lia.
      rewrite list_lookup_insert_ne in Hs by done. simplify_eq. by destruct (Hfresh s).
    + rewrite list_lookup_insert_ne in Hs, Hs' by done. by eapply HB.
  - intros i vi x Hi Hs Hnot Hx.
    assert (i <> j) as Hne.
    { intros ->. apply Hnot. apply (list_elem_of_lookup_2 _ m).
      apply list_lookup_insert_eq. lia. }
    assert (R w (Fin vi)) as Hwi.
    { destruct (decide (Z.of_nat i ∈ st.2)) as [Hin|Hout].
      - apply list_elem_of_lookup_1 in Hin as [s Hin].
        destruct (decide (s = m)) as [->|Hsm].
        + destruct (HA m _ w Hin Hm) as [[? _]|(i' & v' & Hi' & _ & Hv' & ->)]; [lia|].
          apply Nat2Z.inj in Hi' as <-. assert (v' = vi) as -> by congruence. done.
        + destruct Hnot. apply (list_elem_of_lookup_2 _ s).
          by rewrite list_lookup_insert_ne.
      - apply (HC i vi w); [lia | done | done |]. by eapply list_elem_of_lookup_2. }
    apply list_elem_of_lookup_1 in Hx as [s Hx].
    destruct (decide (s = m)) as [->|Hsm].
    + rewrite list_lookup_insert_eq in Hx by lia. simplify_eq. by etrans.
    + rewrite list_lookup_insert_ne in Hx by done.
      etrans; [|exact Hwi]. eapply Forall_forall in Hw; [exact Hw|].
      by eapply list_elem_of_lookup_2.
Qed.

(** With at most as many slots as records, and no record as bad as the
    initial value, every slot holds a record in the end. *)
Lemma best_so_far_full (n : nat) (st : list xfloat * list Z) :
  best_so_far R sentinel score k n st -> k <= n ->
  (forall i, i < n -> exists v, score i = Some v /\ ~ R sentinel (Fin v)) ->
  forall s z, st.2 !! s = Some z -> (0 <= z)%Z.
Proof.
  intros (Hl1 & Hl2 & HA & HB & HC) Hkn Hscore s z Hz.
  destruct (Z.le_gt_cases 0 z) as [|Hneg]; [done | exfalso].
  destruct (lookup_lt_is_Some_2 st.1 s) as [x Hx];
    [rewrite Hl1, <- Hl2; by eapply lookup_lt_Some|].
  destruct (HA s z x Hz Hx) as [[-> ->]|(i & v' & ? & _)]; [|lia].
  destruct (decide (Forall (fun i => Z.of_nat i ∈ st.2) (seq 0 n))) as [Hall|Hex].
  - assert (((-1)%Z :: (Z.of_nat <$> seq 0 n)) ⊆+ st.2) as Hsub.
    { apply NoDup_submseteq.
      - constructor.
        + intros (i & ? & _)%list_elem_of_fmap. lia.
        + apply NoDup_fmap; [apply _ | apply NoDup_seq].
      - intros y [->|(i & -> & Hi)%list_elem_of_fmap]%elem_of_cons.
        + by eapply list_elem_of_lookup_2.
        + by eapply Forall_forall in Hall. }
    apply submseteq_length in Hsub. simpl in Hsub.
    rewrite length_fmap, length_seq in Hsub. lia.
  - apply not_Forall_Exists in Hex; [|apply _].
    apply Exists_exists in Hex as (i & Hi%elem_of_seq & Hout).
    destruct (Hscore i) as (v & Hv & Hbad); [lia|].
    apply Hbad. apply (HC i v sentinel); [lia | done | done |].
    by eapply list_elem_of_lookup_2.
Qed.

(** What the part of a query after the scan returns, when every slot
    holds a record. *)
Lemma ranking_answers (n : nat) (ss : list xfloat) (idxs : list Z) (order : list nat)
    (caps paths : list string) (ss' : list xfloat) (idxs' : list Z)
    (c p : list string) :
  order ≡ₚ seq 0 k ->
  best_so_far R sentinel score k n (ss, idxs) ->
  (forall s z, idxs !! s = Some z -> (0 <= z)%Z) ->
  np_take ss order = OK ss' -> np_take idxs order = OK idxs' ->
  comprehension (py_getitem caps) idxs' = OK c ->
  comprehension (py_getitem paths) idxs' = OK p ->
  let idx := Z.to_nat <$> idxs' in
  length idx = k /\ NoDup idx /\
  (forall p0 i, idx !! p0 = Some i ->
     exists v, score i = Some v /\ ss' !! p0 = Some (Fin v) /\
               is_Some (caps !! i) /\
               c !! p0 = caps !! i /\ p !! p0 = paths !! i) /\
  (forall i v, i < n -> score i = Some v -> i ∉ idx -> Forall (fun x => R x (Fin v)) ss').
Proof.
  intros Hperm (Hl1 & Hl2 & HA & HB & HC) Hreal Hs%np_take_OK Hi%np_take_OK
    Hc%comprehension_OK Hp%comprehension_OK idx. simpl in *.
  assert (Hlen : length order = k) by (rewrite Hperm; apply length_seq).
  assert (Hnodup : NoDup order) by (rewrite Hperm; apply NoDup_seq).
  assert (Hslot : forall p0 z, idxs' !! p0 = Some z ->
            exists s x i v, order !! p0 = Some s /\ idxs !! s = Some z /\
              ss !! s = Some x /\ ss' !! p0 = Some x /\
              z = Z.of_nat i /\ i < n /\ score i = Some v /\ x = Fin v).
  { intros p0 z Hz.
    destruct (Forall2_lookup_r _ _ _ _ _ Hi Hz) as (s & Hos & Hsz).
    destruct (Forall2_lookup_l _ _ _ _ _ Hs Hos) as (x & Hx' & Hx).
    destruct (HA s z x Hsz Hx) as [[-> _]|(i & v & ? & ? & ? & ?)].
    - specialize (Hreal s _ Hsz). lia.
    - by exists s, x, i, v. }
  split; [|split; [|split]].
  - unfold idx. rewrite length_fmap. apply Forall2_length in Hi. lia.
  - apply NoDup_alt. intros p1 p2 i.
    unfold idx. rewrite !list_lookup_fmap.
    intros (z1 & Hz1 & ->)%fmap_Some (z2 & Hz2 & Heq)%fmap_Some.
    destruct (Hslot _ _ Hz1) as (s1 & ? & i1 & ? & Ho1 & Hs1 & _ & _ & -> & _).
    destruct (Hslot _ _ Hz2) as (s2 & ? & i2 & ? & Ho2 & Hs2 & _ & _ & -> & _).
    rewrite !Nat2Z.id in Heq. subst i2.
    assert (s1 = s2) as -> by (eapply (HB s1 s2 (Z.of_nat i1)); [lia | done..]).
    by eapply NoDup_lookup.
  - intros p0 i. unfold idx. rewrite list_lookup_fmap.
    intros (z & Hz & ->)%fmap_Some.
    destruct (Hslot _ _ Hz) as (s & x & i & v & _ & _ & _ & Hx' & -> & _ & Hv & ->).
    rewrite Nat2Z.id. exists v.
    destruct (Forall2_lookup_l _ _ _ _ _ Hc Hz) as (y & Hy & Hget%py_getitem_nat).
    destruct (Forall2_lookup_l _ _ _ _ _ Hp Hz) as (y' & Hy' & Hget'%py_getitem_nat).
    repeat split; [done | done | by eexists | congruence | congruence].
  - intros i v Hin Hv Hout.
    assert (Z.of_nat i ∉ idxs) as Hnot.
    { intros [s Hsi]%list_elem_of_lookup_1.
      assert (s ∈ order) as [p0 Hp0]%list_elem_of_lookup_1.
      { rewrite Hperm. apply elem_of_seq. apply lookup_lt_Some in Hsi. lia. }
      destruct (Forall2_lookup_l _ _ _ _ _ Hi Hp0) as (z & Hz & Hz').
      apply Hout. apply (list_elem_of_lookup_2 _ p0). unfold idx.
      rewrite list_lookup_fmap, Hz. simpl. f_equal.
      assert (z = Z.of_nat i) as -> by congruence. apply Nat2Z.id. }
    apply Forall_lookup. intros p0 x Hx.
    destruct (Forall2_lookup_r _ _ _ _ _ Hs Hx) as (s & _ & Hsx).
    apply (HC i v x); [done | done | done |]. by eapply list_elem_of_lookup_2.
Qed.
End Best.

Section Nearest.
Context `{Externals}.

Lemma euclidean_round_best (self : DataManager) (q : list Q) (k j : nat)
    (st st' : list xfloat * list Z) (feature : list Q) :
  rows_of (features self) !! j = Some feature ->
  euclidean_round q st j feature = OK st' ->
  best_so_far xle PInf (record_distance self q) k j st ->
  best_so_far xle PInf (record_distance self q) k (S j) st'.
Proof.
  intros Hrow Hround Hbest. destruct st as [dists idxs]. simpl in Hround.
  apply bind_OK in Hround as (difference & Hsub & Hround).
  apply bind_OK in Hround as (m & Hm & Hround).
  apply bind_OK in Hround as (greatest & Hg & Hround).
  destruct (np_argmax_greatest _ _ Hm) as (w & Hw & Hmax).
  unfold np_getitem in Hg. rewrite Hw in Hg. simpl in Hg. simplify_eq.
  destruct (np_norm difference) as [distance|] eqn:Hnorm.
  - assert (record_distance self q j = Some distance) as Hscore.
    { unfold record_distance. rewrite Hrow. simpl. by rewrite Hsub, Hnorm. }
    match type of Hround with context [if ?b then _ else _] =>
      destruct b eqn:Hlt end; simplify_eq.
    + apply (best_so_far_replace xle PInf _ k j (dists, idxs) m greatest); try done.
      by apply xltb_true_le.
    + apply (best_so_far_skip xle PInf _ k j (dists, idxs) greatest distance);
        try done. by apply xltb_false_le.
  - assert (record_distance self q j = None) as Hscore.
    { unfold record_distance. rewrite Hrow. simpl. by rewrite Hsub, Hnorm. }
    simpl in Hround. simplify_eq. by apply best_so_far_pass.
Qed.


Lemma euclidean_scan_best (self : DataManager) (q : list Q) (k : nat)
    (st : list xfloat * list Z) :
  for_enumerate (euclidean_round q) 0 (rows_of (features self))
    (replicate k PInf, replicate k (-1)%Z) = OK st ->
  best_so_far xle PInf (record_distance self q) k
    (length (rows_of (features self))) st.
Proof.
  intros Hscan.
  apply (for_enumerate_inv
           (fun j => best_so_far xle PInf (record_distance self q) k j)
           _ _ 0 _ _ Hscan).
  - apply best_so_far_start.
  - intros st0 j feature st1 Hj Hround Hbest. simpl in *.
    by eapply euclidean_round_best.
Qed.

End Nearest.

(** ** The answers of the two queries *)

Section Answers.
Context `{Externals} `{!ExternalsSpec}.

Lemma euclidean_query_answer (self : DataManager) (query_feature : list Q) (k : Z) :
  aligned self ->
  rows_of (features self) <> [] ->
  (1 <= k <= Z.of_nat (length (rows_of (features self))))%Z ->
  Forall (fun feature => length feature = length query_feature)
         (rows_of (features self)) ->
  exists res idx,
    (query_knn_caption_brutal_force_euclidean_distance query_feature k self).1 = OK res /\
    length res.1.1 = Z.to_nat k /\ length res.1.2 = Z.to_nat k /\
    length res.2 = Z.to_nat k /\
    Forall (xle (Fin 0)) res.2 /\ non_decreasing res.2 /\
    (Forall (finite_distance query_feature) (rows_of (features self)) ->
     length idx = Z.to_nat k /\ NoDup idx /\
     (forall p i, idx !! p = Some i ->
        exists d, record_distance self query_feature i = Some d /\
                  answers self res p i d) /\
     (forall i d, record_distance self query_feature i = Some d -> i ∉ idx ->
        Forall (fun x => xle x (Fin d)) res.2)).
Proof.
  intros [Hal1 Hal2] Hne Hk Hrows.
  assert (Hn : 0 < length (rows_of (features self))).
  { destruct (rows_of (features self)); [done | simpl; lia]. }
  unfold query_knn_caption_brutal_force_euclidean_distance, euclidean_query; simpl.
  destruct (euclidean_scan_OK self query_feature (Z.to_nat k))
    as ([dists idxs] & Hscan & Hws); [lia | done |].
  pose proof (euclidean_scan_best _ _ _ _ Hscan) as Hbest.
  rewrite Hscan; simpl.
  pose proof Hws as (Hl1 & _); simpl in Hl1.
  assert (Hperm : np_argsort dists ≡ₚ seq 0 (Z.to_nat k))
    by (rewrite <- Hl1; apply np_argsort_perm).
  destruct (ranking_OK (xle (Fin 0)) (Z.to_nat k)
              (length (rows_of (features self))) dists idxs
              (np_argsort dists) (captions self) (frame_paths self))
    as (dists' & idxs' & c & p & Hs & Hi & Hcs & Hps & Hc & Hp & Hs' & Hpos);
    [done | done | done | lia | lia |].
  rewrite Hs; simpl. rewrite Hi; simpl. rewrite Hcs; simpl. rewrite Hps; simpl.
  exists (c, p, dists'), (Z.to_nat <$> idxs'). simpl.
  split; [done|]. split; [done|]. split; [done|]. split; [done|]. split; [done|].
  split; [by eapply argsort_non_decreasing|].
  intros Hfinite.
  assert (Hreal : forall s z, idxs !! s = Some z -> (0 <= z)%Z).
  { apply (best_so_far_full xle PInf (record_distance self query_feature)
             (Z.to_nat k) _ (dists, idxs) Hbest); [lia|].
    intros i Hi'. destruct (lookup_lt_is_Some_2 _ i Hi') as [feature Hf].
    destruct (Forall_lookup_1 _ _ _ _ Hfinite Hf) as (difference & d & Hsub & Hnorm).
    exists d. split; [|by intros []].
    unfold record_distance. rewrite Hf. simpl. by rewrite Hsub, Hnorm. }
  destruct (ranking_answers xle PInf (record_distance self query_feature) (Z.to_nat k)
              _ dists idxs (np_argsort dists) (captions self) (frame_paths self)
              dists' idxs' c p Hperm Hbest Hreal Hs Hi Hcs Hps)
    as (Hlen & Hnodup & Hans & Hout).
  split; [done|]. split; [done|]. split.
  - intros p0 i Hp0. destruct (Hans p0 i Hp0) as (d & Hd & ? & ? & ? & ?).
    exists d. by repeat split.
  - intros i d Hd Hnot. apply (Hout i d); [|done..].
    unfold record_distance in Hd.
    destruct (rows_of (features self) !! i) eqn:Hf; [|done].
    by eapply lookup_lt_Some.
Qed.

End Answers.



(** C2.  On an aligned, non-empty corpus of the dimensionality of the
    query, and for [1 <= k <= corpus size], the Euclidean query returns
    [k] captions, [k] frame paths and [k] distances; every distance is at
    least 0 (a number, or [np.inf]) and the distances do not decrease.
    Where no distance of a record has overflowed to [np.inf], the entries
    are [k] different records of the corpus, each with the distance, the
    caption and the frame path of its record. *)
Theorem euclidean_query_ranked `{Externals} `{!ExternalsSpec}
    (self : DataManager) (query_feature : list Q) (k : Z) :
  aligned self ->
  rows_of (features self) <> [] ->
  (1 <= k <= Z.of_nat (length (rows_of (features self))))%Z ->
  Forall (fun feature => length feature = length query_feature)
         (rows_of (features self)) ->
  exists caps paths dists,
    (query_knn_caption_brutal_force_euclidean_distance query_feature k self).1
      = OK (caps, paths, dists) /\
    length caps = Z.to_nat k /\ length paths = Z.to_nat k /\
    length dists = Z.to_nat k /\
    Forall (xle (Fin 0)) dists /\ non_decreasing dists /\
    (Forall (finite_distance query_feature) (rows_of (features self)) ->
     exists idx,
       length idx = Z.to_nat k /\ NoDup idx /\
       forall p i, idx !! p = Some i ->
         exists d, record_distance self query_feature i = Some d /\
                   answers self (caps, paths, dists) p i d).
Proof.
  intros Hal Hne Hk Hrows.
  destruct (euclidean_query_answer self query_feature k Hal Hne Hk Hrows)
    as ([[caps paths] dists] & idx & Hrun & Hc & Hp & Hd & Hpos & Hsorted & Hties).
  exists caps, paths, dists. repeat (split; [done|]).
  intros Hfinite. destruct (Hties Hfinite) as (Hlen & Hnodup & Hans & _).
  by exists idx.
Qed.

Lemma euclidean_query_ranked_witness :
  exists caps paths dists,
    (@query_knn_caption_brutal_force_euclidean_distance Exact.externals
       [1; 0]%Q 2 three_vectors).1 = OK (caps, paths, dists) /\
    length caps = 2 /\ length paths = 2 /\ length dists = 2 /\
    Forall (xle (Fin 0)) dists /\ non_decreasing dists /\
    exists idx,
      length idx = 2 /\ NoDup idx /\
      forall p i, idx !! p = Some i ->
        exists d, @record_distance Exact.externals three_vectors [1; 0]%Q i = Some d /\
                  answers three_vectors (caps, paths, dists) p i d.
Proof.
  destruct (@euclidean_query_ranked Exact.externals exact_spec three_vectors
              [1; 0]%Q 2) as (caps & paths & dists & Hrun & Hc & Hp & Hd & Hpos & Hs & Hties).
  - split; reflexivity.
  - discriminate.
  - simpl; lia.
  - repeat constructor.
  - exists caps, paths, dists. repeat (split; [done|]).
    apply Hties. repeat constructor; eexists _, _; split; vm_compute; reflexivity.
Defined.

(** The Euclidean query where a norm overflows: the distance of the first
    record is [np.inf], which is not below the initial [np.inf] of a slot;
    the slot stays as it was and comes back as the last record. *)
Example euclidean_overflow_scenario :
  (@query_knn_caption_brutal_force_euclidean_distance Exact.externals
     [0; 0]%Q 2 distant_vector).1
    = OK (["b"; "b"], ["b/1.jpg"; "b/1.jpg"], [Fin 1; PInf]).
Proof. vm_compute. reflexivity. Qed.

(** X1.  On an aligned, non-empty corpus of the dimensionality of the
    query none of whose distances to the query has overflowed to [np.inf],
    and for [1 <= k <= corpus size], the Euclidean query returns the [k]
    nearest records: the entries are [k] different records, each with
    its own distance, caption and frame path, and every record that is
    not returned is at least as far from the query as every entry. *)
Theorem euclidean_query_nearest `{Externals} `{!ExternalsSpec}
    (self : DataManager) (query_feature : list Q) (k : Z) :
  aligned self ->
  rows_of (features self) <> [] ->
  (1 <= k <= Z.of_nat (length (rows_of (features self))))%Z ->
  Forall (fun feature => length feature = length query_feature)
         (rows_of (features self)) ->
  Forall (finite_distance query_feature) (rows_of (features self)) ->
  exists res idx,
    (query_knn_caption_brutal_force_euclidean_distance query_feature k self).1 = OK res /\
    length idx = Z.to_nat k /\ NoDup idx /\
    (forall p i, idx !! p = Some i ->
       exists d, record_distance self query_feature i = Some d /\ answers self res p i d) /\
    (forall i d, record_distance self query_feature i = Some d -> i ∉ idx ->
       Forall (fun x => xle x (Fin d)) res.2).
Proof.
  intros Hal Hne Hk Hrows Hfinite.
  destruct (euclidean_query_answer self query_feature k Hal Hne Hk Hrows)
    as (res & idx & Hrun & _ & _ & _ & _ & _ & Hties).
  exists res, idx. split; [done|]. by apply Hties.
Qed.

Lemma euclidean_query_nearest_witness :
  exists res idx,
    (@query_knn_caption_brutal_force_euclidean_distance Exact.externals
       [1; 0]%Q 2 three_vectors).1 = OK res /\
    length idx = 2 /\ NoDup idx /\
    (forall p i, idx !! p = Some i ->
       exists d, @record_distance Exact.externals three_vectors [1; 0]%Q i = Some d /\
                 answers three_vectors res p i d) /\
    (forall i d, @record_distance Exact.externals three_vectors [1; 0]%Q i = Some d ->
       i ∉ idx -> Forall (fun x => xle x (Fin d)) res.2).
Proof.
  apply (@euclidean_query_nearest Exact.externals exact_spec three_vectors
           [1; 0]%Q 2).
  - split; reflexivity.
  - discriminate.
  - simpl; lia.
  - repeat constructor.
  - repeat constructor; eexists _, _; split; vm_compute; reflexivity.
Defined.



(** ** What corpus assembly appends *)

Lemma appends_refl (self : DataManager) : appends [] self self.
Proof.
  unfold appends; simpl. rewrite !app_nil_r. repeat split; done.
Qed.

Lemma appends_trans (r1 r2 : list (list Q * string * string)) (a b c : DataManager) :
  appends r1 a b -> appends r2 b c -> appends (r1 ++ r2) a c.
Proof.
  intros (Hf1 & Hc1 & Hp1 & Hs1) (Hf2 & Hc2 & Hp2 & Hs2).
  unfold appends. rewrite !fmap_app, !app_assoc, <- Hf1, <- Hc1, <- Hp1.
  repeat split; try done; by eapply same_stores_trans.
Qed.

Section Records.
Context `{Externals}.

Lemma read_rows_appends (seg caption : string) (kf : gset Z) (count : Z)
    (f : list string) (self self' : DataManager) :
  (0 <= count)%Z ->
  read_rows seg caption kf count f self = (OK tt, self') ->
  exists recs, appends recs self self' /\
    Forall (fun rec =>
      rec.1.2 = caption /\
      exists c line, (count <= c)%Z /\ c ∈ kf /\
        f !! Z.to_nat (c - count) = Some line /\
        parse_feature line = OK rec.1.1 /\
        video_seg_frame_path self !! (seg, c) = Some rec.2) recs.
Proof.
  revert count self. induction f as [|line rest IH]; intros count self Hcount; simpl.
  - intros [= <-]. exists []. split; [apply appends_refl | constructor].
  - intros (u & self1 & Hstep & Hrest)%method_bind_OK.
    apply IH in Hrest as (recs & Happ & Hrecs); [|lia].
    assert (Hshift : forall (store : gmap (string * Z) string),
              video_seg_frame_path self1 = store ->
              Forall (fun rec =>
                rec.1.2 = caption /\
                exists c line0, (count <= c)%Z /\ c ∈ kf /\
                  (line :: rest) !! Z.to_nat (c - count) = Some line0 /\
                  parse_feature line0 = OK rec.1.1 /\
                  store !! (seg, c) = Some rec.2) recs).
    { intros store <-. eapply Forall_impl; [exact Hrecs|].
      intros rec (Hcap & c & line0 & Hc & Hin & Hl & Hparse & Hpath).
      split; [done|]. exists c, line0. repeat split; try done; [lia|].
      replace (Z.to_nat (c - count)) with (S (Z.to_nat (c - (count + 1)))) by lia.
      done. }
    case_bool_decide as Hkf.
    + apply method_bind_OK in Hstep as (feature & s1 & [Hf ->]%lift_OK & Hstep).
      apply method_bind_OK in Hstep as ([] & s2 & Hfa & Hstep).
      unfold features_append in Hfa.
      destruct (features self) as [rows|] eqn:Hfeat; [|done].
      injection Hfa as <-.
      apply method_bind_OK in Hstep as ([] & s3 & [= <-] & Hstep).
      apply method_bind_OK in Hstep as (s & s4 & [= <- <-] & Hstep).
      apply method_bind_OK in Hstep as (path & s5 & [Hp ->]%lift_OK & Hstep).
      injection Hstep as Hs. subst self1. simpl in Hp.
      destruct (video_seg_frame_path self !! (seg, count)) as [path'|] eqn:Hpath;
        [|done]. injection Hp as ->.
      exists ((feature, caption, path) :: recs). split.
      * refine (appends_trans [(feature, caption, path)] recs _ _ _ _ Happ).
        unfold appends, same_stores; simpl. rewrite Hfeat; simpl. by repeat split.
      * constructor; [|by apply Hshift].
        split; [done|]. exists count, line.
        replace (count - count)%Z with 0%Z by lia. repeat split; try done; lia.
    + unfold mret, method_ret in Hstep. simplify_eq.
      exists recs. split; [done|]. by apply Hshift.
Qed.

Lemma load_feature_file_appends (fs : FileSystem) (root file : string)
    (self self' : DataManager) :
  load_feature_file fs root file self = (OK tt, self') ->
  exists recs, appends recs self self' /\
               Forall (key_frame_record fs self root file) recs.
Proof.
  unfold load_feature_file.
  destruct (endswith file ".txt") eqn:Hends; simpl.
  2: { intros [= <-]. exists []. split; [apply appends_refl | constructor]. }
  intros ([] & s1 & [_ ->]%lift_OK & Hrun)%method_bind_OK.
  apply method_bind_OK in Hrun as (segment_id & s2 & [Hint ->]%lift_OK & Hrun).
  apply method_bind_OK in Hrun as ([] & s3 & [= <-] & Hrun).
  apply method_bind_OK in Hrun as (s & s4 & [= <- <-] & Hrun).
  apply method_bind_OK in Hrun as (caption & s5 & [Hcap ->]%lift_OK & Hrun).
  apply method_bind_OK in Hrun as (f & s6 & [Hf ->]%lift_OK & Hrun).
  apply method_bind_OK in Hrun as (s & s7 & [= <- <-] & Hrun).
  apply method_bind_OK in Hrun as (kf & s8 & [Hkf ->]%lift_OK & Hrun).
  apply read_rows_appends in Hrun as (recs & Happ & Hrecs); [|lia].
  simpl in Hcap, Hkf. unfold open in Hf.
  destruct (video_seg_id_to_caption self !! _) as [caption'|] eqn:Hc; [|done].
  destruct (file_lines fs !! path_join root file) as [f'|] eqn:Hlines; [|done].
  destruct (key_frames self !! drop_last 4 file) as [kf'|] eqn:Hk; [|done].
  simpl in *. simplify_eq.
  exists recs. split.
  - destruct Happ as (?&?&?&?&?&?). by repeat split.
  - eapply Forall_impl; [exact Hrecs|].
    intros rec (Heq & c & line & Hc0 & Hin & Hl & Hparse & Hpath).
    split; [done|]. exists segment_id, kf, f, c, line.
    rewrite Z.sub_0_r in Hl. simpl in Hpath. rewrite Heq. by repeat split.
Qed.

Lemma key_frame_record_same_stores (fs : FileSystem) (self self' : DataManager)
    (root file : string) (rec : list Q * string * string) :
  same_stores self self' ->
  key_frame_record fs self' root file rec -> key_frame_record fs self root file rec.
Proof.
  intros (Hc & Hp & Hk). unfold key_frame_record. by rewrite Hc, Hp, Hk.
Qed.

Lemma for_each_file_appends (fs : FileSystem) (l : list (string * string))
    (self self' : DataManager) :
  for_each l (fun '(root, file) => load_feature_file fs root file) self = (OK tt, self') ->
  exists recs, appends recs self self' /\
    Forall (fun rec => exists root file,
              (root, file) ∈ l /\ key_frame_record fs self root file rec) recs.
Proof.
  revert self. induction l as [|[root file] l IH]; intros self; simpl.
  - intros [= <-]. exists []. split; [apply appends_refl | constructor].
  - intros ([] & self1 & Hfile & Hrest)%method_bind_OK.
    apply load_feature_file_appends in Hfile as (r1 & Happ1 & Hr1).
    apply IH in Hrest as (r2 & Happ2 & Hr2).
    exists (r1 ++ r2). split; [by eapply appends_trans|].
    apply Forall_app. split.
    + eapply Forall_impl; [exact Hr1|]. intros rec Hrec.
      exists root, file. split; [left | done].
    + eapply Forall_impl; [exact Hr2|]. intros rec (root' & file' & Hin & Hrec).
      exists root', file'. split; [by right|].
      destruct Happ1 as (_ & _ & _ & Hsame).
      by eapply key_frame_record_same_stores.
Qed.

Lemma load_features_appends (fs : FileSystem) (folder : string)
    (self self' : DataManager) :
  load_features fs folder self = (OK tt, self') ->
  exists recs, appends recs self self' /\
    Forall (fun rec => exists root file,
              (root, file) ∈ visited fs folder /\
              key_frame_record fs self root file rec) recs.
Proof.
  rewrite load_features_visited.
  intros ([] & self1 & Hloop & [= <-])%method_bind_OK.
  apply for_each_file_appends in Hloop as (recs & Happ & Hrecs).
  exists recs. split; [|done].
  destruct Happ as (?&?&?&?&?&?). by repeat split.
Qed.

Lemma read_rows_features (seg caption : string) (kf : gset Z) (count : Z)
    (f : list string) (self self' : DataManager) (acc : list (list Q)) :
  read_rows seg caption kf count f self = (OK tt, self') ->
  exists rows, frame_features_loop kf count f acc = OK (acc ++ rows) /\
               rows_of (features self') = rows_of (features self) ++ rows /\
               video_seg_feature_path self' = video_seg_feature_path self.
Proof.
  revert count self acc. induction f as [|line rest IH]; intros count self acc; simpl.
  - intros [= <-]. exists []. by rewrite !app_nil_r.
  - intros (u & self1 & Hstep & Hrest)%method_bind_OK.
    case_bool_decide as Hkf.
    + apply method_bind_OK in Hstep as (feature & s1 & [Hf ->]%lift_OK & Hstep).
      apply method_bind_OK in Hstep as ([] & s2 & Hfa & Hstep).
      unfold features_append in Hfa.
      destruct (features self) as [rows|] eqn:Hfeat; [|done].
      injection Hfa as <-.
      apply method_bind_OK in Hstep as ([] & s3 & [= <-] & Hstep).
      apply method_bind_OK in Hstep as (s & s4 & [= <- <-] & Hstep).
      apply method_bind_OK in Hstep as (path & s5 & [Hp ->]%lift_OK & Hstep).
      injection Hstep as Hs. subst self1.
      destruct (IH _ _ (acc ++ [feature]) Hrest) as (rows' & Hloop & Hrows & Hfp).
      exists (feature :: rows'). rewrite Hf; simpl.
      rewrite Hloop, Hrows, Hfp; simpl. by rewrite <- !app_assoc.
    + unfold mret, method_ret in Hstep. simplify_eq. by apply IH.
Qed.
End Records.

(** X3.  When [load_features] returns on an empty corpus, every record of
    the corpus stands for a key frame of a feature file of the walk: its
    vector is the line of the file with the number of the frame, its
    caption the caption of the segment that the file is named after, its
    frame path the path stored for that segment and frame. *)
Theorem load_features_records `{Externals} (fs : FileSystem) (folder : string)
    (self self' : DataManager) :
  rows_of (features self) = [] -> captions self = [] -> frame_paths self = [] ->
  load_features fs folder self = (OK tt, self') ->
  forall i feature caption path,
    rows_of (features self') !! i = Some feature ->
    captions self' !! i = Some caption ->
    frame_paths self' !! i = Some path ->
    exists root file,
      (root, file) ∈ visited fs folder /\
      key_frame_record fs self root file (feature, caption, path).
Proof.
  intros Hrows Hcaps Hpaths (recs & (Hf & Hc & Hp & _) & Hrecs)%load_features_appends
    i feature caption path.
  rewrite Hf, Hc, Hp, Hrows, Hcaps, Hpaths. simpl.
  rewrite !list_lookup_fmap.
  destruct (recs !! i) as [[[feature' caption'] path']|] eqn:Hi; simpl; [|done].
  intros [= <-] [= <-] [= <-].
  by eapply Forall_lookup_1 in Hrecs.
Qed.

Lemma load_features_records_witness :
  exists root file,
    (root, file) ∈ visited one_segment "features" /\
    @key_frame_record Exact.externals one_segment stores_loaded root file
      ([1; 1]%Q, "a man plays", "frames/v_QOlSCBRmfWY0/3.jpg").
Proof.
  apply (@load_features_records Exact.externals one_segment "features" stores_loaded
           (@load_features Exact.externals one_segment "features" stores_loaded).2
           eq_refl eq_refl eq_refl) with (i := 1).
  - vm_compute. reflexivity.
  - vm_compute. reflexivity.
  - vm_compute. reflexivity.
  - vm_compute. reflexivity.
Defined.

(** ** Corpus assembly, whatever its outcome *)

Lemma for_each_outcome {A} (T : result unit -> relation DataManager)
    (l : list A) (body : A -> method unit) (self : DataManager) :
  (forall r s, T r s s) ->
  (forall r a b c, T (OK tt) a b -> T r b c -> T r a c) ->
  (forall x s, x ∈ l -> T (body x s).1 s (body x s).2) ->
  T (for_each l body self).1 self (for_each l body self).2.
Proof.
  intros Hrefl Htrans Hbody. revert self.
  induction l as [|x l IH]; intros self; simpl; [apply Hrefl|].
  rewrite method_bind_unfold.
  pose proof (Hbody x self ltac:(left)) as Hx.
  destruct (body x self) as [[[]|e] self1]; simpl in *; [|done].
  eapply Htrans; [exact Hx|]. apply IH. intros y s Hy. apply Hbody. by right.
Qed.

Lemma keeps_corpus_refl (self : DataManager) : keeps_corpus self self.
Proof. repeat split; done. Qed.

Lemma keeps_corpus_trans (a b c : DataManager) :
  keeps_corpus a b -> keeps_corpus b c -> keeps_corpus a c.
Proof.
  intros (Hf1 & Hc1 & Hp1 & Hs1 & Hr1) (Hf2 & Hc2 & Hp2 & Hs2 & Hr2).
  split; [by etrans|]. split; [by etrans|]. split; [by etrans|].
  split; [by eapply same_stores_trans | congruence].
Qed.

Lemma for_each_result {A} (T : result unit -> relation DataManager)
    (l : list A) (body : A -> method unit) (self : DataManager) :
  (forall s, T (OK tt) s s) ->
  (forall r a b c, T (OK tt) a b -> T r b c -> T r a c) ->
  (forall x s, x ∈ l -> T (body x s).1 s (body x s).2) ->
  T (for_each l body self).1 self (for_each l body self).2.
Proof.
  intros Hrefl Htrans Hbody. revert self.
  induction l as [|x l IH]; intros self; simpl; [apply Hrefl|].
  rewrite method_bind_unfold.
  pose proof (Hbody x self ltac:(left)) as Hx.
  destruct (body x self) as [[[]|e] self1]; simpl in *; [|done].
  eapply Htrans; [exact Hx|]. apply IH. intros y s Hy. apply Hbody. by right.
Qed.

Lemma frame_path_missing_OK (self : DataManager) : ~ frame_path_missing self (OK tt).
Proof. by intros (seg & count & [=] & _). Qed.

Lemma frame_path_missing_other (self : DataManager) (e : exn) :
  (forall seg count, e = KeyError (KPair seg count) -> len seg < 14) ->
  ~ frame_path_missing self (Raise e).
Proof.
  intros He (seg & count & [= ->] & Hlen & _).
  specialize (He seg count eq_refl). lia.
Qed.

Lemma assembly_outcome_stop (r : result unit) (self : DataManager) :
  ~ frame_path_missing self r -> assembly_outcome r self self.
Proof.
  intros Hr. split; [apply keeps_corpus_refl|]. exists 0. rewrite !Nat.add_0_r. auto.
Qed.

Lemma assembly_outcome_trans (r : result unit) (a b c : DataManager) :
  assembly_outcome (OK tt) a b -> assembly_outcome r b c -> assembly_outcome r a c.
Proof.
  intros [Hk1 (m1 & Hf1 & Hc1 & Hp1)] [Hk2 (m2 & Hf2 & Hc2 & Hp2)].
  split; [by eapply keeps_corpus_trans|].
  exists (m1 + m2). split; [lia|]. split; [lia|].
  destruct Hp1 as [[_ Hp1]|[[]%frame_path_missing_OK _]].
  assert (Hsame : frame_path_missing b r <-> frame_path_missing a r).
  { destruct Hk1 as (_ & _ & _ & (_ & Hpaths & _) & _).
    unfold frame_path_missing. by rewrite Hpaths. }
  destruct Hp2 as [[Hr Hp2]|[Hr Hp2]]; [left | right];
    (split; [by rewrite <- Hsame | lia]).
Qed.

Lemma len_str_take (n : nat) (s : string) : len (str_take n s) <= n.
Proof.
  unfold len, str_take, str, chars.
  rewrite String.list_ascii_of_string_of_list_ascii, length_take. lia.
Qed.

Lemma py_int_Raise (s : string) (e : exn) : py_int s = Raise e -> e = ValueError.
Proof.
  unfold py_int. by match goal with |- context [lookup_or ValueError ?o] =>
    destruct o end; simpl; intros [=].
Qed.

Section Outcome.
Context `{Externals}.

Lemma parse_feature_Raise (line : string) (e : exn) :
  parse_feature line = Raise e -> e = ValueError.
Proof.
  unfold parse_feature. intros (item & _ & Hitem)%comprehension_Raise.
  by destruct (py_float (str item)); simpl in Hitem; simplify_eq.
Qed.

Lemma read_rows_outcome (seg caption : string) (kf : gset Z) (count : Z)
    (f : list string) (self : DataManager) :
  14 <= len seg ->
  assembly_outcome (read_rows seg caption kf count f self).1 self
                   (read_rows seg caption kf count f self).2.
Proof.
  intros Hseg. revert count self.
  induction f as [|line rest IH]; intros count self; simpl;
    [apply assembly_outcome_stop, frame_path_missing_OK|].
  case_bool_decide as Hkf.
  2: { rewrite method_bind_unfold. apply IH. }
  unfold mbind, method_bind, lift, features_append, captions_append,
    frame_paths_append, modify, get.
  destruct (parse_feature line) as [feature|e] eqn:Hparse; simpl.
  2: { apply assembly_outcome_stop, frame_path_missing_other.
       intros seg' count' ->. by apply parse_feature_Raise in Hparse. }
  destruct (features self) as [rows|rows] eqn:Hfeat; simpl;
    [|by apply assembly_outcome_stop, frame_path_missing_other].
  destruct (video_seg_frame_path self !! (seg, count)) as [path|] eqn:Hpath; simpl.
  - eapply assembly_outcome_trans; [|apply IH].
    split.
    + unfold keeps_corpus, same_stores; simpl. rewrite Hfeat; simpl.
      repeat split; try done; by apply prefix_app_r.
    + exists 1. simpl. rewrite Hfeat; simpl. rewrite !length_app; simpl.
      split; [done|]. split; [done|]. left.
      split; [apply frame_path_missing_OK | done].
  - split.
    + unfold keeps_corpus, same_stores; simpl. rewrite Hfeat; simpl.
      repeat split; try done; by apply prefix_app_r.
    + exists 1. simpl. rewrite Hfeat; simpl. rewrite !length_app; simpl.
      split; [done|]. split; [done|]. right.
      split; [by exists seg, count | lia].
Qed.

Lemma load_feature_file_outcome (fs : FileSystem) (root file : string)
    (self : DataManager) :
  assembly_outcome (load_feature_file fs root file self).1 self
                   (load_feature_file fs root file self).2.
Proof.
  unfold load_feature_file.
  destruct (endswith file ".txt"); cbn [negb];
    [|apply assembly_outcome_stop, frame_path_missing_OK].
  unfold mbind, method_bind, lift, modify, get, py_assert, open.
  destruct (14 <=? len (drop_last 4 file)) eqn:Hlen;
    [|by apply assembly_outcome_stop, frame_path_missing_other].
  apply Nat.leb_le in Hlen.
  destruct (py_int _) as [segment_id|e] eqn:Hint.
  2: { apply assembly_outcome_stop, frame_path_missing_other.
       intros seg' count' ->. by apply py_int_Raise in Hint. }
  cbn [video_seg_id_to_caption set_video_seg_feature_path].
  destruct (video_seg_id_to_caption self !! _) as [caption|]; cbn [lookup_or].
  2: { apply (assembly_outcome_stop _ self), frame_path_missing_other.
       intros seg' count' [= <- _].
       pose proof (len_str_take 13 (drop_last 4 file)). lia. }
  destruct (file_lines fs !! _) as [f|]; cbn [lookup_or];
    [|by apply (assembly_outcome_stop _ self), frame_path_missing_other].
  cbn [key_frames set_video_seg_feature_path].
  destruct (key_frames self !! _) as [kf|]; cbn [lookup_or];
    [|by apply (assembly_outcome_stop _ self), frame_path_missing_other].
  eapply assembly_outcome_trans; [|by apply read_rows_outcome].
  apply (assembly_outcome_stop _ self), frame_path_missing_OK.
Qed.

Lemma load_features_assembly_outcome (fs : FileSystem) (folder : string)
    (self : DataManager) :
  assembly_outcome (load_features fs folder self).1 self
                   (load_features fs folder self).2.
Proof.
  rewrite load_features_visited, method_bind_unfold.
  pose proof (for_each_result assembly_outcome (visited fs folder)
                (fun '(root, file) => load_feature_file fs root file) self
                (fun s => assembly_outcome_stop _ s (frame_path_missing_OK s))
                assembly_outcome_trans) as Hloop.
  destruct (for_each _ _ self) as [[[]|e] self1]; simpl in *.
  - eapply assembly_outcome_trans.
    + apply Hloop. intros [root file] s _. apply load_feature_file_outcome.
    + apply (assembly_outcome_stop _ self1), frame_path_missing_OK.
  - apply Hloop. intros [root file] s _. apply load_feature_file_outcome.
Qed.
End Outcome.

(** X4.  Whatever its outcome, [load_features] on an aligned corpus
    leaves the records held before where they were and the stores it
    reads as they were, with as many vectors as captions.  When the call
    stops at the lookup of a frame path that is not stored, the frame
    paths are exactly one short; on every other outcome they are as many
    as the captions. *)
Theorem load_features_outcome `{Externals} (fs : FileSystem) (folder : string)
    (self : DataManager) :
  aligned self ->
  keeps_corpus self (load_features fs folder self).2 /\
  length (rows_of (features (load_features fs folder self).2)) =
    length (captions (load_features fs folder self).2) /\
  ((frame_path_missing self (load_features fs folder self).1 /\
    S (length (frame_paths (load_features fs folder self).2)) =
      length (captions (load_features fs folder self).2)) \/
   (~ frame_path_missing self (load_features fs folder self).1 /\
    length (frame_paths (load_features fs folder self).2) =
      length (captions (load_features fs folder self).2))).
Proof.
  intros [Hfc Hcp].
  destruct (load_features_assembly_outcome fs folder self)
    as [Hkeep (m & Hf & Hc & Hp)].
  split; [done|]. split; [lia|].
  destruct Hp as [[Hr Hp]|[Hr Hp]]; [right | left]; (split; [done | lia]).
Qed.

Lemma load_features_outcome_witness :
  keeps_corpus frame_paths_missing
    (@load_features Exact.externals one_segment "features" frame_paths_missing).2 /\
  length (rows_of (features
    (@load_features Exact.externals one_segment "features" frame_paths_missing).2)) =
    length (captions
      (@load_features Exact.externals one_segment "features" frame_paths_missing).2) /\
  ((frame_path_missing frame_paths_missing
      (@load_features Exact.externals one_segment "features" frame_paths_missing).1 /\
    S (length (frame_paths
         (@load_features Exact.externals one_segment "features" frame_paths_missing).2)) =
      length (captions
        (@load_features Exact.externals one_segment "features" frame_paths_missing).2)) \/
   (~ frame_path_missing frame_paths_missing
        (@load_features Exact.externals one_segment "features" frame_paths_missing).1 /\
    length (frame_paths
      (@load_features Exact.externals one_segment "features" frame_paths_missing).2) =
      length (captions
        (@load_features Exact.externals one_segment "features" frame_paths_missing).2))).
Proof.
  apply (@load_features_outcome Exact.externals one_segment "features"
           frame_paths_missing).
  split; reflexivity.
Defined.

(** ** Corpus assembly after the conversion to an array *)

Lemma same_corpus_refl (self : DataManager) : same_corpus self self.
Proof. by repeat split. Qed.

Section Converted.
Context `{Externals}.

Lemma read_rows_converted (seg caption : string) (kf : gset Z) (count : Z)
    (f : list string) (self : DataManager) (rows : list (list Q)) :
  features self = NdArray rows ->
  video_seg_feature_path (read_rows seg caption kf count f self).2 =
    video_seg_feature_path self /\
  same_corpus self (read_rows seg caption kf count f self).2.
Proof.
  intros Hfeat. revert count. induction f as [|line rest IH]; intros count; simpl;
    [split; [done | apply same_corpus_refl]|].
  case_bool_decide as Hkf.
  2: { rewrite method_bind_unfold. apply IH. }
  unfold mbind, method_bind, lift, features_append.
  destruct (parse_feature line) as [feature|e]; simpl;
    [|split; [done | apply same_corpus_refl]].
  rewrite Hfeat; simpl. split; [done | apply same_corpus_refl].
Qed.

Lemma load_feature_file_converted (fs : FileSystem) (root file : string)
    (self : DataManager) (rows : list (list Q)) :
  features self = NdArray rows ->
  same_corpus self (load_feature_file fs root file self).2.
Proof.
  intros Hfeat. unfold load_feature_file.
  destruct (endswith file ".txt"); simpl; [|apply same_corpus_refl].
  unfold mbind, method_bind, lift, modify, get.
  destruct (py_assert _); simpl; [|apply same_corpus_refl].
  destruct (py_int _) as [segment_id|e]; simpl; [|apply same_corpus_refl].
  destruct (video_seg_id_to_caption self !! _) as [caption|]; simpl;
    [|exact (same_corpus_refl self)].
  destruct (open fs _) as [f|e]; simpl; [|exact (same_corpus_refl self)].
  destruct (key_frames self !! _) as [kf|]; simpl; [|exact (same_corpus_refl self)].
  match goal with
  | |- same_corpus _ (read_rows ?seg ?caption ?kf ?count ?f ?s).2 =>
      exact (proj2 (read_rows_converted seg caption kf count f s rows Hfeat))
  end.
Qed.
End Converted.

(** X5.  Once the vectors are an array, which is how a first
    [load_features] and [normalize_features] leave them, a further
    [load_features] adds no record: whatever its outcome the three corpus
    sequences are the ones before the call, and it can only return when
    the folder holds no record at all. *)
Theorem load_features_after_conversion `{Externals} (fs : FileSystem)
    (folder : string) (self : DataManager) (rows : list (list Q)) :
  features self = NdArray rows ->
  same_corpus self (load_features fs folder self).2 /\
  ((load_features fs folder self).1 = OK tt -> expected_records fs folder self = 0).
Proof.
  intros Hfeat.
  assert (Hcorpus : same_corpus self (load_features fs folder self).2); [|split; [done|]].
  - rewrite load_features_visited, method_bind_unfold.
    pose proof (for_each_outcome
      (fun _ s s' => features s = NdArray rows -> same_corpus s s')
      (visited fs folder) (fun '(root, file) => load_feature_file fs root file) self)
      as Hloop.
    simpl in Hloop.
    assert (Hsame : same_corpus self
              (for_each (visited fs folder)
                 (fun '(root, file) => load_feature_file fs root file) self).2).
    { apply Hloop; [intros; apply same_corpus_refl | | | done].
      - intros _ a b c Hab Hbc Ha. destruct (Hab Ha) as (Hf & Hc & Hp).
        destruct Hbc as (Hf' & Hc' & Hp'); [congruence|].
        repeat split; congruence.
      - intros [root file] s _ Hs. by eapply load_feature_file_converted. }
    destruct (for_each _ _ self) as [[[]|e] self1]; simpl in *; [|done].
    destruct Hsame as (Hf & Hc & Hp). repeat split; simpl; [|done..].
    by rewrite Hf, Hfeat.
  - destruct (load_features fs folder self) as [r self'] eqn:Hrun. simpl.
    simpl in Hcorpus. destruct Hcorpus as (Hf & _).
    intros ->. apply load_features_grows in Hrun as (Hlen & _).
    rewrite Hf in Hlen. lia.
Qed.

Lemma load_features_after_conversion_witness :
  same_corpus corpus_assembled
    (@load_features Exact.externals one_segment "features" corpus_assembled).2 /\
  ((@load_features Exact.externals one_segment "features" corpus_assembled).1 = OK tt ->
   expected_records one_segment "features" corpus_assembled = 0).
Proof.
  apply (@load_features_after_conversion Exact.externals one_segment "features"
           corpus_assembled (rows_of (features corpus_assembled))).
  vm_compute. reflexivity.
Defined.

(** ** Reading the vectors of a segment back *)

Section Retrieval.
Context `{Externals}.

Lemma get_frames_features_stores (fs : FileSystem) (seg : string)
    (self self' : DataManager) :
  key_frames self' !! seg = key_frames self !! seg ->
  video_seg_feature_path self' !! seg = video_seg_feature_path self !! seg ->
  (get_frames_features fs seg self').1 = (get_frames_features fs seg self).1.
Proof. unfold get_frames_features; simpl. by intros -> ->. Qed.

Lemma load_feature_file_features (fs : FileSystem) (root file : string)
    (self self' : DataManager) :
  endswith file ".txt" = true ->
  load_feature_file fs root file self = (OK tt, self') ->
  exists rows,
    (get_frames_features fs (drop_last 4 file) self').1 = OK rows /\
    rows_of (features self') = rows_of (features self) ++ rows.
Proof.
  intros Hends. unfold load_feature_file. rewrite Hends. simpl.
  intros ([] & s1 & [_ ->]%lift_OK & Hrun)%method_bind_OK.
  apply method_bind_OK in Hrun as (segment_id & s2 & [Hint ->]%lift_OK & Hrun).
  apply method_bind_OK in Hrun as ([] & s3 & [= <-] & Hrun).
  apply method_bind_OK in Hrun as (s & s4 & [= <- <-] & Hrun).
  apply method_bind_OK in Hrun as (caption & s5 & [Hcap ->]%lift_OK & Hrun).
  apply method_bind_OK in Hrun as (f & s6 & [Hf ->]%lift_OK & Hrun).
  apply method_bind_OK in Hrun as (s & s7 & [= <- <-] & Hrun).
  apply method_bind_OK in Hrun as (kf & s8 & [Hkf ->]%lift_OK & Hrun).
  pose proof Hrun as (_ & _ & _ & _ & _ & Hkeys)%read_rows_grows.
  apply (read_rows_features _ _ _ _ _ _ _ []) in Hrun as (rows & Hloop & Hrows & Hpath).
  simpl in Hkf, Hkeys, Hrows, Hpath.
  exists rows. split; [|done].
  unfold get_frames_features; simpl.
  rewrite Hkeys, Hpath, lookup_insert_eq; simpl.
  destruct (key_frames self !! drop_last 4 file) as [kf'|]; [|done].
  simpl in *. injection Hkf as ->. rewrite Hf; simpl. by rewrite Hloop.
Qed.

Lemma load_feature_file_other (fs : FileSystem) (root file seg : string)
    (self self' : DataManager) :
  ~ (endswith file ".txt" = true /\ drop_last 4 file = seg) ->
  load_feature_file fs root file self = (OK tt, self') ->
  video_seg_feature_path self' !! seg = video_seg_feature_path self !! seg.
Proof.
  intros Hother. unfold load_feature_file.
  destruct (endswith file ".txt") eqn:Hends; simpl; [|by intros [= <-]].
  intros ([] & s1 & [_ ->]%lift_OK & Hrun)%method_bind_OK.
  apply method_bind_OK in Hrun as (segment_id & s2 & [Hint ->]%lift_OK & Hrun).
  apply method_bind_OK in Hrun as ([] & s3 & [= <-] & Hrun).
  apply method_bind_OK in Hrun as (s & s4 & [= <- <-] & Hrun).
  apply method_bind_OK in Hrun as (caption & s5 & [Hcap ->]%lift_OK & Hrun).
  apply method_bind_OK in Hrun as (f & s6 & [Hf ->]%lift_OK & Hrun).
  apply method_bind_OK in Hrun as (s & s7 & [= <- <-] & Hrun).
  apply method_bind_OK in Hrun as (kf & s8 & [Hkf ->]%lift_OK & Hrun).
  apply (read_rows_features _ _ _ _ _ _ _ []) in Hrun as (rows & _ & _ & Hpath).
  rewrite Hpath; simpl. apply lookup_insert_ne. intros Heq. by apply Hother.
Qed.

Lemma load_feature_file_reads_back (fs : FileSystem) (root file : string)
    (self self' : DataManager) :
  endswith file ".txt" = true ->
  load_feature_file fs root file self = (OK tt, self') ->
  exists recs,
    (get_frames_features fs (drop_last 4 file) self').1 = OK recs.*1.*1 /\
    appends recs self self' /\
    length recs = segment_records fs self root file /\
    Forall (key_frame_record fs self root file) recs.
Proof.
  intros Hends Hfile.
  destruct (load_feature_file_features _ _ _ _ _ Hends Hfile) as (rows & Hget & Hrows).
  destruct (load_feature_file_appends _ _ _ _ _ Hfile) as (recs & Happ & Hrecs).
  pose proof (load_feature_file_grows _ _ _ _ _ Hfile) as (Hlen & _).
  pose proof Happ as (Hrows' & _).
  rewrite Hrows' in Hrows. apply app_inv_head in Hrows. subst rows.
  exists recs. split; [done|]. split; [done|]. split; [|done].
  rewrite Hrows', length_app, !length_fmap in Hlen. lia.
Qed.

Lemma for_each_file_reads_back (fs : FileSystem) (l : list (string * string))
    (seg : string) (self self' : DataManager) :
  for_each l (fun '(root, file) => load_feature_file fs root file) self = (OK tt, self') ->
  (video_seg_feature_path self' !! seg = video_seg_feature_path self !! seg \/
   exists rows,
     (get_frames_features fs seg self').1 = OK rows /\
     reads_back fs l self self' seg rows) /\
  (Exists (fun x => endswith x.2 ".txt" = true /\ drop_last 4 x.2 = seg) l ->
   exists rows,
     (get_frames_features fs seg self').1 = OK rows /\
     reads_back fs l self self' seg rows).
Proof.
  revert self. induction l as [|[root file] l IH]; intros self; simpl.
  - intros [= <-]. split; [by left | by intros ?%Exists_nil].
  - intros ([] & self1 & Hfile & Hrest)%method_bind_OK.
    destruct (IH _ Hrest) as [Hlater Hin].
    pose proof Hrest as (rest & Hrest_app & _)%for_each_file_appends.
    pose proof Hfile as (first & Hfirst_app & _)%load_feature_file_appends.
    pose proof Hfirst_app as (_ & _ & _ & Hsame).
    assert (Hfound : forall rows,
              reads_back fs l self1 self' seg rows ->
              reads_back fs ((root, file) :: l) self self' seg rows).
    { intros rows (root' & file' & b & recs & a & Hmem & Hends & Hname & Happ &
                   Hrows & Hlen & Hrecs).
      exists root', file', (first ++ b), recs, a.
      split; [by right|]. split; [done|]. split; [done|].
      split; [rewrite <- app_assoc; by eapply appends_trans|]. split; [done|].
      split; [by rewrite <- (segment_records_same_stores fs self self1)|].
      eapply Forall_impl; [exact Hrecs|]. intros rec.
      by apply key_frame_record_same_stores. }
    assert (Hhere : endswith file ".txt" = true /\ drop_last 4 file = seg ->
              exists rows,
                (get_frames_features fs seg self').1 = OK rows /\
                reads_back fs ((root, file) :: l) self self' seg rows).
    { intros [Hends <-].
      destruct Hlater as [Hpath|(rows & Hget & Hback)];
        [|exists rows; split; [done | by apply Hfound]].
      destruct (load_feature_file_reads_back _ _ _ _ _ Hends Hfile)
        as (recs & Hget & Happ & Hlen & Hrecs).
      exists recs.*1.*1. split.
      - rewrite <- Hget. apply get_frames_features_stores; [|done].
        destruct Hrest_app as (_ & _ & _ & _ & _ & Hkeys). by rewrite Hkeys.
      - exists root, file, [], recs, rest.
        split; [left|]. split; [done|]. split; [done|].
        split; [exact (appends_trans _ _ _ _ _ Happ Hrest_app)|]. by repeat split. }
    split.
    + destruct (decide (endswith file ".txt" = true /\ drop_last 4 file = seg))
        as [Hthis|Hother]; [right; by apply Hhere|].
      destruct Hlater as [Hpath|(rows & Hget & Hback)].
      * left. rewrite Hpath. by eapply load_feature_file_other.
      * right. exists rows. split; [done | by apply Hfound].
    + intros [Hthis|Hex]%Exists_cons; [by apply Hhere|].
      destruct (Hin Hex) as (rows & Hget & Hback).
      exists rows. split; [done | by apply Hfound].
Qed.
End Retrieval.

(** X6.  After a [load_features] that returns, the vectors of every
    segment that has a feature file in the walk are read back by
    [get_frames_features]: it returns for the name of the segment, and
    what it returns are the vectors of the records that a feature file of
    that segment has contributed to the corpus, in their order: as many
    as the key frames of the segment that number a line of the file, each
    the vector of such a line, standing one after the other in the
    corpus with the caption of the segment and the paths of the frames. *)
Theorem load_features_get_frames_features `{Externals} (fs : FileSystem)
    (folder root file : string) (self self' : DataManager) :
  load_features fs folder self = (OK tt, self') ->
  (root, file) ∈ visited fs folder ->
  endswith file ".txt" = true ->
  exists rows,
    (get_frames_features fs (drop_last 4 file) self').1 = OK rows /\
    reads_back fs (visited fs folder) self self' (drop_last 4 file) rows.
Proof.
  rewrite load_features_visited.
  intros ([] & self1 & Hloop & [= <-])%method_bind_OK Hin Hends.
  apply (for_each_file_reads_back _ _ (drop_last 4 file)) in Hloop as [_ Hloop].
  destruct Hloop as (rows & Hget & Hback).
  - apply Exists_exists. by exists (root, file).
  - exists rows. split; [exact Hget|].
    destruct Hback as (root' & file' & b & recs & a & Hmem & Hends' & Hname &
                       (Hr & Hc & Hp & Hs) & Hrest).
    exists root', file', b, recs, a.
    split; [done|]. split; [done|]. split; [done|]. split; [|done].
    split; [exact Hr|]. split; [exact Hc|]. split; [exact Hp | exact Hs].
Qed.

Lemma load_features_get_frames_features_witness :
  exists rows,
    (@get_frames_features Exact.externals one_segment "v_QOlSCBRmfWY0"
       corpus_assembled).1 = OK rows /\
    @reads_back Exact.externals one_segment (visited one_segment "features")
      stores_loaded corpus_assembled "v_QOlSCBRmfWY0" rows.
Proof.
  apply (@load_features_get_frames_features Exact.externals one_segment
           "features" "features" "v_QOlSCBRmfWY0.txt" stores_loaded corpus_assembled).
  - vm_compute. reflexivity.
  - vm_compute. right. left.
  - reflexivity.
Defined.

(** ** The caption store *)

Lemma keeps_but_captions_refl (self : DataManager) : keeps_but_captions self self.
Proof. by repeat split. Qed.

Lemma keeps_but_captions_trans (a b c : DataManager) :
  keeps_but_captions a b -> keeps_but_captions b c -> keeps_but_captions a c.
Proof.
  intros (?&?&?&?&?&?) (?&?&?&?&?&?). repeat split; congruence.
Qed.

Lemma load_segments_run (video_name : string) (sentences : list string)
    (n a : nat) (self : DataManager) :
  a + n <= length sentences ->
  exists self',
    for_each (seq a n) (fun seg_id =>
      sentence ← lift (lookup_or IndexError (sentences !! seg_id));
      modify (fun self =>
        set_video_seg_id_to_caption
          (<[(video_name, Z.of_nat seg_id) := sentence]> (video_seg_id_to_caption self))
          self)) self = (OK tt, self') /\
    (forall i s, a <= i < a + n -> sentences !! i = Some s ->
       video_seg_id_to_caption self' !! (video_name, Z.of_nat i) = Some s) /\
    (forall video z, ~ (video = video_name /\ (Z.of_nat a <= z < Z.of_nat (a + n))%Z) ->
       video_seg_id_to_caption self' !! (video, z) =
       video_seg_id_to_caption self !! (video, z)) /\
    raw_captions self' = raw_captions self /\
    keeps_but_captions self self'.
Proof.
  revert a self. induction n as [|n IH]; intros a self Hlen; simpl.
  - exists self. split; [done|]. split; [lia|]. split; [done|].
    split; [done | apply keeps_but_captions_refl].
  - destruct (lookup_lt_is_Some_2 sentences a ltac:(lia)) as [s0 Hs0].
    destruct (IH (S a)
      (set_video_seg_id_to_caption
         (<[(video_name, Z.of_nat a) := s0]> (video_seg_id_to_caption self)) self)
      ltac:(lia)) as (self' & Hrun & Hin & Hout & Hraw & Hkeep).
    exists self'. split.
    { rewrite method_bind_unfold. unfold mbind at 1, method_bind at 1, lift at 1.
      rewrite Hs0. simpl. exact Hrun. }
    split; [|split; [|split; [done|exact Hkeep]]].
    + intros i s Hi Hs. destruct (decide (i = a)) as [->|Hne].
      * rewrite Hout by lia. simpl. rewrite lookup_insert_eq. congruence.
      * apply Hin; [lia | done].
    + intros video z Hnot. rewrite Hout by (intros [-> ?]; apply Hnot; split; [done|lia]).
      simpl. apply lookup_insert_ne. intros [= <- <-]. apply Hnot. split; [done|lia].
Qed.

Lemma load_video_captions_run (video_name : string) (sentences : list string)
    (self : DataManager) :
  exists self',
    load_video_captions video_name (Some sentences) self = (OK tt, self') /\
    (forall i s, sentences !! i = Some s ->
       video_seg_id_to_caption self' !! (video_name, Z.of_nat i) = Some s) /\
    (forall video z,
       ~ (video = video_name /\ (0 <= z < Z.of_nat (length sentences))%Z) ->
       video_seg_id_to_caption self' !! (video, z) =
       video_seg_id_to_caption self !! (video, z)) /\
    raw_captions self' = raw_captions self ++ sentences /\
    keeps_but_captions self self'.
Proof.
  destruct (load_segments_run video_name sentences (length sentences) 0
              (set_raw_captions (raw_captions self ++ sentences) self) ltac:(lia))
    as (self' & Hrun & Hin & Hout & Hraw & Hkeep).
  exists self'. split; [exact Hrun|].
  split; [|split; [|split; [done|exact Hkeep]]].
  - intros i s Hs. apply Hin; [|done]. apply lookup_lt_Some in Hs. lia.
  - intros video z Hnot. rewrite Hout; [done|]. intros [-> ?]. apply Hnot. split; [done|lia].
Qed.

Lemma load_database_run (db : list (string * list string)) (self : DataManager) :
  NoDup db.*1 ->
  exists self',
    for_each (complete_database db)
      (fun '(video_name, data) => load_video_captions video_name data) self
      = (OK tt, self') /\
    (forall video sentences i s, (video, sentences) ∈ db -> sentences !! i = Some s ->
       video_seg_id_to_caption self' !! (video, Z.of_nat i) = Some s) /\
    (forall video z,
       (forall sentences, (video, sentences) ∈ db ->
          ~ (0 <= z < Z.of_nat (length sentences))%Z) ->
       video_seg_id_to_caption self' !! (video, z) =
       video_seg_id_to_caption self !! (video, z)) /\
    raw_captions self' = raw_captions self ++ concat db.*2 /\
    keeps_but_captions self self'.
Proof.
  revert self. induction db as [|[video_name sentences] db IH]; intros self Hnodup.
  - exists self. split; [done|]. split; [by intros ???? ?%elem_of_nil|].
    split; [done|]. simpl. rewrite app_nil_r.
    split; [done | apply keeps_but_captions_refl].
  - apply NoDup_cons in Hnodup as [Hfresh Hnodup].
    destruct (load_video_captions_run video_name sentences self)
      as (self1 & Hrun1 & Hin1 & Hout1 & Hraw1 & Hkeep1).
    destruct (IH self1 Hnodup) as (self' & Hrun & Hin & Hout & Hraw & Hkeep).
    exists self'. split.
    { simpl. rewrite method_bind_unfold, Hrun1. exact Hrun. }
    split; [|split; [|split]].
    + intros video ss i s [[= -> ->]|Hrest]%elem_of_cons Hs.
      * rewrite Hout; [by apply Hin1|].
        intros ss' Hss'. destruct Hfresh.
        by apply (list_elem_of_fmap_2 fst _ (video_name, ss')).
      * by eapply Hin.
    + intros video z Hnot. rewrite Hout.
      * apply Hout1. intros [-> Hz]. eapply Hnot; [left|done].
      * intros ss Hss. apply Hnot. by right.
    + rewrite Hraw, Hraw1. simpl. by rewrite app_assoc.
    + by eapply keeps_but_captions_trans.
Qed.

(** X7.  [load_captions] on a database every video of which has its
    sentences returns; it stores sentence [i] of a video under the key
    (video, [i]), leaves the entries of every other key of the caption
    store as they were, appends the sentences of all videos, in the order
    of the database, to the raw captions, and changes nothing else. *)
Theorem load_captions_stores (json_files : gmap string database)
    (caption_file : string) (db : list (string * list string))
    (self : DataManager) :
  json_files !! caption_file = Some (complete_database db) ->
  NoDup db.*1 ->
  exists self',
    load_captions json_files caption_file self = (OK tt, self') /\
    (forall video sentences i s, (video, sentences) ∈ db -> sentences !! i = Some s ->
       video_seg_id_to_caption self' !! (video, Z.of_nat i) = Some s) /\
    (forall video z,
       (forall sentences, (video, sentences) ∈ db ->
          ~ (0 <= z < Z.of_nat (length sentences))%Z) ->
       video_seg_id_to_caption self' !! (video, z) =
       video_seg_id_to_caption self !! (video, z)) /\
    raw_captions self' = raw_captions self ++ concat db.*2 /\
    keeps_but_captions self self'.
Proof.
  intros Hfile Hnodup.
  destruct (load_database_run db self Hnodup) as (self' & Hrun & Hrest).
  exists self'. split; [|exact Hrest].
  unfold load_captions. rewrite method_bind_unfold. unfold lift, database in *.
  rewrite Hfile. simpl. exact Hrun.
Qed.

Lemma load_captions_stores_witness :
  exists self',
    load_captions two_videos "captions.json" init = (OK tt, self') /\
    (forall video sentences i s,
       (video, sentences) ∈ two_videos_sentences -> sentences !! i = Some s ->
       video_seg_id_to_caption self' !! (video, Z.of_nat i) = Some s) /\
    (forall video z,
       (forall sentences, (video, sentences) ∈ two_videos_sentences ->
          ~ (0 <= z < Z.of_nat (length sentences))%Z) ->
       video_seg_id_to_caption self' !! (video, z) =
       video_seg_id_to_caption init !! (video, z)) /\
    raw_captions self' = raw_captions init ++ concat two_videos_sentences.*2 /\
    keeps_but_captions init self'.
Proof.
  apply (load_captions_stores two_videos "captions.json" two_videos_sentences init).
  - reflexivity.
  - apply (bool_decide_unpack _). vm_compute. reflexivity.
Defined.

(** X8.  The captions [load_captions] stores are the ones
    [get_video_segment_caption] gives back: for a segment name whose first
    13 characters are the name of a video of the database and whose rest
    reads as the number [i], it returns sentence [i] of that video. *)
Theorem load_captions_get_video_segment_caption (json_files : gmap string database)
    (caption_file : string) (db : list (string * list string))
    (self : DataManager) (video name : string) (sentences : list string)
    (i : nat) (s : string) :
  json_files !! caption_file = Some (complete_database db) ->
  NoDup db.*1 ->
  (video, sentences) ∈ db -> sentences !! i = Some s ->
  str_take 13 name = video ->
  py_int (str_drop 13 name) = OK (Z.of_nat i) ->
  exists self',
    load_captions json_files caption_file self = (OK tt, self') /\
    get_video_segment_caption name self' = (OK s, self').
Proof.
  intros Hfile Hnodup Hin Hs Hvideo Hint.
  destruct (load_database_run db self Hnodup) as (self' & Hrun & Hstored & _).
  exists self'. split.
  - unfold load_captions. rewrite method_bind_unfold. unfold lift, database in *.
    rewrite Hfile. simpl. exact Hrun.
  - unfold get_video_segment_caption. rewrite Hint, Hvideo. simpl.
    by rewrite (Hstored _ _ _ _ Hin Hs).
Qed.

Lemma load_captions_get_video_segment_caption_witness :
  exists self',
    load_captions two_videos "captions.json" init = (OK tt, self') /\
    get_video_segment_caption "v_QOlSCBRmfWY1" self' = (OK "he stops", self').
Proof.
  apply (load_captions_get_video_segment_caption two_videos "captions.json"
           two_videos_sentences init "v_QOlSCBRmfWY" "v_QOlSCBRmfWY1"
           ["a man plays"; "he stops"] 1 "he stops").
  - reflexivity.
  - apply (bool_decide_unpack _). vm_compute. reflexivity.
  - left.
  - reflexivity.
  - reflexivity.
  - reflexivity.
Defined.

Lemma chars_str (cs : list ascii) : chars (str cs) = cs.
Proof. apply String.list_ascii_of_string_of_list_ascii. Qed.

Lemma py_int_nonempty (s : string) (z : Z) : py_int s = OK z -> chars s <> [].
Proof. intros Hint Hnil. unfold py_int in Hint. by rewrite Hnil in Hint. Qed.

(** X9.  [get_video_segment_caption] cuts the name of the video off as
    the first 13 characters of the segment name: a caption stored for a
    video whose name is not 13 characters long is returned for no segment
    name at all, and a segment name of 13 characters or fewer makes the
    call raise [ValueError]. *)
Theorem get_video_segment_caption_video_name (self : DataManager)
    (name : string) :
  (len name <= 13 -> (get_video_segment_caption name self).1 = Raise ValueError) /\
  (forall caption, (get_video_segment_caption name self).1 = OK caption ->
     len (str_take 13 name) = 13 /\
     exists segment_id,
       py_int (str_drop 13 name) = OK segment_id /\
       video_seg_id_to_caption self !! (str_take 13 name, segment_id) = Some caption).
Proof.
  unfold get_video_segment_caption, len, str_take, str_drop. simpl. split.
  - intros Hlen. rewrite drop_ge by done. reflexivity.
  - intros caption Hget.
    destruct (py_int (str (drop 13 (chars name)))) as [segment_id|e] eqn:Hint; [|done].
    simpl in Hget. split.
    + apply py_int_nonempty in Hint. rewrite chars_str in *.
      rewrite length_take. 
      destruct (decide (13 <= length (chars name))) as [|Hshort]; [lia|].
      rewrite drop_ge in Hint by lia. done.
    + exists segment_id. split; [done|].
      destruct (video_seg_id_to_caption self !! _) as [c|]; simpl in Hget;
        by simplify_eq.
Qed.

(** X10.  [load_captions] is not all or nothing: when a video of the
    database has no entry ['sentences'] the call raises [KeyError] for that
    key, and the sentences of the videos before it stay stored, in the
    caption store and in the raw captions. *)
Theorem load_captions_missing_sentences (json_files : gmap string database)
    (caption_file : string) (pre : list (string * list string))
    (video : string) (post : database) (self : DataManager) :
  json_files !! caption_file = Some (complete_database pre ++ (video, None) :: post) ->
  NoDup pre.*1 ->
  exists self',
    load_captions json_files caption_file self =
      (Raise (KeyError (KStr "sentences")), self') /\
    (forall video' sentences i s, (video', sentences) ∈ pre -> sentences !! i = Some s ->
       video_seg_id_to_caption self' !! (video', Z.of_nat i) = Some s) /\
    raw_captions self' = raw_captions self ++ concat pre.*2.
Proof.
  intros Hfile Hnodup.
  destruct (load_database_run pre self Hnodup) as (self' & Hrun & Hstored & _ & Hraw & _).
  exists self'. split; [|by split].
  unfold load_captions. rewrite method_bind_unfold. unfold lift, database in *.
  rewrite Hfile. simpl. rewrite for_each_app.
  unfold complete_database, database in *. rewrite Hrun. reflexivity.
Qed.

Lemma load_captions_missing_sentences_witness :
  exists self',
    load_captions sentences_missing "captions.json" init =
      (Raise (KeyError (KStr "sentences")), self') /\
    (forall video' sentences i s,
       (video', sentences) ∈ [("v_QOlSCBRmfWY", ["a man plays"; "he stops"])] ->
       sentences !! i = Some s ->
       video_seg_id_to_caption self' !! (video', Z.of_nat i) = Some s) /\
    raw_captions self' =
      raw_captions init ++ concat [("v_QOlSCBRmfWY", ["a man plays"; "he stops"])].*2.
Proof.
  apply (load_captions_missing_sentences sentences_missing "captions.json"
           [("v_QOlSCBRmfWY", ["a man plays"; "he stops"])] "v_ehGHCYKzyZ8"
           [("v_3l7quTy4c2s", Some ["a girl sings"])] init).
  - reflexivity.
  - apply (bool_decide_unpack _). vm_compute. reflexivity.
Defined.

(** ** The store of the frame paths *)

Lemma split_nonempty (sep : ascii) (cs : list ascii) : split sep cs <> [].
Proof.
  destruct cs as [|c t]; simpl; [done|].
  destruct (Ascii.eqb c sep); [done|]. by destruct (split sep t).
Qed.

Lemma split_app (sep : ascii) (a b : list ascii) :
  split sep (a ++ sep :: b) = split sep a ++ split sep b.
Proof.
  induction a as [|c a IH]; simpl.
  - by rewrite Ascii.eqb_refl.
  - destruct (Ascii.eqb c sep); [by rewrite IH|].
    rewrite IH. pose proof (split_nonempty sep a). by destruct (split sep a).
Qed.

Lemma split_no_sep (sep : ascii) (cs : list ascii) : sep ∉ cs -> split sep cs = [cs].
Proof.
  induction cs as [|c t IH]; simpl; [done|].
  intros Hnot. apply not_elem_of_cons in Hnot as [Hne Hnot].
  destruct (Ascii.eqb_spec c sep) as [->|_]; [done|]. by rewrite IH.
Qed.

Lemma chars_append (s t : string) : chars (s +:+ t) = chars s ++ chars t.
Proof.
  unfold chars. induction s as [|c s IH]; simpl; [done|]. by rewrite IH.
Qed.

Lemma py_getitem_second_last {A} (l : list A) (x y : A) :
  last l = Some x -> py_getitem (l ++ [y]) (-2) = OK x.
Proof.
  intros Hlast. unfold py_getitem. simpl. rewrite length_app. simpl.
  destruct l as [|z l _] using rev_ind; [done|].
  rewrite last_snoc in Hlast. injection Hlast as ->.
  rewrite length_app. simpl.
  destruct (_ <? 0)%Z eqn:Hneg; [apply Z.ltb_lt in Hneg; lia|].
  replace (Z.to_nat (-2 + Z.of_nat (length l + 1 + 1))) with (length l + 0) by lia.
  rewrite <- app_assoc. by rewrite lookup_app_r, Nat.add_comm, Nat.add_sub by lia.
Qed.

Lemma load_frame_file_run (root file : string) (seg stem : list ascii)
    (self : DataManager) :
  frame_file root file seg stem ->
  load_frame_file root file self =
  (number ← lift (py_int (str stem));
   modify (fun self =>
     set_video_seg_frame_path
       (<[(str seg, (number - 1)%Z) := root +:+ "/" +:+ file]>
          (video_seg_frame_path self)) self)) self.
Proof.
  intros (Hroot & Hslash & Hlast & Hfile & Hjpg & ext & Hstem & Hdot).
  unfold load_frame_file. rewrite Hjpg. simpl.
  unfold path_join. rewrite Hslash, bool_decide_eq_false_2 by done. simpl.
  rewrite !chars_append. change (chars "/") with ["/"%char]. simpl.
  rewrite split_app, (split_no_sep "/"%char (chars file)) by done.
  rewrite method_bind_unfold. unfold lift at 1.
  rewrite (py_getitem_second_last _ seg) by done.
  rewrite method_bind_unfold. unfold lift at 1.
  rewrite Hstem, split_app, split_no_sep by done. reflexivity.
Qed.

Lemma load_frame_file_registers (root file : string) (seg : list ascii)
    (number : Z) (self : DataManager) :
  frame_image root file seg number ->
  load_frame_file root file self =
  (OK tt,
   set_video_seg_frame_path
     (<[(str seg, (number - 1)%Z) := root +:+ "/" +:+ file]>
        (video_seg_frame_path self)) self).
Proof.
  intros (stem & Hfile & Hint).
  rewrite (load_frame_file_run _ _ _ _ _ Hfile), method_bind_unfold.
  unfold lift. by rewrite Hint.
Qed.

Lemma frame_image_registers (root file : string) (seg : list ascii) (number : Z) :
  frame_image root file seg number ->
  registers root file (str seg, (number - 1)%Z) /\
  path_join root file = root +:+ "/" +:+ file.
Proof.
  intros Himage.
  assert (path_join root file = root +:+ "/" +:+ file) as Hpath.
  { destruct Himage as (stem & (Hroot & Hslash & _) & _).
    unfold path_join. by rewrite Hslash, bool_decide_eq_false_2. }
  split; [|done]. intros self. rewrite Hpath.
  by apply load_frame_file_registers.
Qed.

Lemma load_frame_file_cases (root file : string) :
  (forall s, load_frame_file root file s = (OK tt, s)) \/
  (exists key, registers root file key) \/
  (exists e, forall s, load_frame_file root file s = (Raise e, s)).
Proof.
  unfold registers, load_frame_file.
  destruct (endswith file ".jpg"); cbn [negb]; [|by left].
  unfold mbind, method_bind, lift, modify.
  destruct (py_getitem _ (-2)) as [seg|e]; [|right; right; by exists e].
  destruct (py_getitem _ 0) as [stem|e]; [|right; right; by exists e].
  destruct (py_int _) as [number|e]; [|right; right; by exists e].
  right; left. by eexists.
Qed.

Lemma registers_inj (root file : string) (key key' : string * Z) :
  registers root file key -> registers root file key' -> key = key'.
Proof.
  intros Hk Hk'. specialize (Hk init). rewrite (Hk' init) in Hk.
  apply (f_equal (fun x => video_seg_frame_path x.2 !! key)) in Hk.
  simpl in Hk. rewrite lookup_insert_eq in Hk.
  destruct (decide (key' = key)) as [->|Hne]; [done|].
  by rewrite lookup_insert_ne in Hk.
Qed.

Lemma registers_not_skipped (root file : string) (key : string * Z) :
  (forall s, load_frame_file root file s = (OK tt, s)) -> ~ registers root file key.
Proof.
  intros Hskip Hk. specialize (Hk init). rewrite (Hskip init) in Hk.
  apply (f_equal (fun x => video_seg_frame_path x.2 !! key)) in Hk.
  simpl in Hk. by rewrite lookup_insert_eq in Hk.
Qed.

(** After the loop over the files [l], a key holds what it held before,
    when no file of [l] is stored under it, and otherwise the path of the
    last file of [l] that is stored under it. *)
Lemma for_each_frame_file (l : list (string * string)) (key : string * Z)
    (self self' : DataManager) :
  for_each l (fun '(root, file) => load_frame_file root file) self = (OK tt, self') ->
  keeps_but_frame_path_store self self' /\
  ((Forall (fun x => ~ registers x.1 x.2 key) l /\
    video_seg_frame_path self' !! key = video_seg_frame_path self !! key) \/
   exists before root file after,
     l = before ++ (root, file) :: after /\
     registers root file key /\
     Forall (fun x => ~ registers x.1 x.2 key) after /\
     video_seg_frame_path self' !! key = Some (path_join root file)).
Proof.
  revert self. induction l as [|[root file] l IH]; intros self; simpl.
  - intros [= <-]. split; [by repeat split|]. left. by split.
  - intros ([] & self1 & Hfile & Hrest)%method_bind_OK.
    apply IH in Hrest as [Hkeep Hrest].
    assert (Hstep : keeps_but_frame_path_store self self1 /\
              ((~ registers root file key /\
                video_seg_frame_path self1 !! key = video_seg_frame_path self !! key) \/
               (registers root file key /\
                video_seg_frame_path self1 !! key = Some (path_join root file)))).
    { destruct (load_frame_file_cases root file) as [Hskip|[[key' Hk]|[e He]]].
      - rewrite Hskip in Hfile. injection Hfile as <-.
        split; [by repeat split|]. left. split; [by apply registers_not_skipped | done].
      - rewrite Hk in Hfile. injection Hfile as <-.
        split; [by repeat split|]. simpl.
        destruct (decide (key' = key)) as [->|Hne].
        + right. split; [done | apply lookup_insert_eq].
        + left. split; [|by apply lookup_insert_ne].
          intros Hk2. apply Hne. by eapply registers_inj.
      - by rewrite He in Hfile. }
    destruct Hstep as [Hkeep1 Hstep]. split.
    { destruct Hkeep1 as (?&?&?&?&?&?&?), Hkeep as (?&?&?&?&?&?&?).
      repeat split; congruence. }
    destruct Hrest as [[Hnone Hsame]|(before & root' & file' & after & -> & Hk & Hafter & Hkey)].
    + destruct Hstep as [[Hnot Hkey]|[Hk Hkey]].
      * left. split; [by constructor | congruence].
      * right. exists [], root, file, l. split; [done|]. split; [done|].
        split; [done | congruence].
    + right. exists ((root, file) :: before), root', file', after. by repeat split.
Qed.

Lemma load_frame_path_info_visited (fs : FileSystem) (folder : string)
    (self : DataManager) :
  load_frame_path_info fs folder self =
  for_each (visited fs folder) (fun '(root, file) => load_frame_file root file) self.
Proof.
  unfold load_frame_path_info, visited.
  rewrite for_each_bind.
  apply for_each_ext. intros [[root dirs] files] s. rewrite for_each_bind.
  apply for_each_ext. intros file s'. by rewrite for_each_singleton.
Qed.

(** X11.  After a [load_frame_path_info] that returns, the image
    [number].jpg of a folder whose last component is [seg] is found under
    the key ([seg], [number] - 1): frames are counted from zero in the
    store, from one in the file names.  The file is stored under that
    key, and the path the key holds is the path of the last file of the
    walk, from this file on, that is stored under it: the path of this
    file, unless a later file has the same key.  Nothing but the store of
    the frame paths has changed. *)
Theorem load_frame_path_info_registers (fs : FileSystem) (folder : string)
    (self self' : DataManager) (pre post : list (string * string))
    (root file : string) (seg : list ascii) (number : Z) :
  load_frame_path_info fs folder self = (OK tt, self') ->
  visited fs folder = pre ++ (root, file) :: post ->
  frame_image root file seg number ->
  keeps_but_frame_path_store self self' /\
  registers root file (str seg, (number - 1)%Z) /\
  path_join root file = root +:+ "/" +:+ file /\
  exists between root' file' after,
    (root, file) :: post = between ++ (root', file') :: after /\
    registers root' file' (str seg, (number - 1)%Z) /\
    Forall (fun x => ~ registers x.1 x.2 (str seg, (number - 1)%Z)) after /\
    video_seg_frame_path self' !! (str seg, (number - 1)%Z)
      = Some (path_join root' file').
Proof.
  rewrite load_frame_path_info_visited.
  intros Hrun Hvis [Hreg Hpath]%frame_image_registers.
  rewrite Hvis, for_each_app in Hrun.
  destruct (for_each pre _ self) as [[[]|e] self1] eqn:Hpre; [|done].
  apply (for_each_frame_file _ (str seg, (number - 1)%Z)) in Hpre as [Hkeep1 _].
  apply (for_each_frame_file _ (str seg, (number - 1)%Z)) in Hrun as [Hkeep2 Hrun].
  split.
  { destruct Hkeep1 as (?&?&?&?&?&?&?), Hkeep2 as (?&?&?&?&?&?&?).
    repeat split; congruence. }
  split; [done|]. split; [done|].
  destruct Hrun as [[Hnone _]|Hlast]; [|done].
  apply Forall_cons in Hnone as [Hnot _]. by destruct Hnot.
Qed.

Lemma load_frame_path_info_registers_witness :
  keeps_but_frame_path_store init
    (load_frame_path_info two_segments_frames "frames" init).2 /\
  registers "frames/v_QOlSCBRmfWY0" "3.jpg" (str (chars "v_QOlSCBRmfWY0"), (3 - 1)%Z) /\
  path_join "frames/v_QOlSCBRmfWY0" "3.jpg"
    = "frames/v_QOlSCBRmfWY0" +:+ "/" +:+ "3.jpg" /\
  exists between root' file' after,
    ("frames/v_QOlSCBRmfWY0", "3.jpg")
      :: [("frames/v_QOlSCBRmfWY0", "thumbs.db"); ("frames/v_QOlSCBRmfWY1", "1.jpg")]
      = between ++ (root', file') :: after /\
    registers root' file' (str (chars "v_QOlSCBRmfWY0"), (3 - 1)%Z) /\
    Forall (fun x => ~ registers x.1 x.2 (str (chars "v_QOlSCBRmfWY0"), (3 - 1)%Z))
      after /\
    video_seg_frame_path (load_frame_path_info two_segments_frames "frames" init).2
      !! (str (chars "v_QOlSCBRmfWY0"), (3 - 1)%Z)
      = Some (path_join root' file').
Proof.
  apply (load_frame_path_info_registers two_segments_frames "frames" init _
           [("frames", "readme.txt"); ("frames/v_QOlSCBRmfWY0", "1.jpg");
            ("frames/v_QOlSCBRmfWY0", "2.jpg")]
           [("frames/v_QOlSCBRmfWY0", "thumbs.db"); ("frames/v_QOlSCBRmfWY1", "1.jpg")]
           "frames/v_QOlSCBRmfWY0" "3.jpg" (chars "v_QOlSCBRmfWY0") 3).
  - vm_compute. reflexivity.
  - reflexivity.
  - exists (chars "3"). split; [|reflexivity].
    split; [done|]. split; [reflexivity|]. split; [reflexivity|].
    split; [by apply (bool_decide_unpack _)|]. split; [reflexivity|].
    exists (chars "jpg"). split; [reflexivity|]. by apply (bool_decide_unpack _).
Defined.

(** ** The store of the key frames *)



Lemma load_key_frame_information_visited (fs : FileSystem)
    (tables : gmap string (result (list Z))) (folder : string) (self : DataManager) :
  load_key_frame_information fs tables folder self =
  for_each (visited fs folder)
    (fun '(root, file) => load_key_frame_file tables root file) self.
Proof.
  unfold load_key_frame_information, visited.
  rewrite for_each_bind.
  apply for_each_ext. intros [[root dirs] files] s. rewrite for_each_bind.
  apply for_each_ext. intros file s'. by rewrite for_each_singleton.
Qed.



(** ** The frame paths of a segment *)

(** X13.  [get_frames_path] on a segment without key frames raises
    [KeyError] for the name of the segment.  On a segment with key frames
    it returns exactly when every key frame has a stored frame path: then
    it returns one path for each key frame, the stored ones; otherwise it
    raises [KeyError] for a key frame of the segment that has no path. *)
Theorem get_frames_path_outcome (video_segment_name : string) (self : DataManager) :
  match key_frames self !! video_segment_name,
        (get_frames_path video_segment_name self).1 with
  | None, r => r = Raise (KeyError (KStr video_segment_name))
  | Some kf, OK paths =>
      length paths = size kf /\
      (forall key_frame, key_frame ∈ kf ->
         exists path, path ∈ paths /\
           video_seg_frame_path self !! (video_segment_name, key_frame) = Some path) /\
      (forall path, path ∈ paths ->
         exists key_frame, key_frame ∈ kf /\
           video_seg_frame_path self !! (video_segment_name, key_frame) = Some path)
  | Some kf, Raise e =>
      exists key_frame, key_frame ∈ kf /\
        video_seg_frame_path self !! (video_segment_name, key_frame) = None /\
        e = KeyError (KPair video_segment_name key_frame)
  end.
Proof.
  unfold get_frames_path. simpl.
  destruct (key_frames self !! video_segment_name) as [kf|]; simpl; [|done].
  destruct (comprehension _ (elements kf)) as [paths|e] eqn:Hpaths.
  - apply comprehension_OK in Hpaths.
    split; [by rewrite <- (Forall2_length _ _ _ Hpaths)|]. split.
    + intros key_frame Hin. apply elem_of_elements in Hin.
      apply list_elem_of_lookup in Hin as [i Hi].
      destruct (Forall2_lookup_l _ _ _ _ _ Hpaths Hi) as (path & Hpath & Hstored).
      exists path. split; [by eapply list_elem_of_lookup_2|].
      by destruct (video_seg_frame_path self !! _); simplify_eq/=.
    + intros path Hin. apply list_elem_of_lookup in Hin as [i Hi].
      destruct (Forall2_lookup_r _ _ _ _ _ Hpaths Hi) as (key_frame & Hkf & Hstored).
      exists key_frame. split.
      * apply elem_of_elements. by eapply list_elem_of_lookup_2.
      * by destruct (video_seg_frame_path self !! _); simplify_eq/=.
  - apply comprehension_Raise in Hpaths as (key_frame & Hin & Hraise).
    exists key_frame. split; [by apply elem_of_elements|].
    by destruct (video_seg_frame_path self !! _); simplify_eq/=.
Qed.

(** ** When corpus assembly returns *)

Section Returns.
Context `{Externals}.

Lemma read_rows_returns (seg caption : string) (kf : gset Z) (count : Z)
    (f : list string) (self : DataManager) (rows : list (list Q)) :
  features self = PyList rows ->
  (forall i line, f !! i = Some line -> (count + Z.of_nat i)%Z ∈ kf ->
     is_OK (parse_feature line) /\
     is_Some (video_seg_frame_path self !! (seg, (count + Z.of_nat i)%Z))) ->
  exists self' rows',
    read_rows seg caption kf count f self = (OK tt, self') /\
    features self' = PyList rows'.
Proof.
  revert count self rows. induction f as [|line rest IH];
    intros count self rows Hfeat Hok; simpl; [by exists self, rows|].
  rewrite method_bind_unfold.
  case_bool_decide as Hkf.
  - destruct (Hok 0 line eq_refl) as [Hparse [path Hpath]];
      [by rewrite Z.add_0_r|].
    rewrite Z.add_0_r in Hpath.
    unfold mbind at 1, method_bind at 1, lift at 1.
    destruct (parse_feature line) as [feature|e]; [|done]. simpl.
    unfold mbind, method_bind, features_append, captions_append,
      frame_paths_append, modify, get, lift.
    rewrite Hfeat. simpl. rewrite Hpath. simpl.
    eapply IH; [reflexivity|]. simpl.
    intros i line' Hi Hin.
    replace (count + 1 + Z.of_nat i)%Z with (count + Z.of_nat (S i))%Z in * by lia.
    by apply Hok.
  - simpl. eapply IH; [exact Hfeat|].
    intros i line' Hi Hin.
    replace (count + 1 + Z.of_nat i)%Z with (count + Z.of_nat (S i))%Z in * by lia.
    by apply Hok.
Qed.

Lemma read_rows_returned (seg caption : string) (kf : gset Z) (count : Z)
    (f : list string) (self self' : DataManager) :
  read_rows seg caption kf count f self = (OK tt, self') ->
  forall i line, f !! i = Some line -> (count + Z.of_nat i)%Z ∈ kf ->
    is_OK (parse_feature line) /\
    is_Some (video_seg_frame_path self !! (seg, (count + Z.of_nat i)%Z)).
Proof.
  revert count self. induction f as [|line rest IH]; intros count self; simpl;
    [by intros _ i line ?|].
  intros ([] & self1 & Hstep & Hrest)%method_bind_OK i line' Hi Hin.
  destruct i as [|i]; simpl in Hi.
  - injection Hi as <-. rewrite Z.add_0_r in *.
    rewrite bool_decide_eq_true_2 in Hstep by done.
    apply method_bind_OK in Hstep as (feature & s1 & [Hf ->]%lift_OK & Hstep).
    apply method_bind_OK in Hstep as ([] & s2 & Hfa & Hstep).
    unfold features_append in Hfa.
    destruct (features self) as [rows|] eqn:Hfeat; [|done].
    injection Hfa as <-.
    apply method_bind_OK in Hstep as ([] & s3 & [= <-] & Hstep).
    apply method_bind_OK in Hstep as (s & s4 & [= <- <-] & Hstep).
    apply method_bind_OK in Hstep as (path & s5 & [Hp ->]%lift_OK & Hstep).
    simpl in Hp. split; [by rewrite Hf|].
    by destruct (video_seg_frame_path self !! (seg, count)).
  - assert (Hstore : video_seg_frame_path self1 = video_seg_frame_path self).
    { case_bool_decide; [|by unfold mret, method_ret in Hstep; simplify_eq].
      apply method_bind_OK in Hstep as (feature & s1 & [Hf ->]%lift_OK & Hstep).
      apply method_bind_OK in Hstep as ([] & s2 & Hfa & Hstep).
      unfold features_append in Hfa.
      destruct (features self) as [rows|] eqn:Hfeat; [|done].
      injection Hfa as <-.
      apply method_bind_OK in Hstep as ([] & s3 & [= <-] & Hstep).
      apply method_bind_OK in Hstep as (s & s4 & [= <- <-] & Hstep).
      apply method_bind_OK in Hstep as (path & s5 & [Hp ->]%lift_OK & Hstep).
      by injection Hstep as <-. }
    rewrite <- Hstore.
    replace (count + Z.of_nat (S i))%Z with (count + 1 + Z.of_nat i)%Z in * by lia.
    by eapply IH.
Qed.

Lemma load_feature_file_returns (fs : FileSystem) (root file : string)
    (self : DataManager) (rows : list (list Q)) :
  features self = PyList rows ->
  loadable fs self root file ->
  exists self' rows',
    load_feature_file fs root file self = (OK tt, self') /\
    features self' = PyList rows'.
Proof.
  intros Hfeat Hload. unfold load_feature_file.
  destruct (endswith file ".txt") eqn:Hends; cbn [negb]; [|by exists self, rows].
  destruct (Hload Hends)
    as (Hlen & segment_id & f & kf & Hint & [caption Hcap] & Hf & Hkf & Hlines).
  apply Nat.leb_le in Hlen.
  unfold mbind, method_bind, lift, modify, get, open.
  rewrite Hlen, Hint. simpl. rewrite Hcap, Hf. simpl. rewrite Hkf. simpl.
  eapply read_rows_returns; [exact Hfeat|]. simpl. exact Hlines.
Qed.

Lemma load_feature_file_returned (fs : FileSystem) (root file : string)
    (self self' : DataManager) :
  load_feature_file fs root file self = (OK tt, self') ->
  loadable fs self root file.
Proof.
  unfold load_feature_file, loadable. intros Hrun Hends. rewrite Hends in Hrun.
  cbn [negb] in Hrun.
  apply method_bind_OK in Hrun as ([] & s1 & [Hlen ->]%lift_OK & Hrun).
  apply method_bind_OK in Hrun as (segment_id & s2 & [Hint ->]%lift_OK & Hrun).
  apply method_bind_OK in Hrun as ([] & s3 & [= <-] & Hrun).
  apply method_bind_OK in Hrun as (s & s4 & [= <- <-] & Hrun).
  apply method_bind_OK in Hrun as (caption & s5 & [Hcap ->]%lift_OK & Hrun).
  apply method_bind_OK in Hrun as (f & s6 & [Hf ->]%lift_OK & Hrun).
  apply method_bind_OK in Hrun as (s & s7 & [= <- <-] & Hrun).
  apply method_bind_OK in Hrun as (kf & s8 & [Hkf ->]%lift_OK & Hrun).
  simpl in Hcap, Hkf. unfold open in Hf.
  split.
  { apply Nat.leb_le. unfold py_assert in Hlen.
    by match type of Hlen with (if ?b then _ else _) = _ => destruct b end. }
  exists segment_id, f, kf. split; [done|].
  split; [by destruct (video_seg_id_to_caption self !! _)|].
  split; [by destruct (file_lines fs !! _); simplify_eq/=|].
  split; [by destruct (key_frames self !! _); simplify_eq/=|].
  exact (read_rows_returned _ _ _ 0%Z _ _ _ Hrun).
Qed.

Lemma loadable_same_stores (fs : FileSystem) (self self' : DataManager)
    (root file : string) :
  same_stores self self' -> loadable fs self' root file <-> loadable fs self root file.
Proof. intros (Hc & Hp & Hk). unfold loadable. by rewrite Hc, Hp, Hk. Qed.

Lemma for_each_file_returns (fs : FileSystem) (l : list (string * string))
    (self : DataManager) (rows : list (list Q)) :
  features self = PyList rows ->
  Forall (fun x => loadable fs self x.1 x.2) l ->
  exists self',
    for_each l (fun '(root, file) => load_feature_file fs root file) self = (OK tt, self').
Proof.
  revert self rows. induction l as [|[root file] l IH]; intros self rows Hfeat Hall;
    simpl; [by exists self|].
  apply Forall_cons in Hall as [Hfile Hall].
  destruct (load_feature_file_returns fs root file self rows Hfeat Hfile)
    as (self1 & rows1 & Hrun1 & Hfeat1).
  rewrite method_bind_unfold, Hrun1.
  apply (IH self1 rows1 Hfeat1).
  apply load_feature_file_grows in Hrun1 as (_ & _ & _ & Hsame).
  eapply Forall_impl; [exact Hall|]. intros [root' file'] Hx.
  by apply (loadable_same_stores fs self self1).
Qed.

Lemma for_each_file_returned (fs : FileSystem) (l : list (string * string))
    (self self' : DataManager) :
  for_each l (fun '(root, file) => load_feature_file fs root file) self = (OK tt, self') ->
  Forall (fun x => loadable fs self x.1 x.2) l.
Proof.
  revert self. induction l as [|[root file] l IH]; intros self; simpl;
    [constructor|].
  intros ([] & self1 & Hfile & Hrest)%method_bind_OK.
  constructor; [by eapply load_feature_file_returned|].
  apply IH in Hrest.
  apply load_feature_file_grows in Hfile as (_ & _ & _ & Hsame).
  eapply Forall_impl; [exact Hrest|]. intros [root' file'] Hx.
  by apply (loadable_same_stores fs self self1).
Qed.
End Returns.

(** X14.  On a corpus whose vectors are still a list, [load_features]
    returns exactly when every file of the walk finds in the stores what
    it asks for: a caption and key frames for its segment, and a vector
    and a frame path for every key frame that is the number of one of its
    lines. *)
Theorem load_features_returns `{Externals} (fs : FileSystem) (folder : string)
    (self : DataManager) (rows : list (list Q)) :
  features self = PyList rows ->
  (load_features fs folder self).1 = OK tt <->
  Forall (fun x => loadable fs self x.1 x.2) (visited fs folder).
Proof.
  intros Hfeat. rewrite load_features_visited, method_bind_unfold. split.
  - destruct (for_each _ _ self) as [[[]|e] self1] eqn:Hloop; [|done].
    intros _. by eapply for_each_file_returned.
  - intros Hall.
    destruct (for_each_file_returns fs _ self rows Hfeat Hall) as (self' & ->).
    reflexivity.
Qed.

Lemma load_features_returns_witness :
  (@load_features Exact.externals one_segment "features" stores_loaded).1 = OK tt <->
  Forall (fun x => @loadable Exact.externals one_segment stores_loaded x.1 x.2)
    (visited one_segment "features").
Proof.
  apply (@load_features_returns Exact.externals one_segment "features"
           stores_loaded []).
  reflexivity.
Defined.

(** ** Where the answers of a query come from *)

Lemma py_getitem_elem {A} (l : list A) (z : Z) (x : A) :
  py_getitem l z = OK x -> x ∈ l.
Proof.
  unfold py_getitem. destruct (_ <? 0)%Z; [done|].
  destruct (l !! _) as [y|] eqn:Hy; simpl; [|done].
  intros [= <-]. by eapply list_elem_of_lookup_2.
Qed.

Lemma comprehension_getitem_elem {A} (l : list A) (idx : list Z) (xs : list A) :
  comprehension (py_getitem l) idx = OK xs -> Forall (fun x => x ∈ l) xs.
Proof.
  intros Hxs%comprehension_OK.
  induction Hxs as [|z x idx xs Hx _ IH]; constructor; [|done].
  by eapply py_getitem_elem.
Qed.

Section Provenance.
Context `{Externals}.

Lemma cosine_query_from_corpus (self : DataManager) (query_feature : list (list Q))
    (k : Z) (res : list string * list string * list xfloat) :
  cosine_query self query_feature k = OK res ->
  Forall (fun caption => caption ∈ captions self) res.1.1 /\
  Forall (fun path => path ∈ frame_paths self) res.1.2.
Proof.
  unfold cosine_query.
  intros (normalized & _ & Hq)%bind_OK.
  apply bind_OK in Hq as (q & _ & Hq).
  apply bind_OK in Hq as ([sims idxs] & _ & Hq).
  apply bind_OK in Hq as (sims' & _ & Hq).
  apply bind_OK in Hq as (idxs' & _ & Hq).
  apply bind_OK in Hq as (caps & Hcaps & Hq).
  apply bind_OK in Hq as (paths & Hpaths & [= <-]).
  split; by eapply comprehension_getitem_elem.
Qed.

Lemma euclidean_query_from_corpus (self : DataManager) (query_feature : list Q)
    (k : Z) (res : list string * list string * list xfloat) :
  euclidean_query self query_feature k = OK res ->
  Forall (fun caption => caption ∈ captions self) res.1.1 /\
  Forall (fun path => path ∈ frame_paths self) res.1.2.
Proof.
  unfold euclidean_query.
  intros ([dists idxs] & _ & Hq)%bind_OK.
  apply bind_OK in Hq as (dists' & _ & Hq).
  apply bind_OK in Hq as (idxs' & _ & Hq).
  apply bind_OK in Hq as (caps & Hcaps & Hq).
  apply bind_OK in Hq as (paths & Hpaths & [= <-]).
  split; by eapply comprehension_getitem_elem.
Qed.
End Provenance.

(** X15.  On a corpus that [load_features] has assembled from nothing,
    whatever a query returns comes from the stores: every caption of the
    answer of the cosine or of the Euclidean query is a caption of the
    caption store, under the key of a segment that has a feature file in
    the walk, and every frame path is a path of the store of the frame
    paths. *)
Theorem queries_answer_from_stores `{Externals} (fs : FileSystem) (folder : string)
    (self self' : DataManager) (k : Z)
    (res : list string * list string * list xfloat) :
  rows_of (features self) = [] -> captions self = [] -> frame_paths self = [] ->
  load_features fs folder self = (OK tt, self') ->
  (exists query_feature,
     (query_knn_caption_brutal_force_cosine_similarity query_feature k self').1
       = OK res) \/
  (exists query_feature,
     (query_knn_caption_brutal_force_euclidean_distance query_feature k self').1
       = OK res) ->
  Forall (fun caption => exists root file segment_id,
            (root, file) ∈ visited fs folder /\
            py_int (str_drop 13 (drop_last 4 file)) = OK segment_id /\
            video_seg_id_to_caption self'
              !! (str_take 13 (drop_last 4 file), segment_id) = Some caption)
         res.1.1 /\
  Forall (fun path => exists root file count,
            (root, file) ∈ visited fs folder /\
            video_seg_frame_path self' !! (drop_last 4 file, count) = Some path)
         res.1.2.
Proof.
  intros Hrows Hcaps Hpaths
    (recs & (_ & Hc & Hp & Hcs & Hps & _) & Hrecs)%load_features_appends Hquery.
  rewrite Hcaps in Hc. rewrite Hpaths in Hp. simpl in Hc, Hp.
  assert (Hfrom : Forall (fun caption => caption ∈ captions self') res.1.1 /\
                  Forall (fun path => path ∈ frame_paths self') res.1.2).
  { destruct Hquery as [[q Hq]|[q Hq]];
      [exact (cosine_query_from_corpus _ _ _ _ Hq) |
       exact (euclidean_query_from_corpus _ _ _ _ Hq)]. }
  destruct Hfrom as [Hfc Hfp]. rewrite Hc in Hfc. rewrite Hp in Hfp.
  rewrite Forall_forall in Hrecs. split.
  - eapply Forall_impl; [exact Hfc|]. intros caption Hin.
    apply list_elem_of_fmap in Hin as (fc & -> & Hin).
    apply list_elem_of_fmap in Hin as (rec & -> & Hin).
    destruct (Hrecs rec Hin)
      as (root & file & Hvis & _ & segment_id & kf & f & count & line &
          Hint & Hcap & _).
    exists root, file, segment_id. rewrite Hcs. by repeat split.
  - eapply Forall_impl; [exact Hfp|]. intros path Hin.
    apply list_elem_of_fmap in Hin as (rec & -> & Hin).
    destruct (Hrecs rec Hin)
      as (root & file & Hvis & _ & segment_id & kf & f & count & line &
          _ & _ & _ & _ & _ & _ & _ & _ & Hpath).
    exists root, file, count. rewrite Hps. by split.
Qed.

Lemma queries_answer_from_stores_witness :
  Forall (fun caption => exists root file segment_id,
            (root, file) ∈ visited one_segment "features" /\
            py_int (str_drop 13 (drop_last 4 file)) = OK segment_id /\
            video_seg_id_to_caption corpus_assembled
              !! (str_take 13 (drop_last 4 file), segment_id) = Some caption)
         (["a man plays"], ["frames/v_QOlSCBRmfWY0/1.jpg"], [Fin 0]).1.1 /\
  Forall (fun path => exists root file count,
            (root, file) ∈ visited one_segment "features" /\
            video_seg_frame_path corpus_assembled !! (drop_last 4 file, count)
              = Some path)
         (["a man plays"], ["frames/v_QOlSCBRmfWY0/1.jpg"], [Fin 0]).1.2.
Proof.
  apply (@queries_answer_from_stores Exact.externals one_segment "features"
           stores_loaded corpus_assembled 1).
  - reflexivity.
  - reflexivity.
  - reflexivity.
  - vm_compute. reflexivity.
  - right. exists [1; 0]%Q. vm_compute. reflexivity.
Defined.

(** ** What the loaders leave alone *)

Lemma load_frame_file_keeps (root file : string) (self : DataManager) :
  keeps_but_frame_path_store self (load_frame_file root file self).2 /\
  dom (video_seg_frame_path self) ⊆
    dom (video_seg_frame_path (load_frame_file root file self).2).
Proof.
  unfold load_frame_file, mbind, method_bind, lift, modify.
  destruct (endswith file ".jpg"); simpl; [|by repeat split].
  destruct (py_getitem _ (-2)); simpl; [|by repeat split].
  destruct (py_getitem _ 0); simpl; [|by repeat split].
  destruct (py_int _); simpl; [|by repeat split].
  split; [by repeat split|]. apply dom_insert_subseteq.
Qed.

Lemma load_video_captions_keeps (video_name : string) (data : option (list string))
    (self : DataManager) :
  keeps_but_captions self (load_video_captions video_name data self).2 /\
  dom (video_seg_id_to_caption self) ⊆
    dom (video_seg_id_to_caption (load_video_captions video_name data self).2) /\
  raw_captions self `prefix_of`
    raw_captions (load_video_captions video_name data self).2.
Proof.
  destruct data as [sentences|]; [|by repeat split].
  change (load_video_captions video_name (Some sentences) self) with
    (for_each (seq 0 (length sentences))
       (fun seg_id =>
          sentence ← lift (lookup_or IndexError (sentences !! seg_id));
          modify (fun self =>
            set_video_seg_id_to_caption
              (<[(video_name, Z.of_nat seg_id) := sentence]>
                 (video_seg_id_to_caption self)) self))
       (set_raw_captions (raw_captions self ++ sentences) self)).
  pose proof (for_each_outcome
    (fun _ s s' => keeps_but_captions s s' /\
                   dom (video_seg_id_to_caption s) ⊆ dom (video_seg_id_to_caption s') /\
                   raw_captions s' = raw_captions s)
    (seq 0 (length sentences))
    (fun seg_id =>
       sentence ← lift (lookup_or IndexError (sentences !! seg_id));
       modify (fun self =>
         set_video_seg_id_to_caption
           (<[(video_name, Z.of_nat seg_id) := sentence]>
              (video_seg_id_to_caption self)) self))
    (set_raw_captions (raw_captions self ++ sentences) self)) as Hloop.
  destruct Hloop as (Hkeep & Hdom & Hraw).
  - intros _ s. split; [apply keeps_but_captions_refl | done].
  - intros _ a b c (Hk1 & Hd1 & Hr1) (Hk2 & Hd2 & Hr2).
    split; [by eapply keeps_but_captions_trans|]. split; [by etrans | congruence].
  - intros seg_id s _. unfold mbind, method_bind, lift, modify.
    destruct (sentences !! seg_id); simpl; [|by repeat split].
    split; [by repeat split|]. split; [apply dom_insert_subseteq | done].
  - split; [exact Hkeep|]. split; [exact Hdom|].
    rewrite Hraw. simpl. by apply prefix_app_r.
Qed.

Lemma load_key_frame_file_keeps (tables : gmap string (result (list Z)))
    (root file : string) (self : DataManager) :
  keeps_but_key_frames self (load_key_frame_file tables root file self).2 /\
  dom (key_frames self) ⊆ dom (key_frames (load_key_frame_file tables root file self).2).
Proof.
  unfold load_key_frame_file, mbind, method_bind, lift, modify.
  destruct (endswith file ".txt"); simpl; [|by repeat split].
  destruct (py_assert _); simpl; [|by repeat split].
  destruct (tables !! _) as [[data|e]|]; simpl; [|by repeat split..].
  split; [by repeat split|]. apply dom_insert_subseteq.
Qed.

(** X16.  Each loader writes to its own store only, whether it returns
    or raises: [load_frame_path_info] changes nothing but the store of
    the frame paths, [load_captions] nothing but the caption store and the
    raw captions, [load_key_frame_information] nothing but the store of
    the key frames.  No key is ever taken out of a store, and the raw
    captions held before stay at the front. *)
Theorem loaders_keep_the_rest (fs : FileSystem) (json_files : gmap string database)
    (tables : gmap string (result (list Z))) (path : string) (self : DataManager) :
  (keeps_but_frame_path_store self (load_frame_path_info fs path self).2 /\
   dom (video_seg_frame_path self) ⊆
     dom (video_seg_frame_path (load_frame_path_info fs path self).2)) /\
  (keeps_but_captions self (load_captions json_files path self).2 /\
   dom (video_seg_id_to_caption self) ⊆
     dom (video_seg_id_to_caption (load_captions json_files path self).2) /\
   raw_captions self `prefix_of` raw_captions (load_captions json_files path self).2) /\
  (keeps_but_key_frames self (load_key_frame_information fs tables path self).2 /\
   dom (key_frames self) ⊆
     dom (key_frames (load_key_frame_information fs tables path self).2)).
Proof.
  split; [|split].
  - rewrite load_frame_path_info_visited.
    apply (for_each_outcome
      (fun _ s s' => keeps_but_frame_path_store s s' /\
                     dom (video_seg_frame_path s) ⊆ dom (video_seg_frame_path s'))).
    + intros _ s. by repeat split.
    + intros _ a b c [(?&?&?&?&?&?&?) Hd1] [(?&?&?&?&?&?&?) Hd2].
      split; [repeat split; congruence | by etrans].
    + intros [root file] s _. apply load_frame_file_keeps.
  - unfold load_captions. rewrite method_bind_unfold. unfold lift.
    destruct (json_files !! path) as [db|]; simpl; [|by repeat split].
    apply (for_each_outcome
      (fun _ s s' => keeps_but_captions s s' /\
                     dom (video_seg_id_to_caption s) ⊆ dom (video_seg_id_to_caption s') /\
                     raw_captions s `prefix_of` raw_captions s')).
    + intros _ s. split; [apply keeps_but_captions_refl | done].
    + intros _ a b c (Hk1 & Hd1 & Hr1) (Hk2 & Hd2 & Hr2).
      split; [by eapply keeps_but_captions_trans|]. split; by etrans.
    + intros [video_name data] s _. apply load_video_captions_keeps.
  - rewrite load_key_frame_information_visited.
    apply (for_each_outcome
      (fun _ s s' => keeps_but_key_frames s s' /\
                     dom (key_frames s) ⊆ dom (key_frames s'))).
    + intros _ s. by repeat split.
    + intros _ a b c [(?&?&?&?&?&?&?) Hd1] [(?&?&?&?&?&?&?) Hd2].
      split; [repeat split; congruence | by etrans].
    + intros [root file] s _. apply load_key_frame_file_keeps.
Qed.

Lemma get_video_segment_caption_video_name_witness :
  (get_video_segment_caption "v_QOlSCBRmfWY" stores_loaded).1 = Raise ValueError.
Proof.
  apply (proj1 (get_video_segment_caption_video_name stores_loaded "v_QOlSCBRmfWY")).
  vm_compute. lia.
Defined.

(** ** Files the loaders refuse *)

Lemma for_each_Raise {A} (pre post : list A) (x : A) (body : A -> method unit)
    (self : DataManager) (e : exn) :
  (forall s, (body x s).1 = Raise e) ->
  (exists e', (for_each (pre ++ x :: post) body self).1 = Raise e') /\
  ((for_each pre body self).1 = OK tt ->
   (for_each (pre ++ x :: post) body self).1 = Raise e).
Proof.
  intros Hx. rewrite for_each_app.
  destruct (for_each pre body self) as [[[]|e'] self1]; simpl.
  - rewrite method_bind_unfold. specialize (Hx self1).
    destruct (body x self1) as [r self2]. simpl in Hx. subst r. simpl. eauto.
  - split; [eauto | done].
Qed.

(** X19.  A .jpg file whose name up to the first dot is not a number
    stops [load_frame_path_info]: the call raises, and what it raises is
    the [ValueError] of [int] when the files before it have registered.
    The files after it are not read. *)
Theorem load_frame_path_info_not_a_number (fs : FileSystem) (folder : string)
    (self : DataManager) (pre post : list (string * string))
    (root file : string) (seg stem : list ascii) :
  visited fs folder = pre ++ (root, file) :: post ->
  frame_file root file seg stem ->
  ~ is_OK (py_int (str stem)) ->
  (exists e, (load_frame_path_info fs folder self).1 = Raise e) /\
  ((for_each pre (fun '(root, file) => load_frame_file root file) self).1 = OK tt ->
   (load_frame_path_info fs folder self).1 = Raise ValueError).
Proof.
  intros Hvis Hfile Hint. rewrite load_frame_path_info_visited, Hvis.
  apply (for_each_Raise pre post (root, file)
           (fun '(root, file) => load_frame_file root file)).
  intros s. rewrite (load_frame_file_run _ _ _ _ _ Hfile), method_bind_unfold.
  unfold lift, py_int in *.
  by match goal with |- context [lookup_or ValueError ?o] => destruct o end.
Qed.

Lemma load_frame_path_info_not_a_number_witness :
  (exists e, (load_frame_path_info unnumbered_frame "frames" init).1 = Raise e) /\
  ((for_each [("frames/v_QOlSCBRmfWY0", "1.jpg"); ("frames/v_QOlSCBRmfWY0", "2.jpg")]
      (fun '(root, file) => load_frame_file root file) init).1 = OK tt ->
   (load_frame_path_info unnumbered_frame "frames" init).1 = Raise ValueError).
Proof.
  apply (load_frame_path_info_not_a_number unnumbered_frame "frames" init
           [("frames/v_QOlSCBRmfWY0", "1.jpg"); ("frames/v_QOlSCBRmfWY0", "2.jpg")] []
           "frames/v_QOlSCBRmfWY0" "cover.jpg" (chars "v_QOlSCBRmfWY0") (chars "cover")).
  - reflexivity.
  - split; [done|]. split; [reflexivity|]. split; [reflexivity|].
    split; [by apply (bool_decide_unpack _)|]. split; [reflexivity|].
    exists (chars "jpg"). split; [reflexivity|]. by apply (bool_decide_unpack _).
  - vm_compute. tauto.
Defined.

(** X20.  A .txt file whose name less its last four characters has fewer
    than 14 characters is refused by assertion, in the folder of the key
    frames as in the folder of the features: [load_key_frame_information]
    and [load_features] raise, and what they raise is [AssertionError]
    when the files before it load. *)
Theorem short_names_are_refused `{Externals} (fs : FileSystem)
    (tables : gmap string (result (list Z))) (folder : string)
    (self : DataManager) (pre post : list (string * string)) (root file : string) :
  visited fs folder = pre ++ (root, file) :: post ->
  endswith file ".txt" = true ->
  len (drop_last 4 file) < 14 ->
  ((exists e, (load_key_frame_information fs tables folder self).1 = Raise e) /\
   ((for_each pre (fun '(root, file) => load_key_frame_file tables root file) self).1
      = OK tt ->
    (load_key_frame_information fs tables folder self).1 = Raise AssertionError)) /\
  ((exists e, (load_features fs folder self).1 = Raise e) /\
   ((for_each pre (fun '(root, file) => load_feature_file fs root file) self).1
      = OK tt ->
    (load_features fs folder self).1 = Raise AssertionError)).
Proof.
  intros Hvis Hends Hlen.
  assert (Hleb : (14 <=? len (drop_last 4 file)) = false) by (apply Nat.leb_gt; lia).
  split.
  - rewrite load_key_frame_information_visited, Hvis.
    apply (for_each_Raise pre post (root, file)
             (fun '(root, file) => load_key_frame_file tables root file)).
    intros s. unfold load_key_frame_file. rewrite Hends. cbn [negb].
    rewrite method_bind_unfold. unfold lift. by rewrite Hleb.
  - rewrite load_features_visited, method_bind_unfold, Hvis.
    destruct (for_each_Raise pre post (root, file)
                (fun '(root, file) => load_feature_file fs root file) self
                AssertionError) as [[e He] Hpre].
    { intros s. unfold load_feature_file. rewrite Hends. cbn [negb].
      rewrite method_bind_unfold. unfold lift. by rewrite Hleb. }
    destruct (for_each (pre ++ _) _ self) as [r self1]. simpl in He, Hpre.
    split.
    + exists e. by subst r.
    + intros Hok. by rewrite (Hpre Hok).
Qed.

Lemma short_names_are_refused_witness :
  ((exists e, (load_key_frame_information short_name one_segment_tables "features"
                 stores_loaded).1 = Raise e) /\
   ((for_each [] (fun '(root, file) => load_key_frame_file one_segment_tables root file)
       stores_loaded).1 = OK tt ->
    (load_key_frame_information short_name one_segment_tables "features"
       stores_loaded).1 = Raise AssertionError)) /\
  ((exists e, (@load_features Exact.externals short_name "features" stores_loaded).1
              = Raise e) /\
   ((for_each [] (fun '(root, file) =>
                    @load_feature_file Exact.externals short_name root file)
       stores_loaded).1 = OK tt ->
    (@load_features Exact.externals short_name "features" stores_loaded).1
      = Raise AssertionError)).
Proof.
  apply (@short_names_are_refused Exact.externals short_name one_segment_tables
           "features" stores_loaded [] [("features", "v_QOlSCBRmfWY0.txt")]
           "features" "README.txt").
  - reflexivity.
  - reflexivity.
  - vm_compute. lia.
Defined.

(** ** Normalization *)

Lemma sum_squares_nonneg (v : list Q) : (0 <= sum_squares v)%Q.
Proof.
  induction v as [|x v IH]; simpl; [done|]. nra.
Qed.

Lemma sum_squares_scale (v : list Q) (n : Q) :
  ~ (n == 0)%Q ->
  (sum_squares (map (fun x => x / n) v) * (n * n) == sum_squares v)%Q.
Proof.
  intros Hn. induction v as [|x v IH]; simpl; [ring|].
  rewrite <- IH. field. exact Hn.
Qed.

Lemma square_le (a b : Q) : (0 <= a -> 0 <= b -> a * a <= b * b -> a <= b)%Q.
Proof. intros. nra. Qed.

Lemma near_one_one (eps : Q) : (0 <= eps)%Q -> near_one eps 1.
Proof. intros. unfold near_one. lra. Qed.

Lemma near_one_exact (eps n : Q) : (eps == 0)%Q -> near_one eps n -> (n == 1)%Q.
Proof. unfold near_one. intros Heps [Hlo Hhi]. rewrite Heps in Hlo, Hhi. lra. Qed.

Lemma close_exact (eps x x' : Q) : (eps == 0)%Q -> close eps x x' -> (x' == x)%Q.
Proof.
  intros Heps (n & Hn%near_one_exact & ->); [|done].
  rewrite Hn. field.
Qed.

Section Normalization.
Context `{Externals}.

Lemma normalize_row_length (v : list Q) : length (normalize_row v) = length v.
Proof. unfold normalize_row. destruct (np_norm v); by rewrite length_map. Qed.

Lemma check_array_normalized (X : list (list Q)) :
  check_array X = OK tt -> check_array (map normalize_row X) = OK tt.
Proof.
  destruct X as [|r rest]; simpl; [done|].
  case_bool_decide as Hok; [|done]. intros _.
  rewrite bool_decide_eq_true_2; [done|].
  destruct Hok as [Hr Hrest]. split.
  - intros Hnil. apply Hr. apply (f_equal length) in Hnil.
    rewrite normalize_row_length in Hnil. by destruct r.
  - apply Forall_fmap. eapply Forall_impl; [exact Hrest|].
    intros r' Hr'. simpl. by rewrite !normalize_row_length.
Qed.

Lemma normalize_features_run (self self' : DataManager) :
  normalize_features self = (OK tt, self') <->
  check_array (rows_of (features self)) = OK tt /\
  self' = set_features (NdArray (map normalize_row (rows_of (features self)))) self.
Proof.
  unfold normalize_features, normalize, mbind, method_bind, get, lift, modify.
  destruct (check_array (rows_of (features self))) as [[]|e]; simpl; split.
  - by intros [= <-].
  - by intros [_ ->].
  - done.
  - by intros [[=] _].
Qed.

(** On a vector of norm one within [eps], or zero, normalization divides
    by a number that is one within [eps]. *)
Lemma normalize_row_close (eps : Q) (v : list Q) :
  (0 <= eps)%Q -> unit_norm eps v -> Forall2 (close eps) v (normalize_row v).
Proof.
  intros Heps (s & Hs & Hunit). unfold normalize_row. rewrite Hs.
  apply Forall2_fmap_r, Forall_Forall2_diag, Forall_forall. intros x _.
  destruct (Qeq_bool s 0) eqn:Hzero.
  - exists 1%Q. split; [by apply near_one_one | done].
  - exists s. split; [|done].
    destruct Hunit as [Hz|Hnear]; [|done].
    apply Qeq_bool_neq in Hzero. by destruct Hzero.
Qed.

(** Where the norm is accurate within [eps], a normalized vector has norm
    one within [eps], or zero. *)
Lemma normalize_row_unit (eps : Q) (v : list Q) :
  (0 <= eps < 1)%Q ->
  norm_accurate eps v -> norm_accurate eps (normalize_row v) ->
  unit_norm eps (normalize_row v).
Proof.
  intros [Hlo Hhi] (s & Hs & Hpos & Hs1 & Hs2) (s' & Hs' & Hpos' & Hs1' & Hs2').
  exists s'. split; [done|].
  pose proof (sum_squares_nonneg v) as Hss.
  pose proof (sum_squares_nonneg (normalize_row v)) as Hss'.
  unfold normalize_row in Hs1', Hs2', Hss'. rewrite Hs in Hs1', Hs2', Hss'.
  destruct (Qeq_bool s 0) eqn:Hzero.
  - left. apply Qeq_bool_iff in Hzero.
    pose proof (sum_squares_scale v 1 ltac:(lra)) as Hscale.
    set (ss' := sum_squares (map (fun x => (x / 1)%Q) v)) in *.
    set (ss := sum_squares v) in *.
    assert (ss == 0)%Q as Hzero'.
    { assert (0 < (1 - eps) * (1 - eps))%Q by nra.
      assert ((1 - eps) * (1 - eps) * ss <= 0)%Q by nra. nra. }
    assert (ss' == 0)%Q by lra.
    assert (s' * s' <= 0)%Q by nra. nra.
  - right. apply Qeq_bool_neq in Hzero.
    pose proof (sum_squares_scale v s Hzero) as Hscale.
    set (ss' := sum_squares (map (fun x => (x / s)%Q) v)) in *.
    set (ss := sum_squares v) in *.
    assert (0 < s * s)%Q as Hsq by nra.
    assert (1 <= (1 + eps) * (1 + eps) * ss')%Q as Hup.
    { apply (Qmult_le_r _ _ (s * s)); [done|]. nra. }
    assert ((1 - eps) * (1 - eps) * ss' <= 1)%Q as Hdown.
    { apply (Qmult_le_r _ _ (s * s)); [done|]. nra. }
    split.
    + apply square_le; [lra | nra |].
      assert ((1 - eps) * (1 - eps) * 1 <=
              (1 - eps) * (1 - eps) * ((1 + eps) * (1 + eps) * ss'))%Q
        by (apply Qmult_le_l; nra).
      nra.
    + apply square_le; [nra | lra |].
      assert ((1 + eps) * (1 + eps) * ((1 - eps) * (1 - eps) * ss') <=
              (1 + eps) * (1 + eps) * 1)%Q
        by (apply Qmult_le_l; nra).
      nra.
Qed.
End Normalization.

(** C9.  [normalize_features] leaves a corpus of unit vectors as it is,
    and applied twice it gives what it gives applied once, within the
    accuracy of the norm.  (a) On a corpus whose vectors have norm one
    within [eps], or zero, every number of a vector is divided by a
    number that is one within [eps]; with [eps] zero the vectors are the
    vectors before the call.  (b) Where the norm is the root of the sum
    of the squares within [eps], on the vectors of a corpus and on their
    normalized vectors, a normalized corpus is such a corpus: every
    vector has norm one within [eps], or zero, and a second
    [normalize_features] returns and does to it what (a) says.  Nothing
    but the vectors changes. *)
Theorem normalize_features_idempotent `{Externals} (eps : Q)
    (self self1 : DataManager) :
  (0 <= eps < 1)%Q ->
  normalize_features self = (OK tt, self1) ->
  keeps_but_features self self1 /\
  (Forall (unit_norm eps) (rows_of (features self)) ->
   Forall2 (Forall2 (close eps)) (rows_of (features self)) (rows_of (features self1)) /\
   ((eps == 0)%Q ->
    Forall2 (Forall2 Qeq) (rows_of (features self1)) (rows_of (features self)))) /\
  (Forall (fun v => norm_accurate eps v /\ norm_accurate eps (normalize_row v))
          (rows_of (features self)) ->
   Forall (unit_norm eps) (rows_of (features self1)) /\
   exists self2,
     normalize_features self1 = (OK tt, self2) /\
     keeps_but_features self1 self2 /\
     Forall2 (Forall2 (close eps)) (rows_of (features self1)) (rows_of (features self2)) /\
     ((eps == 0)%Q ->
      Forall2 (Forall2 Qeq) (rows_of (features self2)) (rows_of (features self1)))).
Proof.
  intros Heps [Hcheck ->]%normalize_features_run.
  assert (Hclose : forall X, Forall (unit_norm eps) X ->
            Forall2 (Forall2 (close eps)) X (map normalize_row X) /\
            ((eps == 0)%Q -> Forall2 (Forall2 Qeq) (map normalize_row X) X)).
  { intros X HX.
    assert (Forall2 (Forall2 (close eps)) X (map normalize_row X)) as Hall.
    { apply Forall2_fmap_r, Forall_Forall2_diag.
      eapply Forall_impl; [exact HX|]. intros v Hv.
      apply normalize_row_close; [lra | done]. }
    split; [done|]. intros Hzero.
    apply Forall2_flip. eapply Forall2_impl; [exact Hall|].
    intros v v' Hv. apply Forall2_flip. eapply Forall2_impl; [exact Hv|].
    intros x x' Hx. by eapply close_exact. }
  split; [by repeat split|]. simpl. split; [apply Hclose|].
  intros Hacc.
  assert (Forall (unit_norm eps) (map normalize_row (rows_of (features self))))
    as Hunit.
  { apply Forall_fmap. eapply Forall_impl; [exact Hacc|].
    intros v [Hv Hv']. by apply normalize_row_unit. }
  split; [done|].
  eexists. split.
  - apply normalize_features_run. split; [|reflexivity].
    simpl. by apply check_array_normalized.
  - split; [by repeat split|]. simpl. by apply Hclose.
Qed.

Lemma normalize_features_idempotent_witness :
  keeps_but_features unit_vectors (@normalize_features Exact.externals unit_vectors).2 /\
  Forall2 (Forall2 Qeq)
    (rows_of (features (@normalize_features Exact.externals unit_vectors).2))
    (rows_of (features unit_vectors)) /\
  Forall (@unit_norm Exact.externals 0)
    (rows_of (features (@normalize_features Exact.externals unit_vectors).2)) /\
  exists self2,
    @normalize_features Exact.externals
      (@normalize_features Exact.externals unit_vectors).2 = (OK tt, self2) /\
    Forall2 (Forall2 Qeq) (rows_of (features self2))
      (rows_of (features (@normalize_features Exact.externals unit_vectors).2)).
Proof.
  destruct (@normalize_features_idempotent Exact.externals 0 unit_vectors
              (@normalize_features Exact.externals unit_vectors).2)
    as (Hkeep & Ha & Hb).
  - split; [apply Qle_refl | reflexivity].
  - vm_compute. reflexivity.
  - split; [exact Hkeep|].
    destruct Ha as [_ Ha].
    { repeat constructor; eexists; (split; [vm_compute; reflexivity|]);
        [right | right | left]; unfold near_one, Qle, Qeq; simpl; lia. }
    split; [by apply Ha|].
    destruct Hb as (Hunit & self2 & Hrun & _ & _ & Hsame).
    { repeat (apply List.Forall_cons || apply List.Forall_nil);
        (split; eexists; (split; [vm_compute; reflexivity|]);
         unfold accurate; repeat split; apply Qle_bool_imp_le; vm_compute;
         reflexivity). }
    split; [exact Hunit|]. exists self2. split; [exact Hrun | by apply Hsame].
Defined.
